(** * Cursor pagination and streaming aggregation of the MS SQL MCP server

    A shallow embedding of [Lib/pagination.mjs] and of the paginated-query,
    execute-query and query-streamer tool handlers of [lib/tools.js],
    with the properties their specification states about them. *)

From Stdlib Require Import ZArith NArith QArith List Ascii String Lia.
From Stdlib Require Import Decimal DecimalZ DecimalFacts.
From stdpp Require Import gmap list fin_maps.
Import ListNotations.

Local Open Scope N_scope.
#[local] Set Warnings "-register-all".

(** ** JavaScript strings

    A JavaScript string is a sequence of UTF-16 code units.  A code unit is
    a number below 65536. *)

Definition jsstring := list N.

Definition code_unit (c : N) : Prop := c < 65536.

Definition js (s : string) : jsstring :=
  map N_of_ascii (list_ascii_of_string s).

(** [\s] of a regular expression, which is also what [trim] removes:
    WhiteSpace and LineTerminator of the language definition. *)
Definition isSpace (c : N) : bool :=
  ((9 <=? c) && (c <=? 13)) || (c =? 32) || (c =? 160) || (c =? 5760)
  || ((8192 <=? c) && (c <=? 8202)) || (c =? 8232) || (c =? 8233)
  || (c =? 8239) || (c =? 8287) || (c =? 12288) || (c =? 65279).

(** [\n], [\r], U+2028 and U+2029: what [.] does not match without the
    [s] flag. *)
Definition isLineTerminator (c : N) : bool :=
  (c =? 10) || (c =? 13) || (c =? 8232) || (c =? 8233).

Definition isUpper (c : N) : bool := (65 <=? c) && (c <=? 90).
Definition isLower (c : N) : bool := (97 <=? c) && (c <=? 122).
Definition isDigit (c : N) : bool := (48 <=? c) && (c <=? 57).

(** [\w], the word characters that [\b] looks at. *)
Definition isWordChar (c : N) : bool :=
  isUpper c || isLower c || isDigit c || (c =? 95).

(** Case folding of the [i] flag on an ASCII letter: a code unit outside
    ASCII is never folded onto an ASCII one. *)
Definition foldCase (c : N) : N := if isUpper c then c + 32 else c.

Definition lowerChar (c : N) : N :=
  if isUpper c then c + 32 else if c =? 8490 then 107 else c.

(** [String.prototype.toLowerCase], as far as the ASCII words see it that
    the source searches in its result or compares it with.  U+212A becomes
    k.  Any other code unit outside ASCII stays in place: its lower case
    has no ASCII letter in it, but for U+0130, whose lower case is an i
    followed by U+0307; the words searched for have no i, and a string
    with U+0130 in it differs from an ASCII word with or without the
    mapping. *)
Definition toLowerCase (s : jsstring) : jsstring := map lowerChar s.

Fixpoint dropSpaces (s : jsstring) : jsstring :=
  match s with
  | c :: s' => if isSpace c then dropSpaces s' else s
  | [] => []
  end.

(** [String.prototype.trim]. *)
Definition trim (s : jsstring) : jsstring :=
  rev (dropSpaces (rev (dropSpaces s))).

Fixpoint startsWith (p s : jsstring) : bool :=
  match p, s with
  | [], _ => true
  | a :: p', b :: s' => (a =? b) && startsWith p' s'
  | _ :: _, [] => false
  end.

(** [String.prototype.includes]. *)
Fixpoint includes (p s : jsstring) : bool :=
  startsWith p s ||
  match s with
  | [] => false
  | _ :: s' => includes p s'
  end.

(** [s.split(c)[0]] for a one-character separator: the text before the
    first [c]. *)
Fixpoint beforeChar (c : N) (s : jsstring) : jsstring :=
  match s with
  | [] => []
  | x :: s' => if x =? c then [] else x :: beforeChar c s'
  end.

(** [s.split(/\s+/)[0]]: the text before the first white space. *)
Fixpoint beforeSpace (s : jsstring) : jsstring :=
  match s with
  | [] => []
  | x :: s' => if isSpace x then [] else x :: beforeSpace s'
  end.

(** [s.replace(/\[|\]/g, '')]. *)
Definition dropBrackets (s : jsstring) : jsstring :=
  filter (fun c => negb ((c =? 91) || (c =? 93))) s.

(** [s.replace(/[^a-zA-Z0-9_]/g, '_')]. *)
Definition sanitizeName (s : jsstring) : jsstring :=
  map (fun c => if isWordChar c then c else 95) s.

(** The decimal digits of an integer, as the conversion of a number to a
    string writes them for an integer below 10^21 in absolute value. *)
Fixpoint digitsOfUint (u : Decimal.uint) : jsstring :=
  match u with
  | Nil => []
  | D0 u => 48 :: digitsOfUint u
  | D1 u => 49 :: digitsOfUint u
  | D2 u => 50 :: digitsOfUint u
  | D3 u => 51 :: digitsOfUint u
  | D4 u => 52 :: digitsOfUint u
  | D5 u => 53 :: digitsOfUint u
  | D6 u => 54 :: digitsOfUint u
  | D7 u => 55 :: digitsOfUint u
  | D8 u => 56 :: digitsOfUint u
  | D9 u => 57 :: digitsOfUint u
  end.

Definition numberToString (z : Z) : jsstring :=
  match Z.to_int z with
  | Decimal.Pos u => digitsOfUint u
  | Decimal.Neg u => 45 :: digitsOfUint u
  end.

(** ** Regular expressions

    The regular expressions of the source are matched by backtracking, as
    the language defines it: alternatives left to right, a greedy
    quantifier the longest run first, a lazy one the shortest first, and
    the first start position that matches wins. *)

Inductive regex :=
| REps
| RChr (p : N -> bool)
| RSeq (r1 r2 : regex)
| RAlt (r1 r2 : regex)
| RStar (greedy : bool) (r : regex)
| RCap (r : regex)
| REnd
| RWordB.

(** A position in the input: the code unit before it, the index, what is
    left, and the span of the capture group when it has matched. *)
Record mstate := MState {
  ms_prev : option N;
  ms_pos : nat;
  ms_rest : jsstring;
  ms_cap : option (nat * nat)
}.

Definition isWordOpt (o : option N) : bool :=
  match o with Some c => isWordChar c | None => false end.

Fixpoint rmatch (r : regex) (st : mstate) (k : mstate -> option mstate)
  : option mstate :=
  match r with
  | REps => k st
  | RChr p =>
      match ms_rest st with
      | c :: rest' =>
          if p c then k (MState (Some c) (S (ms_pos st)) rest' (ms_cap st))
          else None
      | [] => None
      end
  | RSeq r1 r2 => rmatch r1 st (fun st' => rmatch r2 st' k)
  | RAlt r1 r2 =>
      match rmatch r1 st k with
      | Some res => Some res
      | None => rmatch r2 st k
      end
  | RStar greedy r' =>
      (fix loop (n : nat) (st : mstate) {struct n} : option mstate :=
         match n with
         | O => k st
         | S n' =>
             let more :=
               rmatch r' st (fun st' =>
                 if (ms_pos st <? ms_pos st')%nat then loop n' st' else None) in
             if greedy then
               match more with Some res => Some res | None => k st end
             else
               match k st with Some res => Some res | None => more end
         end) (S (length (ms_rest st))) st
  | RCap r' =>
      rmatch r' st (fun st' =>
        k (MState (ms_prev st') (ms_pos st') (ms_rest st')
             (Some (ms_pos st, ms_pos st'))))
  | REnd => match ms_rest st with [] => k st | _ :: _ => None end
  | RWordB =>
      if xorb (isWordOpt (ms_prev st)) (isWordOpt (head (ms_rest st)))
      then k st else None
  end.

(** The result of a successful match: where it starts and ends, and the
    span of the capture group. *)
Record rresult := RResult {
  rr_start : nat;
  rr_end : nat;
  rr_cap : option (nat * nat)
}.

Fixpoint rscan (r : regex) (prev : option N) (pos : nat) (s : jsstring)
  : option rresult :=
  match rmatch r (MState prev pos s None) Some with
  | Some st => Some (RResult pos (ms_pos st) (ms_cap st))
  | None =>
      match s with
      | [] => None
      | c :: s' => rscan r (Some c) (S pos) s'
      end
  end.

(** [RegExp.prototype.exec] without the [g] flag. *)
Definition rexec (r : regex) (s : jsstring) : option rresult :=
  rscan r None 0%nat s.

(** [RegExp.prototype.test]. *)
Definition rtest (r : regex) (s : jsstring) : bool :=
  match rexec r s with Some _ => true | None => false end.

Definition slice (i j : nat) (s : jsstring) : jsstring :=
  firstn (j - i) (skipn i s).

(** [s.match(r)[1]] when [r] matches and its group took part. *)
Definition rcapture (r : regex) (s : jsstring) : option jsstring :=
  match rexec r s with
  | Some res =>
      match rr_cap res with
      | Some (i, j) => Some (slice i j s)
      | None => None
      end
  | None => None
  end.

(** [s.replace(r, by)] without the [g] flag: the first match only. *)
Definition rreplace (r : regex) (by_ : jsstring) (s : jsstring) : jsstring :=
  match rexec r s with
  | Some res => firstn (rr_start res) s ++ by_ ++ skipn (rr_end res) s
  | None => s
  end.

(** Building blocks: a literal under the [i] flag, a literal taken as it
    is, [r+], [r+?], [\s], [.] without and with the [s] flag. *)
Definition RLitI (s : string) : regex :=
  fold_right (fun c r => RSeq (RChr (fun x => foldCase x =? foldCase c)) r)
    REps (js s).

Definition RLit (s : string) : regex :=
  fold_right (fun c r => RSeq (RChr (fun x => x =? c)) r) REps (js s).

Definition RPlus (r : regex) : regex := RSeq r (RStar true r).
Definition RPlusLazy (r : regex) : regex := RSeq r (RStar false r).
Definition RSpace : regex := RChr isSpace.
Definition RDot : regex := RChr (fun c => negb (isLineTerminator c)).
Definition RAny : regex := RChr (fun _ => true).

(** [/\border\s+by\b/i] *)
Definition reHasOrderBy : regex :=
  RSeq RWordB (RSeq (RLitI "order") (RSeq (RPlus RSpace)
    (RSeq (RLitI "by") RWordB))).

(** [/ORDER\s+BY\s+([^)]+?)(?:\s+OFFSET|\s+FOR\s+JSON|\s+FOR\s+XML|\s*$)/i] *)
Definition reOrderByClause : regex :=
  RSeq (RLitI "ORDER") (RSeq (RPlus RSpace) (RSeq (RLitI "BY")
    (RSeq (RPlus RSpace)
      (RSeq (RCap (RPlusLazy (RChr (fun c => negb (c =? 41)))))
        (RAlt (RSeq (RPlus RSpace) (RLitI "OFFSET"))
          (RAlt (RSeq (RPlus RSpace) (RSeq (RLitI "FOR")
                   (RSeq (RPlus RSpace) (RLitI "JSON"))))
            (RAlt (RSeq (RPlus RSpace) (RSeq (RLitI "FOR")
                     (RSeq (RPlus RSpace) (RLitI "XML"))))
              (RSeq (RStar true RSpace) REnd)))))))).

(** ** Values

    A row of a record set holds SQL scalars: [null], a boolean, a number or
    a string.  Numbers are the integers, which a double holds exactly up to
    2^53; a value with a fraction is not a row value of this model. *)

Inductive scalar :=
| SNull
| SBool (b : bool)
| SNum (z : Z)
| SStr (s : jsstring).

(** What [JSON.parse] returns.  A number literal whose value is an integer
    is [JNum] with that integer, also beyond the range of a double; any
    other number literal is kept as [JReal] with its text, which stands for
    a number that is not zero.  Numbers are exact here: the rounding of a
    literal to the nearest double (past 2^53, or past seventeen digits), its
    overflow to infinity and its underflow to zero are left out. *)
Inductive json :=
| JNull
| JBool (b : bool)
| JNum (z : Z)
| JReal (lit : jsstring)
| JStr (s : jsstring)
| JArr (l : list json)
| JObj (l : list (jsstring * json)).

Definition ofScalar (v : scalar) : json :=
  match v with
  | SNull => JNull
  | SBool b => JBool b
  | SNum z => JNum z
  | SStr s => JStr s
  end.

Definition jsstring_eqb (a b : jsstring) : bool :=
  bool_decide (a = b).

(** Property lookup and assignment on the members of a parsed object. *)
Fixpoint objGet (k : jsstring) (l : list (jsstring * json)) : option json :=
  match l with
  | [] => None
  | (k', v) :: l' => if jsstring_eqb k k' then Some v else objGet k l'
  end.

Fixpoint objSet (k : jsstring) (v : json) (l : list (jsstring * json))
  : list (jsstring * json) :=
  match l with
  | [] => [(k, v)]
  | (k', v') :: l' =>
      if jsstring_eqb k k' then (k', v) :: l' else (k', v') :: objSet k v l'
  end.

(** ToBoolean. *)
Definition truthy (v : json) : bool :=
  match v with
  | JNull => false
  | JBool b => b
  | JNum z => negb (z =? 0)%Z
  | JReal _ => true
  | JStr s => match s with [] => false | _ :: _ => true end
  | JArr _ => true
  | JObj _ => true
  end.

(** ToString, as a template literal applies it: [None] when it throws,
    which it does on an object with a [toString] member of its own (the
    member is data, not a function, and [valueOf] gives the object back).
    An integer is printed in decimal, as the platform does below 10^21; a
    [JReal] is printed as it was written. *)
Fixpoint jsToString (v : json) : option jsstring :=
  match v with
  | JNull => Some (js "null")
  | JBool true => Some (js "true")
  | JBool false => Some (js "false")
  | JNum z => Some (numberToString z)
  | JReal lit => Some lit
  | JStr s => Some s
  | JArr l =>
      (fix join (l : list json) : option jsstring :=
         match l with
         | [] => Some []
         | x :: l' =>
             match (match x with JNull => Some [] | _ => jsToString x end),
                   join l' with
             | Some a, Some b =>
                 Some (a ++ match l' with [] => [] | _ :: _ => 44 :: b end)
             | _, _ => None
             end
         end) l
  | JObj l =>
      match objGet (js "toString") l with
      | Some _ => None
      | None => Some (js "[object Object]")
      end
  end.

(** ** UTF-8, as [Buffer.from(string)] writes it and
    [buffer.toString('utf8')] reads it *)

Definition isHighSurrogate (c : N) : bool := (55296 <=? c) && (c <=? 56319).
Definition isLowSurrogate (c : N) : bool := (56320 <=? c) && (c <=? 57343).

Definition replacementBytes : list N := [239; 191; 189].

Fixpoint utf8Encode (s : jsstring) : list N :=
  match s with
  | [] => []
  | c :: s' =>
      if c <? 128 then c :: utf8Encode s'
      else if c <? 2048 then
        (192 + c / 64) :: (128 + c mod 64) :: utf8Encode s'
      else if isHighSurrogate c then
        match s' with
        | d :: s'' =>
            if isLowSurrogate d then
              let cp := 65536 + (c - 55296) * 1024 + (d - 56320) in
              (240 + cp / 262144) :: (128 + (cp / 4096) mod 64)
                :: (128 + (cp / 64) mod 64) :: (128 + cp mod 64)
                :: utf8Encode s''
            else replacementBytes ++ utf8Encode s'
        | [] => replacementBytes
        end
      else if isLowSurrogate c then replacementBytes ++ utf8Encode s'
      else
        (224 + c / 4096) :: (128 + (c / 64) mod 64) :: (128 + c mod 64)
          :: utf8Encode s'
  end.

(** The decoder in the middle of a character: how many continuation bytes
    are still needed, the code point so far, and the range the next byte
    has to be in. *)
Record utf8State := Utf8State {
  u8_need : nat;
  u8_cp : N;
  u8_lo : N;
  u8_hi : N
}.

(** A byte read when no character is open: what it emits and the state
    it opens. *)
Definition utf8Lead (b : N) : jsstring * option utf8State :=
  if b <? 128 then ([b], None)
  else if (194 <=? b) && (b <=? 223) then
    ([], Some (Utf8State 1 (b - 192) 128 191))
  else if (224 <=? b) && (b <=? 239) then
    ([], Some (Utf8State 2 (b - 224)
                 (if b =? 224 then 160 else 128)
                 (if b =? 237 then 159 else 191)))
  else if (240 <=? b) && (b <=? 244) then
    ([], Some (Utf8State 3 (b - 240)
                 (if b =? 240 then 144 else 128)
                 (if b =? 244 then 143 else 191)))
  else ([65533], None).

(** A code point as UTF-16. *)
Definition utf16Units (cp : N) : jsstring :=
  if cp <? 65536 then [cp]
  else [55296 + (cp - 65536) / 1024; 56320 + (cp - 65536) mod 1024].

Fixpoint utf8DecodeFrom (st : option utf8State) (bs : list N) : jsstring :=
  match bs with
  | [] => match st with Some _ => [65533] | None => [] end
  | b :: bs' =>
      match st with
      | None =>
          let (out, st') := utf8Lead b in out ++ utf8DecodeFrom st' bs'
      | Some d =>
          if (u8_lo d <=? b) && (b <=? u8_hi d) then
            let cp := u8_cp d * 64 + (b - 128) in
            match u8_need d with
            | S (S n) =>
                utf8DecodeFrom (Some (Utf8State (S n) cp 128 191)) bs'
            | _ => utf16Units cp ++ utf8DecodeFrom None bs'
            end
          else
            let (out, st') := utf8Lead b in
            65533 :: out ++ utf8DecodeFrom st' bs'
      end
  end.

Definition utf8Decode (bs : list N) : jsstring := utf8DecodeFrom None bs.

(** ** Base64, as [buffer.toString('base64')] writes it and
    [Buffer.from(string, 'base64')] reads it *)

Definition b64Char (i : N) : N :=
  if i <? 26 then 65 + i
  else if i <? 52 then 71 + i
  else if i <? 62 then i - 4
  else if i =? 62 then 43 else 47.

Fixpoint base64Encode (bs : list N) : jsstring :=
  match bs with
  | [] => []
  | [a] => [b64Char (a / 4); b64Char ((a mod 4) * 16); 61; 61]
  | [a; b] =>
      [b64Char (a / 4); b64Char ((a mod 4) * 16 + b / 16);
       b64Char ((b mod 16) * 4); 61]
  | a :: b :: c :: rest =>
      b64Char (a / 4) :: b64Char ((a mod 4) * 16 + b / 16)
        :: b64Char ((b mod 16) * 4 + c / 64) :: b64Char (c mod 64)
        :: base64Encode rest
  end.

(** The reader takes the standard and the URL-safe alphabet. *)
Definition b64Val (c : N) : option N :=
  if isUpper c then Some (c - 65)
  else if isLower c then Some (c - 71)
  else if isDigit c then Some (c + 4)
  else if (c =? 43) || (c =? 45) then Some 62
  else if (c =? 47) || (c =? 95) then Some 63
  else None.

(** It skips every code unit outside the alphabet and stops at the first
    [=]. *)
Fixpoint b64Sextets (s : jsstring) : list N :=
  match s with
  | [] => []
  | c :: s' =>
      if c =? 61 then []
      else match b64Val c with
           | Some v => v :: b64Sextets s'
           | None => b64Sextets s'
           end
  end.

Fixpoint b64Bytes (l : list N) : list N :=
  match l with
  | a :: b :: c :: d :: rest =>
      (a * 4 + b / 16) :: ((b mod 16) * 16 + c / 4) :: ((c mod 4) * 64 + d)
        :: b64Bytes rest
  | [a; b; c] => [a * 4 + b / 16; (b mod 16) * 16 + c / 4]
  | [a; b] => [a * 4 + b / 16]
  | _ => []
  end.

Definition base64Decode (s : jsstring) : list N := b64Bytes (b64Sextets s).

(** ** JSON, as [JSON.stringify] writes it and [JSON.parse] reads it *)

Definition hexDigit (d : N) : N := if d <? 10 then 48 + d else 87 + d.

(** [\uXXXX] with lower-case digits. *)
Definition unicodeEscape (c : N) : jsstring :=
  [92; 117; hexDigit (c / 4096); hexDigit ((c / 256) mod 16);
   hexDigit ((c / 16) mod 16); hexDigit (c mod 16)].

(** One code unit inside a string literal, a surrogate pair apart. *)
Definition quoteUnit (c : N) : jsstring :=
  if c =? 34 then [92; 34]
  else if c =? 92 then [92; 92]
  else if c =? 8 then [92; 98]
  else if c =? 9 then [92; 116]
  else if c =? 10 then [92; 110]
  else if c =? 12 then [92; 102]
  else if c =? 13 then [92; 114]
  else if c <? 32 then unicodeEscape c
  else if isHighSurrogate c || isLowSurrogate c then unicodeEscape c
  else [c].

(** A surrogate pair is written as it is, a surrogate alone as an
    escape. *)
Fixpoint quoteBody (s : jsstring) : jsstring :=
  match s with
  | [] => []
  | c :: s' =>
      if isHighSurrogate c then
        match s' with
        | d :: s'' =>
            if isLowSurrogate d then c :: d :: quoteBody s''
            else unicodeEscape c ++ quoteBody s'
        | [] => unicodeEscape c
        end
      else quoteUnit c ++ quoteBody s'
  end.

Definition quoteJSON (s : jsstring) : jsstring :=
  34 :: quoteBody s ++ [34].

Definition stringifyScalar (v : scalar) : jsstring :=
  match v with
  | SNull => js "null"
  | SBool true => js "true"
  | SBool false => js "false"
  | SNum z => numberToString z
  | SStr s => quoteJSON s
  end.

Definition hexVal (c : N) : option N :=
  if isDigit c then Some (c - 48)
  else if (97 <=? c) && (c <=? 102) then Some (c - 87)
  else if (65 <=? c) && (c <=? 70) then Some (c - 55)
  else None.

Definition hex4 (a b c d : N) : option N :=
  match hexVal a, hexVal b, hexVal c, hexVal d with
  | Some x, Some y, Some z, Some w => Some (x * 4096 + y * 256 + z * 16 + w)
  | _, _, _, _ => None
  end.

Definition simpleEscape (e : N) : option N :=
  if e =? 34 then Some 34
  else if e =? 92 then Some 92
  else if e =? 47 then Some 47
  else if e =? 98 then Some 8
  else if e =? 102 then Some 12
  else if e =? 110 then Some 10
  else if e =? 114 then Some 13
  else if e =? 116 then Some 9
  else None.

(** The characters of a string literal after its opening quote, up to
    and with the closing one. *)
Fixpoint parseStringBody (s : jsstring) : option (jsstring * jsstring) :=
  match s with
  | [] => None
  | c :: s1 =>
      if c =? 34 then Some ([], s1)
      else if c =? 92 then
        match s1 with
        | [] => None
        | e :: s2 =>
            if e =? 117 then
              match s2 with
              | a :: b :: c' :: d :: s3 =>
                  match hex4 a b c' d with
                  | Some u =>
                      match parseStringBody s3 with
                      | Some (t, r) => Some (u :: t, r)
                      | None => None
                      end
                  | None => None
                  end
              | _ => None
              end
            else
              match simpleEscape e with
              | Some u =>
                  match parseStringBody s2 with
                  | Some (t, r) => Some (u :: t, r)
                  | None => None
                  end
              | None => None
              end
        end
      else if c <? 32 then None
      else
        match parseStringBody s1 with
        | Some (t, r) => Some (c :: t, r)
        | None => None
        end
  end.

Definition isJsonSpace (c : N) : bool :=
  (c =? 32) || (c =? 9) || (c =? 10) || (c =? 13).

Fixpoint skipWs (s : jsstring) : jsstring :=
  match s with
  | c :: s' => if isJsonSpace c then skipWs s' else s
  | [] => []
  end.

Definition digitOfChar (c : N) (u : Decimal.uint) : Decimal.uint :=
  if c =? 48 then D0 u else if c =? 49 then D1 u
  else if c =? 50 then D2 u else if c =? 51 then D3 u
  else if c =? 52 then D4 u else if c =? 53 then D5 u
  else if c =? 54 then D6 u else if c =? 55 then D7 u
  else if c =? 56 then D8 u else D9 u.

(** The longest run of digits at the start of [s]. *)
Fixpoint lexDigits (s : jsstring) : Decimal.uint * jsstring :=
  match s with
  | c :: s' =>
      if isDigit c then
        let (u, r) := lexDigits s' in (digitOfChar c u, r)
      else (Nil, s)
  | [] => (Nil, [])
  end.

Definition leadingZero (u : Decimal.uint) : bool :=
  match u with
  | D0 Nil => false
  | D0 _ => true
  | _ => false
  end.

(** A number literal: an optional minus sign, the integer part (a single
    zero, or digits that do not start with a zero), an optional fraction
    (a point and digits) and an optional exponent (e or E, an optional sign
    and digits). *)
Definition parseNumber (s : jsstring) : option (json * jsstring) :=
  let (neg, s0) :=
    match s with
    | c :: s' => if c =? 45 then (true, s') else (false, s)
    | [] => (false, s)
    end in
  let (ip, s1) := lexDigits s0 in
  match ip with
  | Nil => None
  | _ =>
    if leadingZero ip then None else
    let frac :=
      match s1 with
      | c :: s' =>
          if c =? 46 then
            match lexDigits s' with
            | (Nil, _) => None
            | (f, r) => Some (Some f, r)
            end
          else Some (None, s1)
      | [] => Some (None, s1)
      end in
    match frac with
    | None => None
    | Some (fp, s2) =>
      let expo :=
        match s2 with
        | c :: s' =>
            if (c =? 101) || (c =? 69) then
              let (eneg, s'') :=
                match s' with
                | g :: t =>
                    if g =? 45 then (true, t)
                    else if g =? 43 then (false, t) else (false, s')
                | [] => (false, s')
                end in
              match lexDigits s'' with
              | (Nil, _) => None
              | (e, r) =>
                  Some (Some (if eneg then (- Z.of_uint e)%Z else Z.of_uint e),
                        r)
              end
            else Some (None, s2)
        | [] => Some (None, s2)
        end in
      match expo with
      | None => None
      | Some (ep, s3) =>
        let sign (z : Z) := if neg then (- z)%Z else z in
        match fp, ep with
        | None, None => Some (JNum (sign (Z.of_uint ip)), s3)
        | _, _ =>
          let f := match fp with Some f => f | None => Nil end in
          let m := Z.of_uint (Decimal.app ip f) in
          let e := ((match ep with Some e => e | None => 0 end)
                    - Z.of_nat (Decimal.nb_digits f))%Z in
          let lit := firstn (length s - length s3) s in
          if (0 <=? e)%Z then Some (JNum (sign (m * 10 ^ e)%Z), s3)
          else if (m mod 10 ^ (- e) =? 0)%Z
          then Some (JNum (sign (m / 10 ^ (- e))%Z), s3)
          else Some (JReal lit, s3)
        end
      end
    end
  end.

Definition parseLiteral (w : string) (v : json) (s : jsstring)
  : option (json * jsstring) :=
  if startsWith (js w) s then Some (v, skipn (length (js w)) s) else None.

(** The members in the order of their first occurrence, each with the
    value of its last one. *)
Definition normalizeMembers (l : list (jsstring * json))
  : list (jsstring * json) :=
  fold_left (fun acc kv => objSet (fst kv) (snd kv) acc) l [].

(** A value, with the white space before it.  The fuel bounds the nesting
    and the number of members; twice the length of the text is enough. *)
Fixpoint parseValue (fuel : nat) (s : jsstring) {struct fuel}
  : option (json * jsstring) :=
  match fuel with
  | O => None
  | S fuel' =>
      match skipWs s with
      | [] => None
      | c :: s1 =>
          if c =? 34 then
            match parseStringBody s1 with
            | Some (t, r) => Some (JStr t, r)
            | None => None
            end
          else if c =? 91 then
            match skipWs s1 with
            | d :: s2 =>
                if d =? 93 then Some (JArr [], s2)
                else
                  match parseElements fuel' s1 with
                  | Some (l, r) => Some (JArr l, r)
                  | None => None
                  end
            | [] => None
            end
          else if c =? 123 then
            match skipWs s1 with
            | d :: s2 =>
                if d =? 125 then Some (JObj [], s2)
                else
                  match parseMembers fuel' s1 with
                  | Some (l, r) => Some (JObj (normalizeMembers l), r)
                  | None => None
                  end
            | [] => None
            end
          else if c =? 116 then parseLiteral "true" (JBool true) (c :: s1)
          else if c =? 102 then parseLiteral "false" (JBool false) (c :: s1)
          else if c =? 110 then parseLiteral "null" JNull (c :: s1)
          else parseNumber (c :: s1)
      end
  end

(** The elements of an array after its opening bracket, up to and with
    the closing one. *)
with parseElements (fuel : nat) (s : jsstring) {struct fuel}
  : option (list json * jsstring) :=
  match fuel with
  | O => None
  | S fuel' =>
      match parseValue fuel' s with
      | Some (v, r) =>
          match skipWs r with
          | c :: r' =>
              if c =? 93 then Some ([v], r')
              else if c =? 44 then
                match parseElements fuel' r' with
                | Some (l, r'') => Some (v :: l, r'')
                | None => None
                end
              else None
          | [] => None
          end
      | None => None
      end
  end

(** The members of an object after its opening brace, up to and with the
    closing one.  A later member with the same name replaces the value of
    the earlier one. *)
with parseMembers (fuel : nat) (s : jsstring) {struct fuel}
  : option (list (jsstring * json) * jsstring) :=
  match fuel with
  | O => None
  | S fuel' =>
      match skipWs s with
      | q :: s1 =>
          if q =? 34 then
            match parseStringBody s1 with
            | Some (k, r) =>
                match skipWs r with
                | c :: r1 =>
                    if c =? 58 then
                      match parseValue fuel' r1 with
                      | Some (v, r2) =>
                          match skipWs r2 with
                          | e :: r3 =>
                              if e =? 125 then Some ([(k, v)], r3)
                              else if e =? 44 then
                                match parseMembers fuel' r3 with
                                | Some (l, r4) =>
                                    Some ((k, v) :: l, r4)
                                | None => None
                                end
                              else None
                          | [] => None
                          end
                      | None => None
                      end
                    else None
                | [] => None
                end
            | None => None
            end
          else None
      | [] => None
      end
  end.

(** [JSON.parse]: [None] when it throws. *)
Definition JSON_parse (s : jsstring) : option json :=
  match parseValue (2 * length s + 2) s with
  | Some (v, r) => match skipWs r with [] => Some v | _ :: _ => None end
  | None => None
  end.

(** ** Objects and the store

    The parameters of a query are an object that the caller owns and
    passes by reference.  The store maps a reference to the members of the
    object it names. *)

Abbreviation jsobject := (gmap jsstring json).
Abbreviation heap := (gmap positive (gmap jsstring json)).

(** The members of the object at [l]. *)
Definition deref (h : heap) (l : positive) : jsobject :=
  default ∅ (h !! l).

(** A new object with the members [o]. *)
Definition alloc (o : jsobject) (h : heap) : positive * heap :=
  let l := fresh (dom h) in (l, <[l := o]> h).

(** [object[name] = value]. *)
Definition setMember (l : positive) (name : jsstring) (value : json)
    (h : heap) : heap :=
  <[l := <[name := value]> (deref h l)]> h.

(** A row of a record set: a plain object with the columns as its own
    members. *)
Abbreviation row := (gmap jsstring scalar).

(** What every plain object inherits from [Object.prototype]. *)
Definition inheritedFunctions : list jsstring :=
  map js ["constructor"; "__defineGetter__"; "__defineSetter__";
          "hasOwnProperty"; "__lookupGetter__"; "__lookupSetter__";
          "isPrototypeOf"; "propertyIsEnumerable"; "toString"; "valueOf";
          "toLocaleString"]%string.

(** The value of [row[name]] when it is not [undefined]: a column of the
    row, or else a function of the prototype, or the prototype itself for
    [__proto__]. *)
Inductive member :=
| Own (v : scalar)
| InheritedFunction
| Prototype.

Definition rowGet (r : row) (name : jsstring) : option member :=
  match r !! name with
  | Some v => Some (Own v)
  | None =>
      if existsb (jsstring_eqb name) inheritedFunctions
      then Some InheritedFunction
      else if jsstring_eqb name (js "__proto__") then Some Prototype
      else None
  end.

(** ** [Lib/pagination.mjs] *)

(** The [options] of [paginateQuery]; [None] is a member that the caller
    left out. *)
Record options := Options {
  opt_cursorField : option jsstring;
  opt_pageSize : option Z;
  opt_cursor : option jsstring;
  opt_parameters : option positive;
  opt_defaultCursorField : option jsstring
}.

Record pageQuery := PageQuery {
  paginatedSql : jsstring;
  pq_parameters : positive;
  pq_cursorField : option jsstring
}.

(** A string that is neither [null] nor empty. *)
Definition truthyString (s : option jsstring) : bool :=
  match s with Some (_ :: _) => true | _ => false end.

(** [orderByClause.split(',')[0].trim()], then
    [.split(/\s+/)[0].replace(/\[|\]/g, '')]: the first field of an
    ORDER BY clause without its direction and brackets. *)
Definition firstOrderField (orderByClause : jsstring) : jsstring :=
  dropBrackets (beforeSpace (trim (beforeChar 44 orderByClause))).

(** [JSON.parse(Buffer.from(cursor, 'base64').toString('utf8'))]. *)
Definition decodeToken (cursor : jsstring) : option json :=
  JSON_parse (utf8Decode (base64Decode cursor)).

(** [decodedCursor.name]. *)
Definition getProp (name : string) (v : json) : option json :=
  match v with
  | JObj l => objGet (js name) l
  | _ => None
  end.

(** The body of the [try] block of [paginateQuery] up to the two
    assignments: the statement with the cursor predicate, the name of the
    new parameter and its value, or [None] when an exception is thrown on
    the way. *)
Definition cursorPredicate (paginatedSql : jsstring) (cursor : jsstring)
  : option (jsstring * jsstring * json) :=
  match decodeToken cursor with
  | None => None
  | Some JNull => None
  | Some decodedCursor =>
      match getProp "field" decodedCursor, getProp "value" decodedCursor with
      | Some field, Some value =>
          if negb (truthy field) then None
          else
            let comparator :=
              match getProp "operator" decodedCursor with
              | Some operator => if truthy operator then operator
                                 else JStr (js ">")
              | None => JStr (js ">")
              end in
            let whereClause :=
              if includes (js "where") (toLowerCase paginatedSql)
              then js "AND" else js "WHERE" in
            match field with
            | JStr fieldToUse =>
                let cursorParamName :=
                  js "cursor_" ++ sanitizeName fieldToUse in
                match jsToString comparator with
                | Some cmp =>
                    Some (paginatedSql ++ js " " ++ whereClause ++ js " ["
                          ++ fieldToUse ++ js "] " ++ cmp ++ js " @"
                          ++ cursorParamName,
                          cursorParamName, value)
                | None => None
                end
            | _ => None
            end
      | _, _ => None
      end
  end.

Definition paginateQuery (sql : jsstring) (o : options) (h : heap)
  : pageQuery * heap :=
  let cursorField := opt_cursorField o in
  let pageSize := default 100%Z (opt_pageSize o) in
  let cursor := opt_cursor o in
  let (parameters, h0) :=
    match opt_parameters o with
    | Some l => (l, h)
    | None => alloc ∅ h
    end in
  let defaultCursorField := default (js "id") (opt_defaultCursorField o) in
  (* Make a copy of the parameters to avoid mutation *)
  let (updatedParameters, h1) := alloc (deref h0 parameters) h0 in
  let paginatedSql0 := trim sql in
  let hasOrderBy := rtest reHasOrderBy paginatedSql0 in
  let '(paginatedSql1, actualCursorField) :=
    if hasOrderBy then
      match rcapture reOrderByClause paginatedSql0 with
      | Some orderByMatch =>
          let orderByClause := trim orderByMatch in
          if truthyString cursorField then (paginatedSql0, cursorField)
          else (paginatedSql0, Some (firstOrderField orderByClause))
      | None => (paginatedSql0, cursorField)
      end
    else if truthyString cursorField then
      (paginatedSql0 ++ js " ORDER BY " ++ default [] cursorField
         ++ js " ASC", cursorField)
    else
      (paginatedSql0 ++ js " ORDER BY " ++ defaultCursorField ++ js " ASC",
       Some defaultCursorField) in
  (* Process cursor if provided *)
  let '(paginatedSql2, h2) :=
    if truthyString cursor then
      match cursorPredicate paginatedSql1 (default [] cursor) with
      | Some (sql', cursorParamName, value) =>
          (sql', setMember updatedParameters cursorParamName value h1)
      | None => (paginatedSql1, h1)
      end
    else (paginatedSql1, h1) in
  (* Add OFFSET/FETCH if not already present *)
  let paginatedSql3 :=
    if negb (includes (js "offset") (toLowerCase paginatedSql2))
       && negb (includes (js "fetch") (toLowerCase paginatedSql2))
    then paginatedSql2 ++ js " OFFSET 0 ROWS FETCH NEXT "
           ++ numberToString pageSize ++ js " ROWS ONLY"
    else paginatedSql2 in
  (PageQuery paginatedSql3 updatedParameters actualCursorField, h2).

(** [JSON.stringify(value)] for the value of a member of a row: a function
    has no JSON text, and the prototype is an object without members that
    can be enumerated. *)
Definition stringifyMember (v : member) : option jsstring :=
  match v with
  | Own x => Some (stringifyScalar x)
  | InheritedFunction => None
  | Prototype => Some (js "{}")
  end.

(** [JSON.stringify({ field, value, operator })]: a member without a JSON
    text is left out. *)
Definition stringifyCursor (field : jsstring) (value : member)
    (operator : jsstring) : jsstring :=
  js "{" ++ quoteJSON (js "field") ++ js ":" ++ quoteJSON field
  ++ match stringifyMember value with
     | Some t => js "," ++ quoteJSON (js "value") ++ js ":" ++ t
     | None => []
     end
  ++ js "," ++ quoteJSON (js "operator") ++ js ":" ++ quoteJSON operator
  ++ js "}".

(** [Buffer.from(JSON.stringify(cursor)).toString('base64')], the last
    statement of both cursor generators. *)
Definition encodeCursor (field : jsstring) (value : member)
    (operator : jsstring) : jsstring :=
  base64Encode (utf8Encode (stringifyCursor field value operator)).

(** The row is [None] when the caller passes [undefined]; the result is
    [None] for [null]. *)
Definition generateNextCursor (lastRow : option row) (cursorField : jsstring)
  : option jsstring :=
  match lastRow, cursorField with
  | None, _ => None
  | _, [] => None
  | Some r, _ =>
      match rowGet r cursorField with
      | None => None
      | Some value => Some (encodeCursor cursorField value (js ">"))
      end
  end.

Definition generatePrevCursor (firstRow : option row) (cursorField : jsstring)
  : option jsstring :=
  match firstRow, cursorField with
  | None, _ => None
  | _, [] => None
  | Some r, _ =>
      match rowGet r cursorField with
      | None => None
      | Some value => Some (encodeCursor cursorField value (js "<="))
      end
  end.

(** [None] is [null]: for no cursor, for a token that does not parse, and
    for the token of [null] itself. *)
Definition decodeCursor (cursor : option jsstring) : option json :=
  match cursor with
  | None => None
  | Some [] => None
  | Some c =>
      match decodeToken c with
      | Some JNull => None
      | decoded => decoded
      end
  end.

(** [/SELECT\s+(.+?)\s+FROM/is] *)
Definition reSelectList : regex :=
  RSeq (RLitI "SELECT") (RSeq (RPlus RSpace)
    (RSeq (RCap (RPlusLazy RAny)) (RSeq (RPlus RSpace) (RLitI "FROM")))).

(** [/\s+AS\s+|\s+/] *)
Definition reAlias : regex :=
  RAlt (RSeq (RPlus RSpace) (RSeq (RLit "AS") (RPlus RSpace))) (RPlus RSpace).

(** [String.prototype.split] with a regular expression, from the position
    [pos] on: [piece] is the current piece so far, back to front.  A match
    that is empty and starts where the piece starts is passed over. *)
Fixpoint rsplitFrom (fuel : nat) (r : regex) (prev : option N) (pos : nat)
    (piece : jsstring) (rest : jsstring) : list jsstring :=
  match fuel with
  | O => [rev piece ++ rest]
  | S fuel' =>
      match rest with
      | [] => [rev piece]
      | c :: rest' =>
          let advance :=
            rsplitFrom fuel' r (Some c) (S pos) (c :: piece) rest' in
          match rmatch r (MState prev pos rest None) Some with
          | Some st =>
              let matched := firstn (ms_pos st - pos) rest in
              match matched, piece with
              | [], [] => advance
              | _, _ =>
                  rev piece ::
                    rsplitFrom fuel' r
                      (match matched with
                       | [] => prev
                       | _ :: _ => Some (List.last matched c)
                       end)
                      (ms_pos st) [] (ms_rest st)
              end
          | None => advance
          end
      end
  end.

Definition rsplit (r : regex) (s : jsstring) : list jsstring :=
  match s with
  | [] => match rexec r [] with Some _ => [] | None => [[]] end
  | _ :: _ => rsplitFrom (2 * length s + 2) r None 0%nat [] s
  end.

(** [s.split(c)] for a one-character separator. *)
Fixpoint splitChar (c : N) (s : jsstring) : list jsstring :=
  match s with
  | [] => [[]]
  | x :: s' =>
      if x =? c then [] :: splitChar c s'
      else match splitChar c s' with
           | p :: ps => (x :: p) :: ps
           | [] => [[x]]
           end
  end.

(** [f.split(/\s+AS\s+|\s+/).pop().replace(/\[|\]/g, '')] *)
Definition cleanField (f : jsstring) : jsstring :=
  dropBrackets (List.last (rsplit reAlias f) []).

Definition commonIdFields : list jsstring :=
  map js ["id"; "ID"; "Id"; "key"; "KEY"; "Key"; "primary_key";
          "PrimaryKey"]%string.

Definition extractDefaultCursorField (sql : jsstring) : jsstring :=
  match rcapture reOrderByClause sql with
  | Some orderByMatch => firstOrderField (trim orderByMatch)
  | None =>
      let fromSelect :=
        match rcapture reSelectList sql with
        | Some selectMatch =>
            let selectClause := trim selectMatch in
            if jsstring_eqb selectClause (js "*") then None
            else
              let fields := map trim (splitChar 44 selectClause) in
              let matching :=
                omap (fun idField =>
                        find (fun f => jsstring_eqb
                                         (toLowerCase (cleanField f))
                                         (toLowerCase idField)) fields)
                     commonIdFields in
              match filter (fun f => truthyString (Some f)) matching with
              | matchingField :: _ => Some (cleanField matchingField)
              | [] => None
              end
        | None => None
        end in
      default (js "id") fromSelect
  end.

(** ** The tool handlers of [lib/tools.js] *)

(** What [executeQuery] resolves to: [recordset] is [None] when the
    driver leaves it undefined. *)
Record queryResult := QueryResult {
  recordset : option (list row)
}.

(** The value that a rejected call throws. *)
Definition exn := jsstring.

(** One call of [executeQuery]: the statement, the members of the
    parameters object at the time of the call, and how it ended. *)
Record call := Call {
  call_sql : jsstring;
  call_parameters : jsobject;
  call_outcome : exn + queryResult
}.

Inductive operation :=
| OpSum | OpAvg | OpMin | OpMax | OpCount | OpCountDistinct.

Record aggregation := Aggregation {
  agg_field : jsstring;
  agg_operation : operation
}.

Definition operationName (op : operation) : jsstring :=
  match op with
  | OpSum => js "sum"
  | OpAvg => js "avg"
  | OpMin => js "min"
  | OpMax => js "max"
  | OpCount => js "count"
  | OpCountDistinct => js "countDistinct"
  end.

(** [`${operation}:${field}`] *)
Definition aggKey (op : operation) (field : jsstring) : jsstring :=
  operationName op ++ js ":" ++ field.

#[global] Instance scalar_eq_dec : EqDecision scalar.
Proof. solve_decision. Defined.

#[global] Instance member_eq_dec : EqDecision member.
Proof. solve_decision. Defined.

#[global] Instance operation_eq_dec : EqDecision operation.
Proof. solve_decision. Defined.

#[global] Instance aggregation_eq_dec : EqDecision aggregation.
Proof. solve_decision. Defined.

(** An accumulator: a number, which the exact rationals stand for, or the
    [Set] of the values seen, in the order they came in. *)
Inductive accumulator :=
| ANum (q : Q)
| ASet (values : list member).

(** [Number.MAX_VALUE] and [Number.MIN_VALUE], the largest double and the
    smallest one above zero. *)
Definition MAX_VALUE : Q := inject_Z (2 ^ 1024 - 2 ^ 971).
Definition MIN_VALUE : Q := 1 # (2 ^ 1074).

Definition Qltb (x y : Q) : bool := negb (Qle_bool y x).

(** [set.add(value)] *)
Definition setAdd (v : member) (values : list member) : list member :=
  if bool_decide (v ∈ values) then values else values ++ [v].

Abbreviation accumulators := (gmap jsstring accumulator).

(** The initial accumulator of one aggregation. *)
Definition initAggregation (acc : accumulators) (agg : aggregation)
  : accumulators :=
  let key := aggKey (agg_operation agg) (agg_field agg) in
  match agg_operation agg with
  | OpSum | OpAvg => <[key := ANum 0]> acc
  | OpMin => <[key := ANum MAX_VALUE]> acc
  | OpMax => <[key := ANum MIN_VALUE]> acc
  | OpCount => <[key := ANum 0]> acc
  | OpCountDistinct => <[key := ASet []]> acc
  end.

(** One aggregation fed with one row. *)
Definition feedAggregation (r : row) (acc : accumulators) (agg : aggregation)
  : accumulators :=
  let field := agg_field agg in
  let operation := agg_operation agg in
  match rowGet r field with
  | None => acc
  | Some (Own SNull) => acc
  | Some value =>
      let key := aggKey operation field in
      match operation, acc !! key, value with
      | (OpSum | OpAvg), Some (ANum a), Own (SNum z) =>
          <[key := ANum (a + inject_Z z)]> acc
      | OpMin, Some (ANum a), Own (SNum z) =>
          if Qltb (inject_Z z) a then <[key := ANum (inject_Z z)]> acc
          else acc
      | OpMax, Some (ANum a), Own (SNum z) =>
          if Qltb a (inject_Z z) then <[key := ANum (inject_Z z)]> acc
          else acc
      | OpCount, Some (ANum a), _ => <[key := ANum (a + 1)]> acc
      | OpCountDistinct, Some (ASet values), _ =>
          <[key := ASet (setAdd value values)]> acc
      | _, _, _ => acc
      end
  end.

(** [batchRows.forEach(row => aggregations.forEach(agg => ...))] *)
Definition feedRow (aggregations : list aggregation) (acc : accumulators)
    (r : row) : accumulators :=
  fold_left (feedAggregation r) aggregations acc.

Definition feedBatch (aggregations : list aggregation) (acc : accumulators)
    (batchRows : list row) : accumulators :=
  fold_left (feedRow aggregations) batchRows acc.

(** [aggregationResults[`count:${field}`] || totalProcessedRows]: the
    number that an average is divided by; [None] when it is no number. *)
Definition avgDivisor (acc : accumulators) (totalProcessedRows : Z)
    (field : jsstring) : option Q :=
  match acc !! aggKey OpCount field with
  | Some (ANum c) =>
      if Qeq_bool c 0 then Some (inject_Z totalProcessedRows) else Some c
  | Some (ASet _) => None
  | None => Some (inject_Z totalProcessedRows)
  end.

(** The finalization of one aggregation. *)
Definition finalizeAggregation (totalProcessedRows : Z) (acc : accumulators)
    (agg : aggregation) : accumulators :=
  let field := agg_field agg in
  let key := aggKey (agg_operation agg) field in
  match agg_operation agg with
  | OpAvg =>
      let count := avgDivisor acc totalProcessedRows field in
      match count, acc !! key with
      | Some count, Some (ANum a) =>
          if Qltb 0 count then <[key := ANum (a / count)]> acc else acc
      | _, _ => acc
      end
  | OpCountDistinct =>
      match acc !! key with
      | Some (ASet values) =>
          <[key := ANum (inject_Z (Z.of_nat (length values)))]> acc
      | _ => acc
      end
  | _ => acc
  end.

Definition validationMessage : jsstring :=
  js "Data modification operations (DROP, DELETE, UPDATE, TRUNCATE, ALTER) are not allowed for safety reasons.".

Definition prohibitedOperations : list jsstring :=
  map js ["drop "; "delete "; "truncate "; "update "; "alter "]%string.

(** [prohibitedOperations.some(op => lowerSql.includes(op))] *)
Definition isProhibited (sql : jsstring) : bool :=
  let lowerSql := toLowerCase sql in
  existsb (fun op => includes op lowerSql) prohibitedOperations.

(** What a handler returns: the error of the validation, the error of a
    rejected query, or its result.  The text of the answer, the UUID and
    the file that keeps the result are left out. *)
Inductive response (A : Type) :=
| ValidationError (text : jsstring)
| QueryError (err : exn)
| Success (result : A).
Arguments ValidationError {A}.
Arguments QueryError {A}.
Arguments Success {A}.

Record executeResult := ExecuteResult {
  er_rowCount : Z;
  er_results : list row
}.

(** The pagination metadata of a page, but for [direction] and
    [estimatedTotalPages]. *)
Record paginationMeta := PaginationMeta {
  pm_cursorField : jsstring;
  pm_pageSize : Z;
  pm_returnedRows : Z;
  pm_hasMore : bool;
  pm_nextCursor : option jsstring;
  pm_prevCursor : option jsstring;
  pm_totalCount : option member
}.

Record pageResult := PageResult {
  pr_rowCount : Z;
  pr_results : list row;
  pr_pagination : paginationMeta
}.

Record streamSummary := StreamSummary {
  ss_totalRows : Z;
  ss_batchCount : Z;
  ss_aggregations : accumulators;
  ss_results : list row
}.

Inductive outputKind := OutJson | OutCsv | OutSummary.

(** The variables of the streaming loop; the CSV text and its headers are
    left out. *)
Record streamState := StreamState {
  st_cursor : option jsstring;
  st_totalProcessedRows : Z;
  st_hasMore : bool;
  st_batchCount : Z;
  st_allResults : list row;
  st_aggregationResults : accumulators
}.

Record executeArgs := ExecuteArgs {
  ea_sql : jsstring;
  ea_parameters : option positive
}.

Record paginatedArgs := PaginatedArgs {
  pa_sql : jsstring;
  pa_cursorField : option jsstring;
  pa_pageSize : option Z;
  pa_cursor : option jsstring;
  pa_parameters : option positive;
  pa_includeCount : option bool
}.

Record streamerArgs := StreamerArgs {
  sa_sql : jsstring;
  sa_batchSize : option Z;
  sa_maxRows : option Z;
  sa_parameters : option positive;
  sa_cursorField : option jsstring;
  sa_outputType : option outputKind;
  sa_aggregations : option (list aggregation)
}.

(** [/\s+ORDER\s+BY\s+.+?(?:(?:OFFSET|FETCH|$))/i] *)
Definition reCountOrderBy : regex :=
  RSeq (RPlus RSpace) (RSeq (RLitI "ORDER") (RSeq (RPlus RSpace)
    (RSeq (RLitI "BY") (RSeq (RPlus RSpace) (RSeq (RPlusLazy RDot)
      (RAlt (RLitI "OFFSET") (RAlt (RLitI "FETCH") REnd))))))).

(** [/\s+OFFSET\s+.+?(?:FETCH|$)/i] *)
Definition reCountOffset : regex :=
  RSeq (RPlus RSpace) (RSeq (RLitI "OFFSET") (RSeq (RPlus RSpace)
    (RSeq (RPlusLazy RDot) (RAlt (RLitI "FETCH") REnd)))).

(** [/\s+FETCH\s+.+?$/i] *)
Definition reCountFetch : regex :=
  RSeq (RPlus RSpace) (RSeq (RLitI "FETCH") (RSeq (RPlus RSpace)
    (RSeq (RPlusLazy RDot) REnd))).

(** The statement that counts the rows of [sql]. *)
Definition countQuery (sql : jsstring) : jsstring :=
  let countSql :=
    rreplace reCountFetch (js " ")
      (rreplace reCountOffset (js " ")
         (rreplace reCountOrderBy (js " ") sql)) in
  js "SELECT COUNT(*) AS TotalCount FROM (" ++ countSql
  ++ js ") AS CountQuery".

(** The cursors and the metadata of a page, from the rows that came back. *)
Definition pageMeta (rows : list row) (pageSize : Z) (cursor : option jsstring)
    (effectiveCursorField : jsstring) (totalCount : option member)
  : paginationMeta :=
  let rowCount := Z.of_nat (length rows) in
  let '(nextCursor, prevCursor) :=
    if (0 <? rowCount)%Z then
      let hasMore := (pageSize <=? rowCount)%Z in
      (if hasMore
       then generateNextCursor (rows !! (length rows - 1)%nat)
              effectiveCursorField
       else None,
       if truthyString cursor
       then generatePrevCursor (rows !! 0%nat) effectiveCursorField
       else None)
    else (None, None) in
  PaginationMeta effectiveCursorField pageSize rowCount
    (truthyString nextCursor) nextCursor prevCursor totalCount.

Section Tools.

(** The execution port: the data source with a state of its own, which
    answers a statement and its parameters with a result or rejects
    them. *)
Variable db : Type.
Variable executeQuery : jsstring -> jsobject -> db -> (exn + queryResult) * db.

(** The world a handler runs in: the store of objects, the data source,
    and the calls of [executeQuery] so far, the last one first. *)
Record world := World {
  w_heap : heap;
  w_db : db;
  w_calls : list call
}.

(** [await executeQuery(sql, parameters)], with [parameters] a
    reference. *)
Definition execute (sql : jsstring) (parameters : positive) (w : world)
  : (exn + queryResult) * world :=
  let params := deref (w_heap w) parameters in
  let (outcome, d) := executeQuery sql params (w_db w) in
  (outcome, World (w_heap w) d (Call sql params outcome :: w_calls w)).

(** The default [{}] of a [parameters] argument that is left out. *)
Definition argParameters (p : option positive) (w : world)
  : positive * world :=
  match p with
  | Some l => (l, w)
  | None =>
      let (l, h) := alloc ∅ (w_heap w) in (l, World h (w_db w) (w_calls w))
  end.

Definition paginate (sql : jsstring) (o : options) (w : world)
  : pageQuery * world :=
  let (q, h) := paginateQuery sql o (w_heap w) in
  (q, World h (w_db w) (w_calls w)).

(** The handler of [execute_query]. *)
Definition executeQueryTool (args : executeArgs) (w : world)
  : response executeResult * world :=
  let sql := ea_sql args in
  let (parameters, w0) := argParameters (ea_parameters args) w in
  if isProhibited sql then (ValidationError validationMessage, w0)
  else
    match execute sql parameters w0 with
    | (inr result, w1) =>
        let rows := default [] (recordset result) in
        (Success (ExecuteResult (Z.of_nat (length rows)) rows), w1)
    | (inl err, w1) => (QueryError err, w1)
    end.

(** The handler of [paginated_query]. *)
Definition paginatedQueryTool (args : paginatedArgs) (w : world)
  : response pageResult * world :=
  let sql := pa_sql args in
  let cursorField := pa_cursorField args in
  let pageSize := default 50%Z (pa_pageSize args) in
  let cursor := pa_cursor args in
  let (parameters, w0) := argParameters (pa_parameters args) w in
  let includeCount := default true (pa_includeCount args) in
  if isProhibited sql then (ValidationError validationMessage, w0)
  else
    (* Get total count if requested *)
    let (totalCount, w1) :=
      if includeCount then
        match execute (countQuery sql) parameters w0 with
        | (inr countResult, w') =>
            match recordset countResult with
            | Some (first :: _) => (rowGet first (js "TotalCount"), w')
            | _ => (None, w')
            end
        | (inl countErr, w') => (None, w')
        end
      else (None, w0) in
    (* Determine cursor field if not provided *)
    let defaultCursorField := extractDefaultCursorField sql in
    let effectiveCursorField :=
      if truthyString cursorField then default [] cursorField
      else defaultCursorField in
    (* Apply pagination transformation *)
    let (q, w2) :=
      paginate sql
        (Options (Some effectiveCursorField) (Some pageSize) cursor
           (Some parameters) (Some defaultCursorField)) w1 in
    (* Execute the paginated query *)
    match execute (paginatedSql q) (pq_parameters q) w2 with
    | (inr result, w3) =>
        let rows := default [] (recordset result) in
        let paginationMeta :=
          pageMeta rows pageSize cursor effectiveCursorField totalCount in
        (Success (PageResult (Z.of_nat (length rows)) rows paginationMeta),
         w3)
    | (inl err, w3) => (QueryError err, w3)
    end.

Section Streamer.

Variable sql : jsstring.
Variable batchSize maxRows : Z.
Variable parameters : positive.
Variable outputType : outputKind.
Variable aggregations : option (list aggregation).
Variable effectiveCursorField defaultCursorField : jsstring.

(** The loop body after the batch has come back. *)
Definition afterBatch (st : streamState) (batchRows : list row)
  : streamState :=
  let batchRowCount := Z.of_nat (length batchRows) in
  let totalProcessedRows :=
    (st_totalProcessedRows st + batchRowCount)%Z in
  let hasMore :=
    (batchSize <=? batchRowCount)%Z
    && (totalProcessedRows <? maxRows)%Z in
  let cursor :=
    if (0 <? batchRowCount)%Z && hasMore
    then generateNextCursor (batchRows !! (length batchRows - 1)%nat)
           effectiveCursorField
    else st_cursor st in
  let allResults :=
    match outputType with
    | OutJson => st_allResults st ++ batchRows
    | _ => st_allResults st
    end in
  let aggregationResults :=
    match aggregations with
    | Some aggs => feedBatch aggs (st_aggregationResults st) batchRows
    | None => st_aggregationResults st
    end in
  StreamState cursor totalProcessedRows
    (if (batchRowCount <? batchSize)%Z then false else hasMore)
    (st_batchCount st + 1) allResults aggregationResults.

(** [hasMore && totalProcessedRows < maxRows] *)
Definition loopGuard (st : streamState) : bool :=
  st_hasMore st && (st_totalProcessedRows st <? maxRows)%Z.

(** One turn of the loop: the statement of the batch, its execution,
    and the update of the variables; [inl] when the execution throws. *)
Definition streamStep (st : streamState) (w : world)
  : (exn + streamState) * world :=
  let (q, w1) :=
    paginate sql
      (Options (Some effectiveCursorField) (Some batchSize)
         (st_cursor st) (Some parameters) (Some defaultCursorField)) w in
  match execute (paginatedSql q) (pq_parameters q) w1 with
  | (inr batchResult, w2) =>
      (inr (afterBatch st (default [] (recordset batchResult))), w2)
  | (inl err, w2) => (inl err, w2)
  end.

(** The [while] loop; [None] when the fuel runs out before the loop
    ends. *)
Fixpoint streamLoop (fuel : nat) (st : streamState) (w : world)
  : option ((exn + streamState) * world) :=
  if loopGuard st then
    match fuel with
    | O => None
    | S fuel' =>
        match streamStep st w with
        | (inr st', w') => streamLoop fuel' st' w'
        | (inl err, w') => Some (inl err, w')
        end
    end
  else Some (inr st, w).

(** The states of the loop that can be reached from [st] in [w]. *)
Inductive loopReach (st : streamState) (w : world)
  : streamState -> world -> Prop :=
| reach_start : loopReach st w st w
| reach_step st1 w1 st2 w2 :
    loopReach st w st1 w1 ->
    loopGuard st1 = true ->
    streamStep st1 w1 = (inr st2, w2) ->
    loopReach st w st2 w2.

End Streamer.

Definition initialState (aggregations : option (list aggregation))
  : streamState :=
  StreamState None 0 true 0 []
    (match aggregations with
     | Some aggs => fold_left initAggregation aggs ∅
     | None => ∅
     end).

(** The handler of [query_streamer]; [None] when the fuel runs out. *)
Definition queryStreamerTool (fuel : nat) (args : streamerArgs) (w : world)
  : option (response streamSummary * world) :=
  let sql := sa_sql args in
  let batchSize := default 1000%Z (sa_batchSize args) in
  let maxRows := default 100000%Z (sa_maxRows args) in
  let (parameters, w0) := argParameters (sa_parameters args) w in
  let cursorField := sa_cursorField args in
  let outputType := default OutSummary (sa_outputType args) in
  let aggregations := sa_aggregations args in
  if isProhibited sql then Some (ValidationError validationMessage, w0)
  else
    let defaultCursorField := extractDefaultCursorField sql in
    let effectiveCursorField :=
      if truthyString cursorField then default [] cursorField
      else defaultCursorField in
    match streamLoop sql batchSize maxRows parameters outputType
            aggregations effectiveCursorField defaultCursorField
            fuel (initialState aggregations) w0 with
    | None => None
    | Some (inl err, w1) => Some (QueryError err, w1)
    | Some (inr st, w1) =>
        let totalProcessedRows := st_totalProcessedRows st in
        (* Finalize aggregations *)
        let aggregationResults :=
          match aggregations with
          | Some aggs =>
              fold_left (finalizeAggregation totalProcessedRows) aggs
                (st_aggregationResults st)
          | None => st_aggregationResults st
          end in
        Some (Success (StreamSummary totalProcessedRows (st_batchCount st)
                         aggregationResults (st_allResults st)), w1)
    end.

End Tools.

Arguments w_heap {db}.
Arguments w_db {db}.
Arguments w_calls {db}.

(** The rows that a call returned. *)
Definition callRows (c : call) : list row :=
  match call_outcome c with
  | inr result => default [] (recordset result)
  | inl _ => []
  end.

(** The rows that the calls made between the world [w0] and the later
    world [w] returned, in the order they came in. *)
Definition processedRows {db} (w0 w : world db) : list row :=
  concat (map callRows
    (rev (firstn (length (w_calls w) - length (w_calls w0)) (w_calls w)))).

(** The states of the loop of [query_streamer] that a call with [args]
    in the world [w] can reach. *)
Definition streamerReach {db}
    (executeQuery : jsstring -> jsobject -> db -> (exn + queryResult) * db)
    (args : streamerArgs) (w : world db) (st : streamState) (w' : world db)
  : Prop :=
  let sql := sa_sql args in
  let batchSize := default 1000%Z (sa_batchSize args) in
  let maxRows := default 100000%Z (sa_maxRows args) in
  let outputType := default OutSummary (sa_outputType args) in
  let aggregations := sa_aggregations args in
  let defaultCursorField := extractDefaultCursorField sql in
  let effectiveCursorField :=
    if truthyString (sa_cursorField args)
    then default [] (sa_cursorField args) else defaultCursorField in
  loopReach db executeQuery sql batchSize maxRows
    (fst (argParameters db (sa_parameters args) w)) outputType aggregations
    effectiveCursorField defaultCursorField (initialState aggregations)
    (snd (argParameters db (sa_parameters args) w)) st w'.

(** The world in which the loop of [query_streamer] starts. *)
Definition streamerStart {db} (args : streamerArgs) (w : world db)
  : world db :=
  snd (argParameters db (sa_parameters args) w).

(** The sum of the numbers in the column [field] of the rows. *)
Definition fieldNumber (field : jsstring) (r : row) : Z :=
  match rowGet r field with
  | Some (Own (SNum z)) => z
  | _ => 0%Z
  end.

Definition sumField (field : jsstring) (rows : list row) : Z :=
  fold_right (fun r s => (fieldNumber field r + s)%Z) 0%Z rows.

(** The number of rows with a value in the column [field] that is neither
    [null] nor [undefined]. *)
Definition hasValue (field : jsstring) (r : row) : bool :=
  match rowGet r field with
  | None | Some (Own SNull) => false
  | Some _ => true
  end.

Definition countField (field : jsstring) (rows : list row) : Z :=
  Z.of_nat (length (filter (fun r => hasValue field r = true) rows)).

(** A string is well formed when every code unit is below 65536 and every
    surrogate is part of a pair. *)
Inductive wellFormed : jsstring -> Prop :=
| wf_nil : wellFormed []
| wf_unit c s :
    (c < 65536)%N -> isHighSurrogate c = false -> isLowSurrogate c = false ->
    wellFormed s -> wellFormed (c :: s)
| wf_pair c d s :
    isHighSurrogate c = true -> isLowSurrogate d = true ->
    wellFormed s -> wellFormed (c :: d :: s).

(** A byte is a number below 256. *)
Definition bytes (bs : list N) : Prop := Forall (fun b => (b < 256)%N) bs.

(** A scalar that JSON can carry: any of this model, with strings of code
    units. *)
Definition serializable (v : scalar) : Prop :=
  match v with
  | SStr s => Forall code_unit s
  | _ => True
  end.

(** The comparison operators of a cursor. *)
Definition cursorOperator (op : jsstring) : Prop :=
  In op (map js [">"; ">="; "<"; "<="]%string).

(** The object [{ field, value, operator }]. *)
Definition cursorRecord (field : jsstring) (value : json)
    (operator : jsstring) : json :=
  JObj [(js "field", JStr field); (js "value", value);
        (js "operator", JStr operator)].

(** What the reader of a string literal makes of the code unit [c] in
    front of the rest [k]. *)
Definition consParsed (c : N) (k : option (jsstring * jsstring))
  : option (jsstring * jsstring) :=
  match k with
  | Some (t, r) => Some (c :: t, r)
  | None => None
  end.

(** ** The vocabulary of the statements *)

Local Open Scope Z_scope.

(** How often an aggregation is listed. *)
Definition listed (field : jsstring) (op : operation)
    (aggs : list aggregation) : nat :=
  length (filter (fun a => a = Aggregation field op) aggs).

(** The row bound that [paginateQuery] appends for a page of [n] rows. *)
Definition rowBound (n : Z) : jsstring :=
  js " OFFSET 0 ROWS FETCH NEXT " ++ numberToString n ++ js " ROWS ONLY".

(** The test of [paginateQuery] for a limiting clause: the word [offset]
    or the word [fetch] anywhere in the text, in any letter case. *)
Definition mentionsLimit (s : jsstring) : bool :=
  includes (js "offset") (toLowerCase s)
  || includes (js "fetch") (toLowerCase s).

(** A token is usable when it decodes to a record with a truthy [field]
    and a [value]. *)
Definition decodesToRecord (c : jsstring) : Prop :=
  exists v field value,
    decodeToken c = Some v
    /\ getProp "field" v = Some field /\ truthy field = true
    /\ getProp "value" v = Some value.

(** The options without the cursor. *)
Definition withoutCursor (o : options) : options :=
  Options (opt_cursorField o) (opt_pageSize o) None (opt_parameters o)
    (opt_defaultCursorField o).

(** The members of the object that the caller passes as [parameters];
    none when the caller leaves it out. *)
Definition callerParameters (o : options) (h : heap) : jsobject :=
  match opt_parameters o with
  | Some p => deref h p
  | None => ∅
  end.

(** The average at the end: the sum so far, divided once. *)
Definition dividedBy (divisor : option Q) (a : Q) : Q :=
  match divisor with
  | Some d => if Qltb 0 d then (a / d)%Q else a
  | None => a
  end.

(** *** Data sources and calls that the examples run

    A port that answers every statement with no record set. *)
Definition silentPort (_ : jsstring) (_ : jsobject) (d : unit)
  : (exn + queryResult) * unit := (inr (QueryResult None), d).

Definition emptyWorld : world unit := World unit ∅ tt [].

(** [DROP], a tab, [TABLE users]. *)
Definition dropWithTab : jsstring := js "DROP" ++ [9%N] ++ js "TABLE users".

(** A data source in which every statement returns the one row with the
    column [name]. *)
Definition namesPort (_ : jsstring) (_ : jsobject) (d : unit)
  : (exn + queryResult) * unit :=
  (inr (QueryResult (Some [ {[ js "name" := SStr (js "Ada") ]} ])), d).

Definition namesPage : paginatedArgs :=
  PaginatedArgs (js "SELECT name FROM users") None (Some 1) None None
    (Some false).

(** A data source whose table never ends: every statement returns the next
    hundred rows, with the next hundred values of [id]. *)
Definition endlessRows (next : nat) : list row :=
  map (fun i => {[ js "id" := SNum (Z.of_nat i) ]}) (seq next 100).

Definition endlessPort (_ : jsstring) (_ : jsobject) (next : nat)
  : (exn + queryResult) * nat :=
  (inr (QueryResult (Some (endlessRows next))), (next + 100)%nat).

Definition endlessWorld : world nat := World nat ∅ 1%nat [].

(** A run over the endless table in batches of 100 rows with a cap of 150
    rows. *)
Definition cappedRun : streamerArgs :=
  StreamerArgs (js "SELECT id FROM events") (Some 100) (Some 150) None
    (Some (js "id")) None None.

(** A data source that plays a script: each statement returns the next
    batch of the script, and no rows once the script is over. *)
Definition scriptedPort (_ : jsstring) (_ : jsobject) (script : list (list row))
  : (exn + queryResult) * list (list row) :=
  match script with
  | batch :: rest => (inr (QueryResult (Some batch)), rest)
  | [] => (inr (QueryResult (Some [])), [])
  end.

Definition scriptedWorld (script : list (list row)) : world (list (list row)) :=
  World _ ∅ script [].

Definition amount (z : Z) : row :=
  {[ js "id" := SNum z; js "amount" := SNum z ]}.

(** The five amounts in batches of two rows. *)
Definition sumInBatchesOfTwo : streamerArgs :=
  StreamerArgs (js "SELECT id, amount FROM payments") (Some 2) None None
    (Some (js "id")) None (Some [Aggregation (js "amount") OpSum]).

Definition batchesOfTwo : list (list row) :=
  [[amount 10; amount 20]; [amount 30; amount 40]; [amount 5]].

(** Three rows, the second one with [null] for the amount. *)
Definition amountsWithNull : list (list row) :=
  [[amount 10; {[ js "id" := SNum 2; js "amount" := SNull ]}; amount 20]].

Definition averageRun : streamerArgs :=
  StreamerArgs (js "SELECT id, amount FROM payments") (Some 100) None None
    (Some (js "id")) None (Some [Aggregation (js "amount") OpAvg]).

Local Open Scope N_scope.

(** ** [lib/database.js] *)

(** [identifier.replace(/^\[|\]$/g, '')]: an opening bracket at the start
    and a closing bracket at the end are removed, each when it is there.
    The closing bracket is looked for in what the first removal leaves. *)
Definition stripOuterBrackets (s : jsstring) : jsstring :=
  let s1 := match s with
            | c :: s' => if c =? 91 then s' else s
            | [] => s
            end in
  match rev s1 with
  | c :: r => if c =? 93 then rev r else s1
  | [] => s1
  end.

(** [None] is an identifier that is [undefined] or [null]. *)
Definition sanitizeSqlIdentifier (identifier : option jsstring) : jsstring :=
  match identifier with
  | None | Some [] => []
  | Some s => filter (fun c => isWordChar c) (stripOuterBrackets s)
  end.

(** An error that the driver throws, as far as the source looks at it:
    its [code], and its [number] and [message]; [None] is [undefined]. *)
Record sqlError := SqlError {
  err_code : option jsstring;
  err_number : option Z;
  err_message : option jsstring
}.

(** An [Error] or a [TypeError] of the language with a message. *)
Definition plainError (message : string) : sqlError :=
  SqlError None None (Some (js message)).

Definition transientErrors : list jsstring :=
  map js ["ETIMEOUT"; "ECONNCLOSED"; "ECONNRESET"; "ESOCKET"]%string.

(** [list.includes(err.code)] *)
Definition codeIn (codes : list jsstring) (err : sqlError) : bool :=
  match err_code err with
  | Some code => existsb (jsstring_eqb code) codes
  | None => false
  end.

(** [formatSqlError]; [None] is an error that is [undefined] or [null]. *)
Definition formatSqlError (error : option sqlError) : jsstring :=
  match error with
  | None => js "Unknown error"
  | Some e =>
      let message :=
        match err_message e with
        | Some (c :: m) => c :: m
        | _ => js "Unknown SQL error"
        end in
      match err_number e with
      | Some number =>
          if (number =? 0)%Z then message
          else js "SQL Error " ++ numberToString number ++ js ": "
               ++ default (js "undefined") (err_message e)
      | None => message
      end
  end.

(** One step against the driver, and how it ended: a request with its
    statement and parameters, or a step of a transaction. *)
Inductive step :=
| Request (sqlQuery : jsstring) (parameters : jsobject)
    (outcome : sqlError + queryResult)
| Begin (outcome : sqlError + unit)
| TransactionRequest (sqlQuery : jsstring) (parameters : jsobject)
    (outcome : sqlError + queryResult)
| Commit (outcome : sqlError + unit)
| Rollback (outcome : sqlError + unit).

(** A query of a transaction: its statement, and its parameters when it
    has some. *)
Record transactionQuery := TransactionQuery {
  tq_sql : jsstring;
  tq_parameters : option jsobject
}.

Section Database.

(** The driver with the server behind it, and the connection pools it
    hands out.  A pool connects, says whether it is connected, and runs a
    request: the inputs of [Object.entries(parameters)] and the query.  A
    transaction on what [sqlPool] holds begins, runs requests, and commits
    or rolls back. *)
Variable driver : Type.
Variable pool : Type.
Variable connect : driver -> (sqlError + pool) * driver.
Variable connected : pool -> driver -> bool.
Variable reconnect : pool -> driver -> (sqlError + unit) * driver.
Variable request :
  pool -> jsstring -> jsobject -> driver -> (sqlError + queryResult) * driver.
Variable beginTransaction :
  option pool -> driver -> (sqlError + unit) * driver.
Variable transactionRequest :
  jsstring -> jsobject -> driver -> (sqlError + queryResult) * driver.
Variable commit : driver -> (sqlError + unit) * driver.
Variable rollback : driver -> (sqlError + unit) * driver.

(** The state of the module: the global [sqlPool], the driver, and the
    steps so far, the last one first. *)
Record server := Server {
  sqlPool : option pool;
  srv_driver : driver;
  srv_steps : list step
}.

Definition initializeDbPool (s : server) : (sqlError + unit) * server :=
  match connect (srv_driver s) with
  | (inr p, d) => (inr tt, Server (Some p) d (srv_steps s))
  | (inl err, d) => (inl err, Server (sqlPool s) d (srv_steps s))
  end.

Definition ensurePoolConnected (s : server) : (sqlError + unit) * server :=
  match sqlPool s with
  | None => initializeDbPool s
  | Some p =>
      if connected p (srv_driver s) then (inr tt, s)
      else
        match reconnect p (srv_driver s) with
        | (inr _, d) => (inr tt, Server (sqlPool s) d (srv_steps s))
        | (inl err, d) =>
            (* Create a new pool if reconnect fails *)
            initializeDbPool (Server None d (srv_steps s))
        end
  end.

(** [executeQuery] with [retryCount] retries left. *)
Fixpoint executeQueryRetrying (retryCount : nat) (sqlQuery : jsstring)
    (parameters : jsobject) (s : server)
  : (sqlError + queryResult) * server :=
  match ensurePoolConnected s with
  | (inl err, s1) => (inl err, s1)
  | (inr _, s1) =>
      match sqlPool s1 with
      | None =>
          (* [sqlPool.request()] of [null]; not reached, since
             [ensurePoolConnected] leaves a pool when it succeeds *)
          (inl (plainError
                  "Cannot read properties of null (reading 'request')"), s1)
      | Some p =>
          match request p sqlQuery parameters (srv_driver s1) with
          | (inr result, d) =>
              (inr result,
               Server (sqlPool s1) d
                 (Request sqlQuery parameters (inr result) :: srv_steps s1))
          | (inl err, d) =>
              let steps :=
                Request sqlQuery parameters (inl err) :: srv_steps s1 in
              match retryCount with
              | S retries =>
                  if codeIn transientErrors err then
                    (* Force pool reconnection for connection-related
                       errors *)
                    let sqlPool' :=
                      if codeIn (map js ["ECONNCLOSED"; "ECONNRESET"]%string)
                           err
                      then None else sqlPool s1 in
                    executeQueryRetrying retries sqlQuery parameters
                      (Server sqlPool' d steps)
                  else (inl err, Server (sqlPool s1) d steps)
              | O => (inl err, Server (sqlPool s1) d steps)
              end
          end
      end
  end.

(** [executeQuery(sqlQuery, parameters = {}, retryCount = 3)]; the count
    of retries is a whole number, and one below zero counts as zero. *)
Definition databaseExecuteQuery (sqlQuery : jsstring)
    (parameters : option jsobject) (retryCount : option Z) (s : server)
  : (sqlError + queryResult) * server :=
  executeQueryRetrying (Z.to_nat (default 3%Z retryCount)) sqlQuery
    (default ∅ parameters) s.

(** The loop over the queries of a transaction. *)
Fixpoint transactionRequests (queries : list transactionQuery)
    (results : list queryResult) (s : server)
  : (sqlError + list queryResult) * server :=
  match queries with
  | [] => (inr results, s)
  | q :: rest =>
      let parameters := default ∅ (tq_parameters q) in
      match transactionRequest (tq_sql q) parameters (srv_driver s) with
      | (inr result, d) =>
          transactionRequests rest (results ++ [result])
            (Server (sqlPool s) d
               (TransactionRequest (tq_sql q) parameters (inr result)
                  :: srv_steps s))
      | (inl err, d) =>
          (inl err,
           Server (sqlPool s) d
             (TransactionRequest (tq_sql q) parameters (inl err)
                :: srv_steps s))
      end
  end.

(** The body of the [try] block of [executeTransaction]. *)
Definition transactionBody (p : option pool) (queries : list transactionQuery)
    (s : server) : (sqlError + list queryResult) * server :=
  match beginTransaction p (srv_driver s) with
  | (inl err, d) =>
      (inl err, Server (sqlPool s) d (Begin (inl err) :: srv_steps s))
  | (inr _, d) =>
      match transactionRequests queries []
              (Server (sqlPool s) d (Begin (inr tt) :: srv_steps s)) with
      | (inl err, s1) => (inl err, s1)
      | (inr results, s1) =>
          match commit (srv_driver s1) with
          | (inr _, d') =>
              (inr results,
               Server (sqlPool s1) d' (Commit (inr tt) :: srv_steps s1))
          | (inl err, d') =>
              (inl err,
               Server (sqlPool s1) d' (Commit (inl err) :: srv_steps s1))
          end
      end
  end.

Definition executeTransaction (queries : list transactionQuery) (s : server)
  : (sqlError + list queryResult) * server :=
  match queries with
  | [] => (inl (plainError "No queries provided for transaction"), s)
  | _ :: _ =>
      match ensurePoolConnected s with
      | (inl err, s1) => (inl err, s1)
      | (inr _, s1) =>
          match transactionBody (sqlPool s1) queries s1 with
          | (inr results, s2) => (inr results, s2)
          | (inl err, s2) =>
              (* Try to roll back the transaction *)
              let (outcome, d) := rollback (srv_driver s2) in
              (inl err,
               Server (sqlPool s2) d (Rollback outcome :: srv_steps s2))
          end
      end
  end.

End Database.

Arguments sqlPool {driver pool}.
Arguments srv_driver {driver pool}.
Arguments srv_steps {driver pool}.

(** ** The other tool handlers of [lib/tools.js] *)

(** A value is truthy; [None] is [undefined]. *)
Definition truthyScalar (v : option scalar) : bool :=
  match v with
  | Some x => truthy (ofScalar x)
  | None => false
  end.

(** [value || fallback], for a fallback that is a string. *)
Definition orString (v : option scalar) (fallback : string) : scalar :=
  match v with
  | Some x => if truthy (ofScalar x) then x else SStr (js fallback)
  | None => SStr (js fallback)
  end.

(** What is caught at the end of a handler: the error that
    [executeQuery] rejected with, the [TypeError] of a member read of
    [undefined], or the [ReferenceError] of a name that is not in scope. *)
Inductive failure :=
| Rejected (err : exn)
| TypeError
| ReferenceError (name : jsstring).

(** What these handlers return: an error with a text of its own, the
    error of the [catch] branch, whose text is that of [formatSqlError]
    behind the words of the handler, or a result.  The markdown text of a
    result is left out. *)
Inductive answer (A : Type) :=
| ErrorText (text : jsstring)
| Caught (f : failure)
| Result (result : A).
Arguments ErrorText {A}.
Arguments Caught {A}.
Arguments Result {A}.

Record tableDetails := TableDetails {
  td_columns : list row;
  td_rowCount : Z;
  td_tableName : jsstring
}.

Record procedureDetails := ProcedureDetails {
  pd_procedureName : jsstring;
  pd_parameters : list row;
  pd_definition : scalar
}.

Record functionDetails := FunctionDetails {
  fd_functionName : jsstring;
  fd_returnType : scalar;
  fd_parameters : list row;
  fd_definition : scalar
}.

Record viewDetails := ViewDetails {
  vd_viewName : jsstring;
  vd_columns : list row;
  vd_definition : scalar
}.

Record indexDetails := IndexDetails {
  id_tableName : jsstring;
  id_indexName : jsstring;
  id_type : option scalar;
  id_isUnique : option scalar;
  id_isPrimaryKey : option scalar;
  id_isUniqueConstraint : option scalar;
  id_keyColumns : list (option scalar);
  id_includedColumns : list (option scalar)
}.

Inductive discoveryType := Tables | Views | Procedures | Functions | All.

#[global] Instance discoveryType_eq_dec : EqDecision discoveryType.
Proof. solve_decision. Defined.

(** The statement of [table_details]. *)
Definition tableColumnsQuery : jsstring :=
  js "
                    SELECT 
                        COLUMN_NAME,
                        DATA_TYPE,
                        CHARACTER_MAXIMUM_LENGTH,
                        IS_NULLABLE,
                        COLUMN_DEFAULT
                    FROM 
                        INFORMATION_SCHEMA.COLUMNS
                    WHERE 
                    TABLE_SCHEMA = @schemaName AND
                        TABLE_NAME = @tableName
                    ORDER BY 
                        ORDINAL_POSITION
            ".

(** The two statements of [procedure_details]. *)
Definition procedureQuery : jsstring :=
  js "
                    SELECT 
                        ROUTINE_DEFINITION
                    FROM 
                        INFORMATION_SCHEMA.ROUTINES
                    WHERE 
                        ROUTINE_TYPE = 'PROCEDURE' AND
                        ROUTINE_NAME = @procedureName
                ".

Definition procedureParametersQuery : jsstring :=
  js "
                    SELECT 
                        PARAMETER_NAME,
                        DATA_TYPE,
                        PARAMETER_MODE
                    FROM 
                        INFORMATION_SCHEMA.PARAMETERS
                    WHERE 
                        SPECIFIC_NAME = @procedureName
                    ORDER BY 
                        ORDINAL_POSITION
                ".

(** The two statements of [function_details]. *)
Definition functionQuery : jsstring :=
  js "
                    SELECT 
                        ROUTINE_DEFINITION,
                        DATA_TYPE AS RETURN_TYPE
                    FROM 
                        INFORMATION_SCHEMA.ROUTINES
                    WHERE 
                        ROUTINE_TYPE = 'FUNCTION' AND
                        ROUTINE_NAME = @functionName
                ".

Definition functionParametersQuery : jsstring :=
  js "
                    SELECT 
                        PARAMETER_NAME,
                        DATA_TYPE,
                        PARAMETER_MODE
                    FROM 
                        INFORMATION_SCHEMA.PARAMETERS
                    WHERE 
                        SPECIFIC_NAME = @functionName
                    ORDER BY 
                        ORDINAL_POSITION
                ".

(** The two statements of [view_details]. *)
Definition viewQuery : jsstring :=
  js "
                    SELECT 
                        VIEW_DEFINITION
                    FROM 
                        INFORMATION_SCHEMA.VIEWS
                    WHERE 
                        TABLE_NAME = @viewName
                ".

Definition viewColumnsQuery : jsstring :=
  js "
                    SELECT 
                        COLUMN_NAME,
                        DATA_TYPE,
                        IS_NULLABLE
                    FROM 
                        INFORMATION_SCHEMA.COLUMNS
                    WHERE 
                        TABLE_NAME = @viewName
                    ORDER BY 
                        ORDINAL_POSITION
                ".

(** The statement of [index_details]. *)
Definition indexQuery : jsstring :=
  js "
                    SELECT 
                        i.name AS IndexName,
                        i.type_desc AS IndexType,
                        i.is_unique AS IsUnique,
                        i.is_primary_key AS IsPrimaryKey,
                        i.is_unique_constraint AS IsUniqueConstraint,
                        c.name AS ColumnName,
                        ic.is_descending_key AS IsDescending,
                        ic.is_included_column AS IsIncluded
                    FROM 
                        sys.indexes i
                    INNER JOIN 
                        sys.index_columns ic ON i.object_id = ic.object_id AND i.index_id = ic.index_id
                    INNER JOIN 
                        sys.columns c ON ic.object_id = c.object_id AND ic.column_id = c.column_id
                    INNER JOIN 
                        sys.tables t ON i.object_id = t.object_id
                    WHERE 
                        t.name = @tableName AND
                        i.name = @indexName
                    ORDER BY 
                        ic.key_ordinal
                ".

(** The statements of [discover_database] for the tables, the views, the
    procedures and the functions, each for a limit. *)
Definition tablesQuery (limit : Z) : jsstring :=
  js "
                        SELECT TOP "
  ++ numberToString limit
  ++ js "
                            TABLE_SCHEMA,
                            TABLE_NAME
                        FROM 
                            INFORMATION_SCHEMA.TABLES
                        WHERE 
                            TABLE_TYPE = 'BASE TABLE'
                        ORDER BY 
                            TABLE_SCHEMA, TABLE_NAME
                    ".

Definition viewsQuery (limit : Z) : jsstring :=
  js "
                        SELECT TOP "
  ++ numberToString limit
  ++ js "
                            TABLE_SCHEMA,
                            TABLE_NAME
                        FROM 
                            INFORMATION_SCHEMA.VIEWS
                        ORDER BY 
                            TABLE_SCHEMA, TABLE_NAME
                    ".

Definition procsQuery (limit : Z) : jsstring :=
  js "
                        SELECT TOP "
  ++ numberToString limit
  ++ js "
                            ROUTINE_SCHEMA,
                            ROUTINE_NAME
                        FROM 
                            INFORMATION_SCHEMA.ROUTINES
                        WHERE 
                            ROUTINE_TYPE = 'PROCEDURE'
                        ORDER BY 
                            ROUTINE_SCHEMA, ROUTINE_NAME
                    ".

Definition funcsQuery (limit : Z) : jsstring :=
  js "
                        SELECT TOP "
  ++ numberToString limit
  ++ js "
                            ROUTINE_SCHEMA,
                            ROUTINE_NAME
                        FROM 
                            INFORMATION_SCHEMA.ROUTINES
                        WHERE 
                            ROUTINE_TYPE = 'FUNCTION'
                        ORDER BY 
                            ROUTINE_SCHEMA, ROUTINE_NAME
                    ".

(** A handler up to its [catch]: it runs in the world and either goes on
    with a value, or throws, or returns an answer early. *)
Inductive outcome (A R : Type) :=
| Value (a : A)
| Throw (f : failure)
| Return (r : answer R).
Arguments Value {A R}.
Arguments Throw {A R}.
Arguments Return {A R}.

Section Details.

Variable db : Type.
Variable executeQuery : jsstring -> jsobject -> db -> (exn + queryResult) * db.

Definition handler (A R : Type) := world db -> outcome A R * world db.

Definition bind {A B R : Type} (m : handler A R) (k : A -> handler B R)
  : handler B R :=
  fun w =>
    match m w with
    | (Value a, w') => k a w'
    | (Throw f, w') => (Throw f, w')
    | (Return r, w') => (Return r, w')
    end.

Notation "'let!' x ':=' m 'in' k" := (bind m (fun x => k))
  (at level 10, x name, m at level 100, k at level 200).

Definition returnAnswer {A R : Type} (r : answer R) : handler A R :=
  fun w => (Return r, w).

(** [try { ... } catch (err) { return ... }] *)
Definition run {R : Type} (m : handler (answer R) R) (w : world db)
  : answer R * world db :=
  match m w with
  | (Value r, w') => (r, w')
  | (Throw f, w') => (Caught f, w')
  | (Return r, w') => (r, w')
  end.

(** [await executeQuery(sql, { ... })] with the members of a new
    parameters object. *)
Definition query {R : Type} (sql : jsstring) (parameters : jsobject)
  : handler queryResult R :=
  fun w =>
    let (l, h) := alloc parameters (w_heap w) in
    match execute db executeQuery sql l (World db h (w_db w) (w_calls w)) with
    | (inr result, w') => (Value result, w')
    | (inl err, w') => (Throw (Rejected err), w')
    end.

(** [await executeQuery(sql)]: the parameters are left out. *)
Definition queryWithoutParameters {R : Type} (sql : jsstring)
  : handler queryResult R :=
  fun w =>
    let (outcome, d) := executeQuery sql ∅ (w_db w) in
    (match outcome with
     | inr result => Value result
     | inl err => Throw (Rejected err)
     end,
     World db (w_heap w) d (Call sql ∅ outcome :: w_calls w)).

(** [result.recordset], read for its [length] or its rows. *)
Definition rowsOf {R : Type} (result : queryResult) : handler (list row) R :=
  fun w =>
    match recordset result with
    | Some rows => (Value rows, w)
    | None => (Throw TypeError, w)
    end.

(** The handler of [table_details]. *)
Definition tableDetailsTool (tableName : jsstring) (w : world db)
  : answer tableDetails * world db :=
  run (
    (* Handle schema-qualified table names (schema.table) *)
    let! names :=
      (if includes (js ".") tableName then
         match splitChar 46 tableName with
         | part0 :: part1 :: _ =>
             fun w => (Value (dropBrackets part0, dropBrackets part1), w)
         | _ => fun w => (Throw TypeError, w)
         end
       else fun w => (Value (js "dbo", tableName), w)) in
    let schemaName := fst names in
    let tableNameOnly := snd names in
    (* Sanitize table name components *)
    let sanitizedSchema := sanitizeSqlIdentifier (Some schemaName) in
    let sanitizedTable := sanitizeSqlIdentifier (Some tableNameOnly) in
    if negb (jsstring_eqb sanitizedSchema schemaName)
       || negb (jsstring_eqb sanitizedTable tableNameOnly)
    then
      returnAnswer (ErrorText
        (js "Invalid table name components: " ++ tableName
         ++ js ". Table and schema names should only contain alphanumeric characters and underscores."))
    else
      let! result := query tableColumnsQuery
                  {[ js "schemaName" := JStr sanitizedSchema;
                     js "tableName" := JStr sanitizedTable ]} in
      let! rows := rowsOf result in
      match rows with
      | [] =>
          returnAnswer (ErrorText
            (js "Table '" ++ sanitizedSchema ++ js "." ++ sanitizedTable
             ++ js "' not found."))
      | _ :: _ =>
          fun w =>
            (Value (Result (TableDetails rows (Z.of_nat (length rows))
                              (sanitizedSchema ++ js "." ++ sanitizedTable))),
             w)
      end) w.

(** The handler of [procedure_details]. *)
Definition procedureDetailsTool (procedureName : jsstring) (w : world db)
  : answer procedureDetails * world db :=
  run (
    let sanitizedProcName := sanitizeSqlIdentifier (Some procedureName) in
    if negb (jsstring_eqb sanitizedProcName procedureName) then
      returnAnswer (ErrorText
        (js "Invalid procedure name: " ++ procedureName
         ++ js ". Procedure names should only contain alphanumeric characters and underscores."))
    else
      let! result := query procedureQuery
                  {[ js "procedureName" := JStr sanitizedProcName ]} in
      let! rows := rowsOf result in
      match rows with
      | [] =>
          returnAnswer (ErrorText
            (js "Stored procedure '" ++ sanitizedProcName
             ++ js "' not found."))
      | first :: _ =>
          (* Get parameters *)
          let! paramResult := query procedureParametersQuery
                           {[ js "procedureName" := JStr sanitizedProcName ]} in
          let! parameters := rowsOf paramResult in
          fun w =>
            (Value (Result (ProcedureDetails sanitizedProcName parameters
                              (orString (first !! js "ROUTINE_DEFINITION")
                                 "Definition not available"))),
             w)
      end) w.

(** The handler of [function_details]. *)
Definition functionDetailsTool (functionName : jsstring) (w : world db)
  : answer functionDetails * world db :=
  run (
    let sanitizedFuncName := sanitizeSqlIdentifier (Some functionName) in
    if negb (jsstring_eqb sanitizedFuncName functionName) then
      returnAnswer (ErrorText
        (js "Invalid function name: " ++ functionName
         ++ js ". Function names should only contain alphanumeric characters and underscores."))
    else
      let! result := query functionQuery
                  {[ js "functionName" := JStr sanitizedFuncName ]} in
      let! rows := rowsOf result in
      match rows with
      | [] =>
          returnAnswer (ErrorText
            (js "Function '" ++ sanitizedFuncName ++ js "' not found."))
      | first :: _ =>
          (* Get parameters *)
          let! paramResult := query functionParametersQuery
                           {[ js "functionName" := JStr sanitizedFuncName ]} in
          let! parameters := rowsOf paramResult in
          fun w =>
            (Value (Result (FunctionDetails sanitizedFuncName
                              (orString (first !! js "RETURN_TYPE") "Unknown")
                              parameters
                              (orString (first !! js "ROUTINE_DEFINITION")
                                 "Definition not available"))),
             w)
      end) w.

(** The handler of [view_details]. *)
Definition viewDetailsTool (viewName : jsstring) (w : world db)
  : answer viewDetails * world db :=
  run (
    let sanitizedViewName := sanitizeSqlIdentifier (Some viewName) in
    if negb (jsstring_eqb sanitizedViewName viewName) then
      returnAnswer (ErrorText
        (js "Invalid view name: " ++ viewName
         ++ js ". View names should only contain alphanumeric characters and underscores."))
    else
      let! result := query viewQuery
                  {[ js "viewName" := JStr sanitizedViewName ]} in
      let! rows := rowsOf result in
      match rows with
      | [] =>
          returnAnswer (ErrorText
            (js "View '" ++ sanitizedViewName ++ js "' not found."))
      | first :: _ =>
          (* Get columns *)
          let! columnResult := query viewColumnsQuery
                            {[ js "viewName" := JStr sanitizedViewName ]} in
          let! columns := rowsOf columnResult in
          fun w =>
            (Value (Result (ViewDetails sanitizedViewName columns
                              (orString (first !! js "VIEW_DEFINITION")
                                 "Definition not available"))),
             w)
      end) w.

(** The handler of [index_details]. *)
Definition indexDetailsTool (tableName indexName : jsstring) (w : world db)
  : answer indexDetails * world db :=
  run (
    let sanitizedTableName := sanitizeSqlIdentifier (Some tableName) in
    let sanitizedIndexName := sanitizeSqlIdentifier (Some indexName) in
    if negb (jsstring_eqb sanitizedTableName tableName)
       || negb (jsstring_eqb sanitizedIndexName indexName)
    then
      returnAnswer (ErrorText
        (js "Invalid table or index name. Names should only contain alphanumeric characters and underscores."))
    else
      let! result := query indexQuery
                  {[ js "tableName" := JStr sanitizedTableName;
                     js "indexName" := JStr sanitizedIndexName ]} in
      let! rows := rowsOf result in
      match rows with
      | [] =>
          returnAnswer (ErrorText
            (js "Index '" ++ sanitizedIndexName ++ js "' on table '"
             ++ sanitizedTableName ++ js "' not found."))
      | first :: _ =>
          (* Split into key columns and included columns *)
          let keyColumns :=
            filter (fun r => negb (truthyScalar (r !! js "IsIncluded")))
              rows in
          let includedColumns :=
            filter (fun r => truthyScalar (r !! js "IsIncluded")) rows in
          fun w =>
            (Value (Result (IndexDetails sanitizedTableName sanitizedIndexName
                              (first !! js "IndexType")
                              (first !! js "IsUnique")
                              (first !! js "IsPrimaryKey")
                              (first !! js "IsUniqueConstraint")
                              (map (fun col => col !! js "ColumnName")
                                 keyColumns)
                              (map (fun col => col !! js "ColumnName")
                                 includedColumns))),
             w)
      end) w.

(** One part of [discover_database]: the statement of a kind of object,
    run when the type asks for this kind or for all, and the number of
    rows read off its record set. *)
Definition discoverPart {R : Type} (wanted : bool) (sql : jsstring)
  : handler unit R :=
  if wanted then
    let! result := queryWithoutParameters sql in
    let! rows := rowsOf result in
    fun w => (Value tt, w)
  else fun w => (Value tt, w).

(** The handler of [discover_database].  The four results are constants
    of the blocks that run the statements, and the object that the handler
    returns at its end names them outside these blocks, the one of the
    tables first. *)
Definition discoverDatabaseTool (type : option discoveryType)
    (limit : option Z) (w : world db) : answer unit * world db :=
  let type := default All type in
  let limit := default 100%Z limit in
  let wants (kind : discoveryType) : bool :=
    bool_decide (type = kind) || bool_decide (type = All) in
  run (
    let! _ := discoverPart (wants Tables) (tablesQuery limit) in
    let! _ := discoverPart (wants Views) (viewsQuery limit) in
    let! _ := discoverPart (wants Procedures) (procsQuery limit) in
    let! _ := discoverPart (wants Functions) (funcsQuery limit) in
    fun w => (Throw (ReferenceError (js "tablesResult")), w)) w.

End Details.

Local Open Scope Z_scope.

(** The values in the column [field] of the rows that are neither [null]
    nor [undefined], in the order of the rows. *)
Definition valuesOf (field : jsstring) (rows : list row) : list member :=
  omap (fun r => match rowGet r field with
                 | None | Some (Own SNull) => None
                 | Some value => Some value
                 end) rows.

(** The numbers among them. *)
Definition numbersOf (field : jsstring) (rows : list row) : list Z :=
  omap (fun r => match rowGet r field with
                 | Some (Own (SNum z)) => Some z
                 | _ => None
                 end) rows.

(** The calls of [executeQuery] made between the world [w0] and the later
    world [w], the first one first. *)
Definition callsBetween {db} (w0 w : world db) : list call :=
  rev (firstn (length (w_calls w) - length (w_calls w0)) (w_calls w)).

(** The cursor field that [paginated_query] and [query_streamer] work
    with: the one of the arguments, or else the default one of the
    statement. *)
Definition effectiveField (cursorField : option jsstring) (sql : jsstring)
  : jsstring :=
  if truthyString cursorField then default [] cursorField
  else extractDefaultCursorField sql.

(** The statement of a batch of [query_streamer] for a cursor. *)
Definition batchStatement (args : streamerArgs) (cursor : option jsstring)
  : jsstring :=
  paginatedSql (fst (paginateQuery (sa_sql args)
    (Options (Some (effectiveField (sa_cursorField args) (sa_sql args)))
       (Some (default 1000 (sa_batchSize args))) cursor None
       (Some (extractDefaultCursorField (sa_sql args)))) ∅)).

(** An identifier that [sanitizeSqlIdentifier] leaves as it is: letters
    of [a-z] and [A-Z], digits and underscores only. *)
Definition identifier (s : jsstring) : Prop :=
  Forall (fun c => isWordChar c = true) s.

(** A call with one of the statements [sqls] and the members
    [parameters]. *)
Definition carries (sqls : list jsstring) (parameters : jsobject) (c : call)
  : Prop :=
  call_sql c ∈ sqls /\ call_parameters c = parameters.

(** The statements of [discover_database] for a type, in the order in
    which the handler runs them. *)
Definition wantedStatements (type : discoveryType) (limit : Z)
  : list jsstring :=
  match type with
  | Tables => [tablesQuery limit]
  | Views => [viewsQuery limit]
  | Procedures => [procsQuery limit]
  | Functions => [funcsQuery limit]
  | All => [tablesQuery limit; viewsQuery limit; procsQuery limit;
            funcsQuery limit]
  end.

(** A call that came back with a record set. *)
Definition answeredWithRows (c : call) : Prop :=
  exists rows, call_outcome c = inr (QueryResult (Some rows)).

(** The steps against the driver between the state [s0] of the module
    and the later state [s], the first one first. *)
Definition stepsBetween {driver pool} (s0 s : server driver pool)
  : list step :=
  rev (firstn (length (srv_steps s) - length (srv_steps s0)) (srv_steps s)).

(** The requests of a transaction that succeeded, for their queries and
    their results. *)
Definition requestSteps (queries : list transactionQuery)
    (results : list queryResult) : list step :=
  zip_with (fun q r =>
              TransactionRequest (tq_sql q) (default ∅ (tq_parameters q))
                (inr r))
    queries results.

(** *** More runs for the examples

    The count, the least, the greatest and the distinct count of the
    amounts, in batches of two rows. *)
Definition statisticsRun : streamerArgs :=
  StreamerArgs (js "SELECT id, amount FROM payments") (Some 2) None None
    (Some (js "id")) None
    (Some [Aggregation (js "amount") OpCount;
           Aggregation (js "amount") OpMin;
           Aggregation (js "amount") OpMax;
           Aggregation (js "amount") OpCountDistinct]).

(** Two batches with amounts that are not above zero, and one of them
    twice. *)
Definition losses : list (list row) :=
  [[amount (-5); amount (-3)]; [amount (-5)]].

(** The amounts collected as JSON. *)
Definition collectingRun : streamerArgs :=
  StreamerArgs (js "SELECT id, amount FROM payments") (Some 2) None None
    (Some (js "id")) (Some OutJson) None.

(** A data source that rejects every statement. *)
Definition failingPort (_ : jsstring) (_ : jsobject) (d : unit)
  : (exn + queryResult) * unit := (inl (js "ETIMEOUT"), d).

(** A run over the names, one row a batch, up to three rows; the rows
    have no [id]. *)
Definition namesRun : streamerArgs :=
  StreamerArgs (js "SELECT name FROM users") (Some 1) (Some 3) None None
    None None.

(** A page of the names after a cursor that does not decode. *)
Definition namesAfter : paginatedArgs :=
  PaginatedArgs (js "SELECT name FROM users") (Some (js "name")) (Some 1)
    (Some (js "not a cursor")) None None.

(** *** Runs of the other tools and of the database module *)

(** A data source with one column of the table [sales.orders]. *)
Definition ordersColumns : list (list row) :=
  [[{[ js "COLUMN_NAME" := SStr (js "id");
       js "DATA_TYPE" := SStr (js "int");
       js "IS_NULLABLE" := SStr (js "NO") ]}]].

(** A driver that plays a script: every request ends as the script says
    next, and with no rows once the script is over; the pool is always
    connected, and the steps of a transaction succeed. *)
Definition scriptedDriver := list (sqlError + queryResult).

Definition scriptedRequest (_ : jsstring) (_ : jsobject) (d : scriptedDriver)
  : (sqlError + queryResult) * scriptedDriver :=
  match d with
  | outcome :: rest => (outcome, rest)
  | [] => (inr (QueryResult (Some [])), [])
  end.

Definition scriptedServer (script : scriptedDriver)
  : server scriptedDriver unit :=
  Server scriptedDriver unit None script [].

Definition scriptedExecuteQuery (sqlQuery : jsstring)
    (retryCount : option Z) (script : scriptedDriver) :=
  databaseExecuteQuery scriptedDriver unit
    (fun d => (inr tt, d)) (fun _ _ => true) (fun _ d => (inr tt, d))
    (fun _ => scriptedRequest) sqlQuery None retryCount
    (scriptedServer script).

Definition scriptedTransaction (queries : list transactionQuery)
    (script : scriptedDriver) :=
  executeTransaction scriptedDriver unit
    (fun d => (inr tt, d)) (fun _ _ => true) (fun _ d => (inr tt, d))
    (fun _ d => (inr tt, d)) scriptedRequest
    (fun d => (inr tt, d)) (fun d => (inr tt, d))
    queries (scriptedServer script).

Definition timeout : sqlError :=
  SqlError (Some (js "ETIMEOUT")) None (Some (js "Request timed out")).

Definition duplicateKey : sqlError :=
  SqlError (Some (js "EREQUEST")) (Some 2627%Z)
    (Some (js "Violation of PRIMARY KEY constraint")).


(** * Properties *)

(** ** The validation of the statement *)

Section Validation.

Variable db : Type.
Variable executeQuery : jsstring -> jsobject -> db -> (exn + queryResult) * db.

(** A statement that the validation rejects never reaches the execution
    port: each of the three handlers answers with the validation error,
    and the data source and the list of calls are as they were. *)
Lemma prohibited_never_executed (sql : jsstring) (w : world db) :
  isProhibited sql = true ->
  (forall p,
     let out := executeQueryTool db executeQuery (ExecuteArgs sql p) w in
     fst out = ValidationError validationMessage
     /\ w_db (snd out) = w_db w
     /\ w_calls (snd out) = w_calls w)
  /\ (forall f n c p i,
     let out := paginatedQueryTool db executeQuery
                  (PaginatedArgs sql f n c p i) w in
     fst out = ValidationError validationMessage
     /\ w_db (snd out) = w_db w
     /\ w_calls (snd out) = w_calls w)
  /\ (forall fuel b m p f o a,
     exists w',
       queryStreamerTool db executeQuery fuel
         (StreamerArgs sql b m p f o a) w
       = Some (ValidationError validationMessage, w')
       /\ w_db w' = w_db w
       /\ w_calls w' = w_calls w).
Proof.
  intros Hp. split; [|split].
  - intros p out. subst out. unfold executeQueryTool.
    destruct p; cbn -[isProhibited]; rewrite Hp; repeat split; reflexivity.
  - intros f n c p i out. subst out. unfold paginatedQueryTool.
    destruct p; cbn -[isProhibited]; rewrite Hp; repeat split; reflexivity.
  - intros. unfold queryStreamerTool.
    destruct p; cbn -[isProhibited]; rewrite Hp; eexists; repeat split; reflexivity.
Qed.

End Validation.

(** C3, at the statement [DROP<tab>TABLE users]: the statement contains
    the write keyword [drop], the validation of [execute_query] lets it
    through, since it looks for the keyword followed by a space, and the
    handler passes the statement to the execution port. *)
Theorem write_keyword_before_tab_is_executed :
  includes (js "drop") (toLowerCase dropWithTab) = true
  /\ isProhibited dropWithTab = false
  /\ (let out := executeQueryTool unit silentPort
                   (ExecuteArgs dropWithTab None) emptyWorld in
      fst out = Success (ExecuteResult 0 [])
      /\ w_calls (snd out)
         = [Call dropWithTab ∅ (inr (QueryResult None))]).
Proof.
  split; [reflexivity|]. split; [reflexivity|].
  split; vm_compute; reflexivity.
Qed.

(** ** The rewriting of the statement *)

Lemma cursorPredicate_record sql c r :
  cursorPredicate sql c = Some r -> decodesToRecord c.
Proof.
  unfold cursorPredicate, decodesToRecord.
  destruct (decodeToken c) as [v|]; [|discriminate].
  intros H. exists v.
  assert (Hv : match getProp "field" v, getProp "value" v with
               | Some field, Some value =>
                   if negb (truthy field) then None else Some (field, value)
               | _, _ => None
               end <> None).
  { destruct v; try discriminate;
      cbn [getProp] in *;
      try (destruct (objGet (js "field") l) as [f|]; [|discriminate];
           destruct (objGet (js "value") l) as [x|]; [|discriminate];
           destruct (truthy f); [discriminate|discriminate]). }
  destruct (getProp "field" v) as [f|]; [|congruence].
  destruct (getProp "value" v) as [x|]; [|congruence].
  exists f, x. destruct (truthy f); cbn in Hv; [auto|congruence].
Qed.

(** The statement with the cursor predicate is the statement followed by
    the predicate. *)
Lemma cursorPredicate_appends sql c sql' name value :
  cursorPredicate sql c = Some (sql', name, value) ->
  exists predicate, sql' = sql ++ predicate.
Proof.
  unfold cursorPredicate.
  destruct (decodeToken c) as [v|]; [|discriminate].
  destruct v; try discriminate;
    (destruct (getProp "field" _) as [f|]; [|discriminate]);
    (destruct (getProp "value" _) as [x|]; [|discriminate]);
    (destruct (negb (truthy f)); [discriminate|]);
    (destruct f; try discriminate);
    (destruct (jsToString _) as [cmp|]; [|discriminate]);
    intros [= <- _ _]; eexists; reflexivity.
Qed.





Lemma undecodable_garbage : ~ decodesToRecord (js "not a cursor").
Proof.
  intros (v & f & x & Hd & _). vm_compute in Hd. discriminate.
Qed.


(** ** The parameters of the caller *)

Lemma alloc_fresh (o : jsobject) (h : heap) :
  h !! fst (alloc o h) = None.
Proof.
  unfold alloc. cbn. apply not_elem_of_dom. apply is_fresh.
Qed.

Lemma alloc_lookup (o : jsobject) (h : heap) :
  snd (alloc o h) !! fst (alloc o h) = Some o.
Proof. unfold alloc. cbn. apply lookup_insert_eq. Qed.

Lemma alloc_extends (o : jsobject) (h : heap) :
  h ⊆ snd (alloc o h).
Proof.
  unfold alloc. cbn. apply insert_subseteq, not_elem_of_dom, is_fresh.
Qed.

(** C10: [paginateQuery] changes no object of the store it is called
    in, the caller's parameters among them; the parameters object it
    returns is a new one, and its members are those of the caller's
    parameters, with the cursor parameter as one more when a cursor is
    applied. *)
Theorem paginateQuery_copies_parameters
    (sql : jsstring) (o : options) (h : heap) :
  let q := fst (paginateQuery sql o h) in
  let h' := snd (paginateQuery sql o h) in
  h ⊆ h'
  /\ h !! pq_parameters q = None
  /\ (h' !! pq_parameters q = Some (callerParameters o h)
      \/ exists name value,
           h' !! pq_parameters q
           = Some (<[name := value]> (callerParameters o h))).
Proof.
  unfold paginateQuery, callerParameters.
  set (a0 := match opt_parameters o with
             | Some l => (l, h) | None => alloc ∅ h end).
  assert (H0 : h ⊆ snd a0 /\ deref (snd a0) (fst a0)
               = match opt_parameters o with
                 | Some p => deref h p | None => ∅ end).
  { subst a0. destruct (opt_parameters o); cbn [fst snd]; [done|].
    split; [apply alloc_extends|].
    unfold deref. rewrite alloc_lookup. reflexivity. }
  destruct a0 as [p h0]. cbn [fst snd] in H0. destruct H0 as [H0 Hd].
  pose proof (alloc_fresh (deref h0 p) h0) as Hf.
  pose proof (alloc_lookup (deref h0 p) h0) as Hl.
  pose proof (alloc_extends (deref h0 p) h0) as He.
  destruct (alloc (deref h0 p) h0) as [u h1]. cbn [fst snd] in *.
  assert (Hu : h !! u = None).
  { destruct (h !! u) eqn:E; [|reflexivity].
    eapply lookup_weaken in E; [|exact H0]. congruence. }
  match goal with
  | |- context [let '(a, b) := ?x in _] => destruct x as [s1 f1]
  end.
  destruct (truthyString (opt_cursor o)).
  - destruct (cursorPredicate _ _) as [[[sql' name] value]|];
      cbn [fst snd pq_parameters].
    + split; [|split; [exact Hu|]].
      * unfold setMember. apply insert_subseteq_r; [exact Hu|].
        etrans; eassumption.
      * right. exists name, value. unfold setMember.
        rewrite lookup_insert_eq. unfold deref at 1. rewrite Hl.
        cbn. rewrite Hd. reflexivity.
    + split; [etrans; eassumption|]. split; [exact Hu|].
      left. rewrite Hl, Hd. reflexivity.
  - cbn [fst snd pq_parameters].
    split; [etrans; eassumption|]. split; [exact Hu|].
    left. rewrite Hl, Hd. reflexivity.
Qed.

(** ** The metadata of a page *)

Lemma base64Encode_nonempty (a : N) (l : list N) : base64Encode (a :: l) <> [].
Proof. destruct l as [|b [|c l]]; discriminate. Qed.

(** A cursor token is never the empty string. *)
Lemma encodeCursor_nonempty field value operator :
  encodeCursor field value operator <> [].
Proof.
  unfold encodeCursor, stringifyCursor.
  change (js "{") with [123%N]. cbn [app utf8Encode].
  change (123 <? 128)%N with true. cbv iota.
  apply base64Encode_nonempty.
Qed.

Lemma generateNextCursor_truthy lastRow field :
  truthyString (generateNextCursor lastRow field)
  = match generateNextCursor lastRow field with
    | Some _ => true | None => false end.
Proof.
  unfold generateNextCursor.
  destruct lastRow as [r|]; [|reflexivity].
  destruct field as [|c f]; [reflexivity|].
  destruct (rowGet r (c :: f)) as [v|]; [|reflexivity].
  pose proof (encodeCursor_nonempty (c :: f) v (js ">")) as H.
  unfold truthyString.
  destruct (encodeCursor (c :: f) v (js ">")); [congruence|reflexivity].
Qed.

Lemma generateNextCursor_some lastRow field :
  is_Some (generateNextCursor lastRow field)
  <-> field <> [] /\ exists r, lastRow = Some r /\ is_Some (rowGet r field).
Proof.
  unfold generateNextCursor. split.
  - intros [t Ht]. destruct lastRow as [r|]; [|discriminate].
    destruct field as [|c f]; [discriminate|].
    split; [discriminate|]. exists r. split; [reflexivity|].
    destruct (rowGet r (c :: f)); [eauto|discriminate].
  - intros [Hf (r & -> & [v Hv])].
    destruct field as [|c f]; [congruence|]. rewrite Hv. eauto.
Qed.

Lemma last_lookup_length {A} (l : list A) :
  l !! (length l - 1)%nat = last l.
Proof.
  rewrite last_lookup. f_equal. destruct l; cbn; lia.
Qed.

Lemma pageMeta_cursorField rows pageSize cursor field totalCount :
  pm_cursorField (pageMeta rows pageSize cursor field totalCount) = field.
Proof.
  unfold pageMeta. destruct (0 <? _); [destruct (_ <=? _)|]; reflexivity.
Qed.

Lemma pageMeta_returnedRows rows pageSize cursor field totalCount :
  pm_returnedRows (pageMeta rows pageSize cursor field totalCount)
  = Z.of_nat (length rows).
Proof.
  unfold pageMeta. destruct (0 <? _); [destruct (_ <=? _)|]; reflexivity.
Qed.

(** What [pageMeta] reports. *)
Lemma pageMeta_hasMore rows pageSize cursor field totalCount :
  let m := pageMeta rows pageSize cursor field totalCount in
  (pm_hasMore m = true <-> is_Some (pm_nextCursor m))
  /\ (pm_hasMore m = true <->
      pageSize <= Z.of_nat (length rows) /\ 0 < Z.of_nat (length rows)
      /\ field <> []
      /\ exists r, last rows = Some r /\ is_Some (rowGet r field)).
Proof.
  unfold pageMeta.
  destruct (0 <? Z.of_nat (length rows)) eqn:H0.
  - destruct (pageSize <=? Z.of_nat (length rows)) eqn:Hp;
      cbn [pm_hasMore pm_nextCursor].
    + rewrite generateNextCursor_truthy, last_lookup_length.
      pose proof (generateNextCursor_some (last rows) field) as Hs.
      destruct (generateNextCursor (last rows) field) as [t|].
      * split; [split; eauto|]. split; [intros _|reflexivity].
        split; [lia|]. split; [lia|]. apply Hs. eauto.
      * split; [split; [discriminate|intros [? ?]; discriminate]|].
        split; [discriminate|]. intros (_ & _ & Hf & Hr).
        destruct Hs as [_ Hs]. destruct Hs as [? ?]; [auto|discriminate].
    + cbn. split; [split; [discriminate|intros [? ?]; discriminate]|].
      split; [discriminate|]. lia.
  - cbn. split; [split; [discriminate|intros [? ?]; discriminate]|].
    split; [discriminate|]. lia.
Qed.

Section PageFetch.

Variable db : Type.
Variable executeQuery : jsstring -> jsobject -> db -> (exn + queryResult) * db.

(** A page that [paginated_query] returns carries the metadata that
    [pageMeta] derives from its rows. *)
Lemma paginatedQueryTool_meta args w res w' :
  paginatedQueryTool db executeQuery args w = (Success res, w') ->
  exists cursor field totalCount,
    pr_pagination res
    = pageMeta (pr_results res) (default 50 (pa_pageSize args)) cursor
        field totalCount
    /\ pr_rowCount res = Z.of_nat (length (pr_results res)).
Proof.
  unfold paginatedQueryTool.
  destruct (argParameters db _ w) as [p w0].
  destruct (isProhibited _); [discriminate|].
  match goal with
  | |- context [let (_, _) := ?x in _] => destruct x as [tc w1]
  end.
  destruct (paginate db _ _ w1) as [q w2].
  destruct (execute db executeQuery _ _ w2) as [[err|result] w3];
    [discriminate|].
  intros [= <- _]. cbn [pr_pagination pr_results pr_rowCount].
  eexists (pa_cursor args), _, tc. split; reflexivity.
Qed.

(** C1, as amended: in the metadata of every page that
    [paginated_query] returns, [hasMore] is true if and only if
    [nextCursor] is present, and that is the case if and only if the
    page has at least [pageSize] rows, has a row at all, the cursor field
    is not empty and the last row has a value for it.  In particular
    [hasMore] implies that the page has at least [pageSize] rows. *)
Theorem paginated_query_hasMore args w res w' :
  paginatedQueryTool db executeQuery args w = (Success res, w') ->
  let m := pr_pagination res in
  let pageSize := default 50 (pa_pageSize args) in
  let returnedRows := Z.of_nat (length (pr_results res)) in
  pm_returnedRows m = returnedRows
  /\ (pm_hasMore m = true <-> is_Some (pm_nextCursor m))
  /\ (pm_hasMore m = true -> pageSize <= returnedRows)
  /\ (pm_hasMore m = true <->
      pageSize <= returnedRows /\ 0 < returnedRows
      /\ pm_cursorField m <> []
      /\ exists r, last (pr_results res) = Some r
                   /\ is_Some (rowGet r (pm_cursorField m))).
Proof.
  intros H.
  apply paginatedQueryTool_meta in H as (cursor & field & tc & Hm & _).
  cbv zeta. rewrite Hm, pageMeta_cursorField.
  destruct (pageMeta_hasMore (pr_results res)
              (default 50 (pa_pageSize args)) cursor field tc) as [H1 H2].
  split; [apply pageMeta_returnedRows|]. split; [exact H1|].
  split; [|exact H2].
  intros Hh. apply H2 in Hh. tauto.
Qed.

End PageFetch.

(** C1 fails as stated: the page of [SELECT name FROM users] with page
    size 1 has one row, so as many rows as the page size, yet [hasMore] is
    false: the rows have no column [id], the cursor field, from which a
    next cursor could be made. *)
Lemma paginated_query_hasMore_counterexample :
  exists res w',
    paginatedQueryTool unit namesPort namesPage emptyWorld = (Success res, w')
    /\ pm_pageSize (pr_pagination res) = 1
    /\ pm_returnedRows (pr_pagination res) = 1
    /\ pm_hasMore (pr_pagination res) = false.
Proof.
  eexists _, _. split; [vm_compute; reflexivity|].
  repeat split.
Qed.

Lemma paginated_query_hasMore_witness :
  exists res w',
    paginatedQueryTool unit namesPort namesPage emptyWorld = (Success res, w')
    /\ (pm_hasMore (pr_pagination res) = true
        <-> is_Some (pm_nextCursor (pr_pagination res))).
Proof.
  assert (E : exists res w',
            paginatedQueryTool unit namesPort namesPage emptyWorld
            = (Success res, w'))
    by (eexists _, _; vm_compute; reflexivity).
  destruct E as (res & w' & E). exists res, w'. split; [exact E|].
  apply (paginated_query_hasMore unit namesPort namesPage emptyWorld res w' E).
Defined.

(** ** The streaming loop *)

Section Loop.

Variable db : Type.
Variable executeQuery : jsstring -> jsobject -> db -> (exn + queryResult) * db.
Variable sql : jsstring.
Variable batchSize maxRows : Z.
Variable parameters : positive.
Variable outputType : outputKind.
Variable aggregations : option (list aggregation).
Variable effectiveCursorField defaultCursorField : jsstring.

Let step := streamStep db executeQuery sql batchSize maxRows parameters
              outputType aggregations effectiveCursorField
              defaultCursorField.
Let loop := streamLoop db executeQuery sql batchSize maxRows parameters
              outputType aggregations effectiveCursorField
              defaultCursorField.
Let reach := loopReach db executeQuery sql batchSize maxRows parameters
               outputType aggregations effectiveCursorField
               defaultCursorField.
Let after := afterBatch batchSize maxRows outputType aggregations
               effectiveCursorField.
Let guard := loopGuard maxRows.

(** A turn of the loop makes one call, and the new state is the old one
    after the rows of this call. *)
Lemma streamStep_inr st w st' w' :
  step st w = (inr st', w') ->
  exists c,
    w_calls w' = c :: w_calls w
    /\ st' = after st (callRows c).
Proof.
  unfold step, streamStep, paginate, execute.
  destruct (paginateQuery _ _ _) as [q h]. cbn [w_heap w_db w_calls].
  destruct (executeQuery _ _ _) as [[err|result] d]; [discriminate|].
  intros [= <- <-]. eexists. split; reflexivity.
Qed.

Lemma afterBatch_total st rows :
  st_totalProcessedRows (after st rows)
  = st_totalProcessedRows st + Z.of_nat (length rows).
Proof. reflexivity. Qed.

(** The loop goes on after a batch exactly when the batch is full and
    the total is still below the cap. *)
Lemma afterBatch_guard st rows :
  guard (after st rows) = true
  <-> batchSize <= Z.of_nat (length rows)
      /\ st_totalProcessedRows st + Z.of_nat (length rows) < maxRows.
Proof.
  unfold guard, loopGuard, after, afterBatch.
  cbn [st_hasMore st_totalProcessedRows].
  destruct (Z.of_nat (length rows) <? batchSize) eqn:H1;
    destruct (batchSize <=? Z.of_nat (length rows)) eqn:H2;
    destruct (st_totalProcessedRows st + Z.of_nat (length rows) <? maxRows)
      eqn:H3; cbn; split; try discriminate; try reflexivity; lia.
Qed.

Lemma afterBatch_aggregations st rows :
  st_aggregationResults (after st rows)
  = match aggregations with
    | Some aggs => feedBatch aggs (st_aggregationResults st) rows
    | None => st_aggregationResults st
    end.
Proof. reflexivity. Qed.

(** More fuel does not change the result of the loop. *)
Lemma streamLoop_more_fuel fuel st w out :
  loop fuel st w = Some out ->
  forall fuel', (fuel <= fuel')%nat -> loop fuel' st w = Some out.
Proof.
  unfold loop. revert st w.
  induction fuel as [|fuel IH]; intros st w H fuel' Hle; cbn in H |- *.
  - destruct fuel'; cbn; destruct (loopGuard maxRows st);
      try discriminate; exact H.
  - destruct fuel' as [|fuel']; [lia|]. cbn.
    destruct (loopGuard maxRows st); [|exact H].
    destruct (streamStep _ _ _ _ _ _ _ _ _ _ _ _) as [[err|st'] w'];
      [exact H|].
    apply IH; [exact H|lia].
Qed.

(** With a positive batch size the loop ends: every turn after which it
    goes on adds a full batch to the total, which stays below the cap. *)
Lemma streamLoop_terminates fuel st w :
  0 < batchSize ->
  (Z.to_nat (maxRows - st_totalProcessedRows st) < fuel)%nat ->
  exists out, loop fuel st w = Some out.
Proof.
  intros Hb. unfold loop. revert st w.
  induction fuel as [|fuel IH]; intros st w Hf; [lia|].
  cbn. destruct (loopGuard maxRows st) eqn:Hg; [|eauto].
  destruct (streamStep _ _ _ _ _ _ _ _ _ _ _ _) as [[err|st'] w'] eqn:Hs;
    [eauto|].
  apply streamStep_inr in Hs as (c & _ & ->).
  destruct (guard (after st (callRows c))) eqn:Hg'.
  - apply afterBatch_guard in Hg' as [H1 H2].
    apply IH. rewrite afterBatch_total.
    unfold loopGuard in Hg. apply andb_true_iff in Hg as [_ Hg].
    apply Z.ltb_lt in Hg. lia.
  - destruct fuel; cbn; fold after; unfold guard in Hg'; rewrite Hg'; eauto.
Qed.

(** The result of the loop is a state that can be reached, in which the
    loop does not go on. *)
Lemma streamLoop_reach fuel st0 w0 st w st' w' :
  reach st0 w0 st w ->
  loop fuel st w = Some (inr st', w') ->
  reach st0 w0 st' w' /\ guard st' = false.
Proof.
  unfold loop, reach, guard. revert st w.
  induction fuel as [|fuel IH]; intros st w Hr; cbn;
    destruct (loopGuard maxRows st) eqn:Hg; try discriminate.
  - intros [= <- <-]. auto.
  - destruct (streamStep _ _ _ _ _ _ _ _ _ _ _ _) as [[err|st1] w1] eqn:Hs;
      [discriminate|].
    apply IH. eapply reach_step; eauto.
  - intros [= <- <-]. auto.
Qed.

(** Between the start and any state that can be reached, the calls are
    the turns of the loop: the total counts their rows, and the
    accumulators have been fed with them. *)
Lemma loopReach_rows st0 w0 st w :
  reach st0 w0 st w ->
  (length (w_calls w0) <= length (w_calls w))%nat
  /\ w_calls w0
     = skipn (length (w_calls w) - length (w_calls w0)) (w_calls w)
  /\ st_totalProcessedRows st
     = st_totalProcessedRows st0
       + Z.of_nat (length (processedRows w0 w))
  /\ st_aggregationResults st
     = match aggregations with
       | Some aggs =>
           feedBatch aggs (st_aggregationResults st0) (processedRows w0 w)
       | None => st_aggregationResults st0
       end.
Proof.
  unfold reach. induction 1 as [|st1 w1 st2 w2 Hr IH Hg Hs].
  - unfold processedRows. rewrite Nat.sub_diag, take_0, drop_0. cbn.
    split; [lia|]. split; [reflexivity|]. split; [lia|].
    destruct aggregations; reflexivity.
  - destruct IH as (Hlen & Hskip & Htot & Hacc).
    apply streamStep_inr in Hs as (c & Hc & ->).
    assert (Hrows : processedRows w0 w2
                    = processedRows w0 w1 ++ callRows c).
    { unfold processedRows. rewrite Hc. cbn [length].
      replace (S (length (w_calls w1)) - length (w_calls w0))%nat
        with (S (length (w_calls w1) - length (w_calls w0))) by lia.
      cbn [firstn rev]. rewrite map_app, concat_app. cbn.
      rewrite app_nil_r. reflexivity. }
    rewrite Hc. cbn [length]. split; [lia|]. split.
    + replace (S (length (w_calls w1)) - length (w_calls w0))%nat
        with (S (length (w_calls w1) - length (w_calls w0))) by lia.
      exact Hskip.
    + rewrite afterBatch_total, afterBatch_aggregations, Hrows, Htot, Hacc.
      rewrite length_app. split; [lia|].
      destruct aggregations; [|reflexivity].
      unfold feedBatch. rewrite fold_left_app. reflexivity.
Qed.

(** Whenever the loop goes on, the total is below the cap; so after a
    batch it is below the cap by less than the rows of that batch. *)
Lemma loopReach_total_bound (bound : Z) st0 w0 st w :
  (forall q p d out d',
     executeQuery q p d = (inr out, d') ->
     Z.of_nat (length (default [] (recordset out))) <= bound) ->
  st_totalProcessedRows st0 < maxRows + bound ->
  reach st0 w0 st w ->
  st_totalProcessedRows st < maxRows + bound.
Proof.
  intros Hport H0. unfold reach.
  induction 1 as [|st1 w1 st2 w2 Hr IH Hg Hs]; [exact H0|].
  unfold loopGuard in Hg. apply andb_true_iff in Hg as [_ Hg].
  apply Z.ltb_lt in Hg.
  unfold streamStep, paginate, execute in Hs.
  destruct (paginateQuery _ _ _) as [q h]. cbn [w_heap w_db w_calls] in Hs.
  destruct (executeQuery _ _ _) as [[err|result] d] eqn:He; [discriminate|].
  injection Hs as <- _. apply Hport in He.
  fold after. rewrite afterBatch_total. lia.
Qed.

End Loop.

Lemma endlessRows_length next : length (endlessRows next) = 100%nat.
Proof. unfold endlessRows. rewrite length_map. apply length_seq. Qed.

Section Streaming.

Variable db : Type.
Variable executeQuery : jsstring -> jsobject -> db -> (exn + queryResult) * db.

(** The summary of a run comes from a state of the loop. *)
Lemma query_streamer_terminates_reach (args : streamerArgs) (w : world db)
    fuel summary w' :
  queryStreamerTool db executeQuery fuel args w
  = Some (Success summary, w') ->
  exists st,
    streamerReach executeQuery args w st w'
    /\ ss_totalRows summary = st_totalProcessedRows st.
Proof.
  unfold queryStreamerTool, streamerReach.
  destruct (argParameters db (sa_parameters args) w) as [p w0].
  cbn [fst snd].
  destruct (isProhibited (sa_sql args)); [discriminate|].
  destruct (streamLoop _ _ _ _ _ _ _ _ _ _ _ _ _)
    as [[[err|st] w1]|] eqn:Hl; try discriminate.
  intros [= <- <-].
  eapply streamLoop_reach in Hl as [Hr Hg]; [|apply reach_start].
  exists st. cbn. auto.
Qed.


(** C6, as amended: when the cap [maxRows] is at least 1 and no batch
    has more than [bound] rows, the total of processed rows is below
    [maxRows + bound] in every state of the loop and in the summary, and
    it is below [maxRows] whenever the loop goes on to fetch a batch. *)
Theorem query_streamer_total_bound
    (args : streamerArgs) (w : world db) (bound : Z) :
  let maxRows := default 100000 (sa_maxRows args) in
  1 <= maxRows ->
  0 <= bound ->
  (forall q p d out d',
     executeQuery q p d = (inr out, d') ->
     Z.of_nat (length (default [] (recordset out))) <= bound) ->
  (forall st w',
     streamerReach executeQuery args w st w' ->
     st_totalProcessedRows st < maxRows + bound
     /\ (loopGuard maxRows st = true -> st_totalProcessedRows st < maxRows))
  /\ (forall fuel summary w',
        queryStreamerTool db executeQuery fuel args w
        = Some (Success summary, w') ->
        ss_totalRows summary < maxRows + bound).
Proof.
  intros maxRows Hm Hb Hport.
  assert (Hreach : forall st w',
            streamerReach executeQuery args w st w' ->
            st_totalProcessedRows st < maxRows + bound).
  { intros st w' Hr. unfold streamerReach in Hr.
    eapply loopReach_total_bound; [exact Hport| |exact Hr].
    unfold initialState. cbn. fold maxRows. lia. }
  split.
  - intros st w' Hr. split; [exact (Hreach st w' Hr)|].
    unfold loopGuard. intros Hg. apply andb_true_iff in Hg as [_ Hg].
    apply Z.ltb_lt in Hg. exact Hg.
  - intros fuel summary w' Hq.
    destruct (query_streamer_terminates_reach args w fuel summary w' Hq)
      as (st & Hr & -> ). exact (Hreach st w' Hr).
Qed.

End Streaming.


(** C6 fails as stated: over the endless table, with batches of 100 rows
    and a cap of 150 rows, the second batch is fetched at a total of 100
    and takes the total to 200, which is the total of the summary. *)
Lemma query_streamer_total_counterexample :
  exists summary w',
    queryStreamerTool nat endlessPort 3 cappedRun endlessWorld
    = Some (Success summary, w')
    /\ sa_maxRows cappedRun = Some 150
    /\ ss_totalRows summary = 200
    /\ ss_batchCount summary = 2.
Proof.
  eexists _, _. split; [vm_compute; reflexivity|]. repeat split.
Qed.

Lemma query_streamer_total_bound_witness :
  exists summary w',
    queryStreamerTool nat endlessPort 3 cappedRun endlessWorld
    = Some (Success summary, w')
    /\ ss_totalRows summary < 150 + 100.
Proof.
  assert (Hport : forall q p d out d',
            endlessPort q p d = (inr out, d') ->
            Z.of_nat (length (default [] (recordset out))) <= 100).
  { intros q p d out d' H. unfold endlessPort in H.
    assert (Hout : out = QueryResult (Some (endlessRows d))) by congruence.
    rewrite Hout. cbn [recordset default from_option]. unfold id.
    rewrite endlessRows_length. lia. }
  assert (E : exists summary w',
            queryStreamerTool nat endlessPort 3 cappedRun endlessWorld
            = Some (Success summary, w'))
    by (eexists _, _; vm_compute; reflexivity).
  destruct E as (summary & w' & E). exists summary, w'. split; [exact E|].
  apply (proj2 (query_streamer_total_bound nat endlessPort cappedRun
                  endlessWorld 100 ltac:(cbn; lia) ltac:(lia) Hport)
           3%nat summary w' E).
Defined.

(** ** The accumulators *)

(** The key of an accumulator names its operation and its field. *)
Lemma aggKey_inj op field op' field' :
  aggKey op field = aggKey op' field' -> op = op' /\ field = field'.
Proof.
  unfold aggKey.
  destruct op, op'; vm_compute (operationName _); vm_compute (js ":");
    cbn [app]; intros H; inversion H; auto.
Qed.

Lemma aggKey_ne op field agg :
  agg <> Aggregation field op ->
  aggKey (agg_operation agg) (agg_field agg) <> aggKey op field.
Proof.
  intros Hne Hk. apply aggKey_inj in Hk as [H1 H2].
  destruct agg as [f o]. cbn in *. congruence.
Qed.

Lemma Qplus_inject_Z (a b : Z) :
  (inject_Z a + inject_Z b)%Q = inject_Z (a + b).
Proof. unfold Qplus, inject_Z. cbn. f_equal. lia. Qed.

Section Accumulators.

Variable field : jsstring.
Variable op : operation.
Let target := Aggregation field op.
Let key := aggKey op field.

(** Another aggregation leaves the accumulator alone. *)
Lemma initAggregation_other acc agg :
  agg <> target -> initAggregation acc agg !! key = acc !! key.
Proof.
  intros Hne. apply aggKey_ne in Hne. unfold initAggregation.
  destruct (agg_operation agg); apply lookup_insert_ne; exact Hne.
Qed.

Lemma feedAggregation_other r acc agg :
  agg <> target -> feedAggregation r acc agg !! key = acc !! key.
Proof.
  intros Hne. apply aggKey_ne in Hne. unfold feedAggregation.
  repeat match goal with
         | |- context [match ?x with _ => _ end] => destruct x
         end; try reflexivity; apply lookup_insert_ne; exact Hne.
Qed.

Lemma finalizeAggregation_other total acc agg :
  agg <> target -> finalizeAggregation total acc agg !! key = acc !! key.
Proof.
  intros Hne. apply aggKey_ne in Hne. unfold finalizeAggregation.
  repeat match goal with
         | |- context [match ?x with _ => _ end] => destruct x
         end; try reflexivity; apply lookup_insert_ne; exact Hne.
Qed.

Lemma fold_other {A} (f : accumulators -> A -> accumulators)
    (P : A -> Prop) (l : list A) acc :
  (forall acc a, P a -> f acc a !! key = acc !! key) ->
  Forall P l ->
  fold_left f l acc !! key = acc !! key.
Proof.
  intros Hf Hl. revert acc.
  induction Hl as [|a l Ha _ IH]; intros acc; [reflexivity|].
  cbn. rewrite IH. apply Hf. exact Ha.
Qed.

End Accumulators.

Lemma listed_cons field op a aggs :
  listed field op (a :: aggs)
  = if decide (a = Aggregation field op) then S (listed field op aggs)
    else listed field op aggs.
Proof.
  unfold listed. rewrite filter_cons. destruct (decide _); reflexivity.
Qed.

Lemma sumField_cons field r rows :
  sumField field (r :: rows) = fieldNumber field r + sumField field rows.
Proof. reflexivity. Qed.

Lemma sumField_app field rows rows' :
  sumField field (rows ++ rows') = sumField field rows + sumField field rows'.
Proof.
  induction rows as [|r rows IH]; [reflexivity|].
  rewrite <- app_comm_cons, !sumField_cons, IH. lia.
Qed.

Section RunningSum.

(** An accumulator that adds the numbers of a field up: the one of a
    sum or of an average. *)
Variable field : jsstring.
Variable op : operation.
Hypothesis op_adds : op = OpSum \/ op = OpAvg.

Let key := aggKey op field.

(** The aggregation fed with a row adds the number of the row. *)
Lemma feedAggregation_adds r acc (s : Z) :
  acc !! key = Some (ANum (inject_Z s)) ->
  feedAggregation r acc (Aggregation field op) !! key
  = Some (ANum (inject_Z (s + fieldNumber field r))).
Proof.
  intros Hacc. unfold feedAggregation, fieldNumber.
  cbn [agg_field agg_operation]. fold key.
  destruct (rowGet r field) as [[[ | b | z | t] | | ]|];
    rewrite ?Z.add_0_r; try exact Hacc;
    destruct op_adds as [Hop | Hop]; subst op; unfold key in *;
    rewrite Hacc;
    first [ exact Hacc
          | rewrite lookup_insert_eq, Qplus_inject_Z; reflexivity ].
Qed.

Lemma feedRow_adds aggs r acc (s : Z) :
  acc !! key = Some (ANum (inject_Z s)) ->
  feedRow aggs acc r !! key
  = Some (ANum (inject_Z
                  (s + Z.of_nat (listed field op aggs)
                       * fieldNumber field r))).
Proof.
  unfold feedRow. revert acc s.
  induction aggs as [|a aggs IH]; intros acc s Hacc; cbn [fold_left].
  - cbn. rewrite Z.add_0_r. exact Hacc.
  - rewrite listed_cons. destruct (decide (a = Aggregation field op)) as [->|Hne].
    + rewrite (IH _ (s + fieldNumber field r));
        [|apply feedAggregation_adds; exact Hacc].
      do 3 f_equal. lia.
    + apply IH. unfold key. rewrite feedAggregation_other; assumption.
Qed.

Lemma feedBatch_adds aggs rows acc (s : Z) :
  acc !! key = Some (ANum (inject_Z s)) ->
  feedBatch aggs acc rows !! key
  = Some (ANum (inject_Z
                  (s + Z.of_nat (listed field op aggs)
                       * sumField field rows))).
Proof.
  unfold feedBatch. revert acc s.
  induction rows as [|r rows IH]; intros acc s Hacc; cbn [fold_left].
  - cbn. rewrite Z.mul_0_r, Z.add_0_r. exact Hacc.
  - erewrite IH; [|apply feedRow_adds; exact Hacc].
    do 3 f_equal. rewrite sumField_cons. lia.
Qed.

(** A listed aggregation starts at zero. *)
Lemma initAggregation_zero aggs acc :
  (0 < listed field op aggs)%nat ->
  fold_left initAggregation aggs acc !! key = Some (ANum (inject_Z 0)).
Proof.
  revert acc. induction aggs as [|a aggs IH]; intros acc Hl.
  - cbn in Hl. lia.
  - rewrite listed_cons in Hl. cbn [fold_left].
    destruct (decide (a = Aggregation field op)) as [->|Hne].
    + destruct (Nat.eq_dec (listed field op aggs) 0%nat) as [H0|H0].
      * rewrite (fold_other field op initAggregation
                   (fun a => a <> Aggregation field op)).
        -- unfold initAggregation, key. cbn [agg_field agg_operation].
           destruct op_adds as [-> | ->]; apply lookup_insert_eq.
        -- intros. apply initAggregation_other. assumption.
        -- apply Forall_forall. intros x Hx Heq. subst x.
           unfold listed in H0. apply length_zero_iff_nil in H0.
           assert (Hin : Aggregation field op
                     ∈ filter (fun a => a = Aggregation field op) aggs).
           { apply list_elem_of_filter. split; [reflexivity|exact Hx]. }
           rewrite H0 in Hin. inversion Hin.
      * apply IH. lia.
    + apply IH. exact Hl.
Qed.

End RunningSum.

Lemma listed_zero field op aggs :
  listed field op aggs = 0%nat ->
  Forall (fun a => a <> Aggregation field op) aggs.
Proof.
  intros H0. apply Forall_forall. intros x Hx ->.
  unfold listed in H0. apply length_zero_iff_nil in H0.
  assert (Hin : Aggregation field op
                  ∈ filter (fun a => a = Aggregation field op) aggs).
  { apply list_elem_of_filter. split; [reflexivity|exact Hx]. }
  rewrite H0 in Hin. inversion Hin.
Qed.

(** The finalization changes the accumulators of the averages and of the
    distinct counts only. *)
Lemma finalizeAggregation_keeps field op total acc agg :
  op <> OpAvg -> op <> OpCountDistinct ->
  finalizeAggregation total acc agg !! aggKey op field
  = acc !! aggKey op field.
Proof.
  intros H1 H2.
  destruct (decide (agg = Aggregation field op)) as [->|Hne].
  - unfold finalizeAggregation. cbn [agg_operation].
    destruct op; congruence.
  - apply finalizeAggregation_other. exact Hne.
Qed.

Lemma finalize_fold_keeps field op total aggs acc :
  op <> OpAvg -> op <> OpCountDistinct ->
  fold_left (finalizeAggregation total) aggs acc !! aggKey op field
  = acc !! aggKey op field.
Proof.
  intros H1 H2. revert acc.
  induction aggs as [|a aggs IH]; intros acc; [reflexivity|].
  cbn [fold_left]. rewrite IH. apply finalizeAggregation_keeps; assumption.
Qed.

Lemma avgDivisor_finalize field total total' aggs acc :
  avgDivisor (fold_left (finalizeAggregation total') aggs acc) total field
  = avgDivisor acc total field.
Proof.
  unfold avgDivisor. rewrite finalize_fold_keeps by discriminate.
  reflexivity.
Qed.

Lemma finalize_fold_avg field total aggs acc (a : Q) :
  listed field OpAvg aggs = 1%nat ->
  acc !! aggKey OpAvg field = Some (ANum a) ->
  fold_left (finalizeAggregation total) aggs acc !! aggKey OpAvg field
  = Some (ANum (dividedBy (avgDivisor acc total field) a)).
Proof.
  revert acc. induction aggs as [|x aggs IH]; intros acc Hl Hacc.
  - discriminate.
  - rewrite listed_cons in Hl. cbn [fold_left].
    destruct (decide (x = Aggregation field OpAvg)) as [->|Hne].
    + injection Hl as Hl.
      rewrite (fold_other field OpAvg (finalizeAggregation total)
                 (fun a => a <> Aggregation field OpAvg)).
      * unfold finalizeAggregation, dividedBy.
        cbn [agg_field agg_operation]. rewrite Hacc.
        destruct (avgDivisor acc total field) as [d|]; [|exact Hacc].
        destruct (Qltb 0 d); [apply lookup_insert_eq|exact Hacc].
      * intros. apply finalizeAggregation_other. assumption.
      * apply listed_zero. exact Hl.
    + rewrite IH; [|exact Hl|].
      * f_equal. f_equal. f_equal.
        apply (avgDivisor_finalize field total total [x] acc).
      * rewrite finalizeAggregation_other; assumption.
  Qed.

Lemma processedRows_calls {db} (w0 w0' w : world db) :
  w_calls w0 = w_calls w0' -> processedRows w0 w = processedRows w0' w.
Proof. unfold processedRows. intros ->. reflexivity. Qed.

Section Aggregates.

Variable db : Type.
Variable executeQuery : jsstring -> jsobject -> db -> (exn + queryResult) * db.

Lemma streamerStart_calls args (w : world db) :
  w_calls (streamerStart args w) = w_calls w.
Proof.
  unfold streamerStart, argParameters.
  destruct (sa_parameters args); reflexivity.
Qed.

(** In a state of the loop the accumulators are the initial ones fed
    with the rows processed so far, and the total is their number. *)
Lemma streamerReach_rows args (w : world db) st w' aggs :
  sa_aggregations args = Some aggs ->
  streamerReach executeQuery args w st w' ->
  st_aggregationResults st
  = feedBatch aggs (fold_left initAggregation aggs ∅) (processedRows w w')
  /\ st_totalProcessedRows st = Z.of_nat (length (processedRows w w')).
Proof.
  intros Ha Hr. unfold streamerReach in Hr.
  apply loopReach_rows in Hr as (_ & _ & Ht & Hacc).
  fold (streamerStart args w) in Ht, Hacc.
  rewrite (processedRows_calls _ w) in Ht, Hacc
    by apply streamerStart_calls.
  rewrite Ha in Hacc. unfold initialState in Hacc, Ht.
  cbn [st_aggregationResults st_totalProcessedRows] in Hacc, Ht.
  split; [exact Hacc|lia].
Qed.

(** The summary of a run: the state of the loop it comes from. *)
Lemma queryStreamerTool_summary args (w : world db) fuel summary w' :
  queryStreamerTool db executeQuery fuel args w
  = Some (Success summary, w') ->
  exists st,
    streamerReach executeQuery args w st w'
    /\ ss_totalRows summary = st_totalProcessedRows st
    /\ ss_aggregations summary
       = match sa_aggregations args with
         | Some aggs =>
             fold_left (finalizeAggregation (st_totalProcessedRows st))
               aggs (st_aggregationResults st)
         | None => st_aggregationResults st
         end.
Proof.
  unfold queryStreamerTool, streamerReach.
  destruct (argParameters db (sa_parameters args) w) as [p w0].
  cbn [fst snd].
  destruct (isProhibited (sa_sql args)); [discriminate|].
  destruct (streamLoop _ _ _ _ _ _ _ _ _ _ _ _ _)
    as [[[err|st] w1]|] eqn:Hl; try discriminate.
  intros [= <- <-].
  eapply streamLoop_reach in Hl as [Hr Hg]; [|apply reach_start].
  exists st. cbn. auto.
Qed.

End Aggregates.


(** The batches [10, 20], [30, 40], [5] give the sum 105. *)
Example sum_of_three_batches :
  exists summary w',
    queryStreamerTool _ scriptedPort 4 sumInBatchesOfTwo
      (scriptedWorld batchesOfTwo) = Some (Success summary, w')
    /\ ss_totalRows summary = 5
    /\ ss_batchCount summary = 3
    /\ ss_aggregations summary !! aggKey OpSum (js "amount")
       = Some (ANum (inject_Z 105)).
Proof.
  eexists _, _. split; [vm_compute; reflexivity|].
  repeat split.
Qed.





(** ** Known answers

    The rewriting functions on queries whose result can be read off the
    source. *)

Example reHasOrderBy_mixed_case :
  rtest reHasOrderBy (js "select * from t Order   bY id") = true.
Proof. vm_compute. reflexivity. Qed.

Example reHasOrderBy_inside_words :
  rtest reHasOrderBy (js "select reorder by_x from border") = false.
Proof. vm_compute. reflexivity. Qed.

Example reOrderByClause_to_the_end :
  rcapture reOrderByClause (js "select * from t order by [a] desc, b  ")
  = Some (js "[a] desc, b").
Proof. vm_compute. reflexivity. Qed.

Example reOrderByClause_before_offset :
  rcapture reOrderByClause (js "select * from t order by a offset 5 rows")
  = Some (js "a").
Proof. vm_compute. reflexivity. Qed.

Example paginateQuery_plain :
  paginatedSql
    (fst (paginateQuery (js "  SELECT * FROM users ")
            (Options None (Some 50%Z) None None None) ∅))
  = js "SELECT * FROM users ORDER BY id ASC OFFSET 0 ROWS FETCH NEXT 50 ROWS ONLY".
Proof. vm_compute. reflexivity. Qed.

Example paginateQuery_ordered :
  let q := fst (paginateQuery (js "SELECT * FROM t ORDER BY [name] DESC, id")
                  (Options None None None None None) ∅) in
  paginatedSql q
  = js "SELECT * FROM t ORDER BY [name] DESC, id OFFSET 0 ROWS FETCH NEXT 100 ROWS ONLY"
  /\ pq_cursorField q = Some (js "name").
Proof. vm_compute. split; reflexivity. Qed.

Example paginateQuery_with_cursor :
  paginatedSql
    (fst (paginateQuery (js "SELECT * FROM t WHERE a = 1")
            (Options (Some (js "id")) (Some 10%Z)
               (Some (js "eyJmaWVsZCI6ImlkIiwidmFsdWUiOjIsIm9wZXJhdG9yIjoiPiJ9"))
               None None) ∅))
  = js "SELECT * FROM t WHERE a = 1 ORDER BY id ASC AND [id] > @cursor_id OFFSET 0 ROWS FETCH NEXT 10 ROWS ONLY".
Proof. vm_compute. reflexivity. Qed.

Example extractDefaultCursorField_order :
  extractDefaultCursorField (js "select a from t order by [b] desc") = js "b".
Proof. vm_compute. reflexivity. Qed.

Example extractDefaultCursorField_select :
  extractDefaultCursorField (js "SELECT name, u.x AS Id FROM users u")
  = js "Id".
Proof. vm_compute. reflexivity. Qed.

Example extractDefaultCursorField_star :
  extractDefaultCursorField (js "SELECT * FROM users") = js "id".
Proof. vm_compute. reflexivity. Qed.

Example isProhibited_delete :
  isProhibited (js "  Delete from users") = true.
Proof. vm_compute. reflexivity. Qed.

Example isProhibited_select :
  isProhibited (js "select * from updates") = false.
Proof. vm_compute. reflexivity. Qed.

Example countQuery_strips_order :
  countQuery (js "select * from t order by id")
  = js "SELECT COUNT(*) AS TotalCount FROM (select * from t ) AS CountQuery".
Proof. vm_compute. reflexivity. Qed.

Example decodeCursor_known_token :
  decodeCursor
    (Some (js "eyJmaWVsZCI6ImlkIiwidmFsdWUiOjIsIm9wZXJhdG9yIjoiPiJ9"))
  = Some (JObj [(js "field", JStr (js "id")); (js "value", JNum 2);
                (js "operator", JStr (js ">"))]).
Proof. vm_compute. reflexivity. Qed.

Example decodeCursor_not_json :
  decodeCursor (Some (js "not-a-cursor")) = None.
Proof. vm_compute. reflexivity. Qed.

(** ** The cursor codec *)

Local Open Scope N_scope.

Lemma div_mod_split k x y :
  y < k -> (x * k + y) / k = x /\ (x * k + y) mod k = y.
Proof.
  intros H. assert (k <> 0) by lia. split.
  - rewrite N.div_add_l by assumption. rewrite N.div_small by assumption. lia.
  - rewrite N.add_comm, N.Div0.mod_add. apply N.mod_small. assumption.
Qed.

Lemma split_at k x :
  k <> 0 ->
  exists q r, x = q * k + r /\ r < k /\ x / k = q /\ x mod k = r.
Proof.
  intros Hk. exists (x / k), (x mod k).
  pose proof (N.div_mod' x k). pose proof (N.mod_lt x k Hk).
  repeat split; lia.
Qed.

(** Settles each comparison of the goal that arithmetic decides. *)
Ltac settle_comparison :=
  match goal with
  | |- context [?a <? ?b] =>
      first [ replace (a <? b) with true
                by (symmetry; apply N.ltb_lt; lia)
            | replace (a <? b) with false
                by (symmetry; apply N.ltb_ge; lia) ]
  | |- context [?a <=? ?b] =>
      first [ replace (a <=? b) with true
                by (symmetry; apply N.leb_le; lia)
            | replace (a <=? b) with false
                by (symmetry; apply N.leb_gt; lia) ]
  | |- context [?a =? ?b] =>
      first [ replace (a =? b) with true
                by (symmetry; apply N.eqb_eq; lia)
            | replace (a =? b) with false
                by (symmetry; apply N.eqb_neq; lia) ]
  end.

Ltac settle :=
  repeat (repeat settle_comparison; progress cbn [andb orb negb]);
  repeat settle_comparison.

(** *** Base64 *)

Lemma b64Val_b64Char i :
  i < 64 -> b64Val (b64Char i) = Some i /\ (b64Char i =? 61) = false.
Proof.
  intros Hi. unfold b64Val, b64Char, isUpper, isLower, isDigit.
  assert (Hc : i < 26 \/ 26 <= i < 52 \/ 52 <= i < 62 \/ i = 62 \/ i = 63)
    by lia.
  destruct Hc as [H|[H|[H|[H|H]]]]; settle; split;
    try reflexivity; f_equal; lia.
Qed.

Lemma b64Sextets_char i rest :
  i < 64 -> b64Sextets (b64Char i :: rest) = i :: b64Sextets rest.
Proof.
  intros Hi. destruct (b64Val_b64Char i Hi) as [Hv He].
  cbn [b64Sextets]. rewrite He, Hv. reflexivity.
Qed.

Lemma base64_roundtrip_upto (n : nat) (bs : list N) :
  (length bs <= n)%nat -> bytes bs -> base64Decode (base64Encode bs) = bs.
Proof.
  unfold base64Decode, bytes. revert bs.
  induction n as [|n IH]; intros bs Hn Hb.
  - destruct bs; [reflexivity|cbn in Hn; lia].
  - destruct bs as [|a [|b [|c rest]]]; [reflexivity|..].
    + inversion_clear Hb as [|? ? Ha _].
      destruct (split_at 4 a) as (a1 & a0 & Ea & Ha0 & E1 & E2); [lia|].
      cbn [base64Encode]. rewrite E1, E2.
      rewrite !b64Sextets_char by lia. cbn [b64Sextets N.eqb Pos.eqb b64Bytes].
      destruct (div_mod_split 16 a0 0) as [E3 _]; [lia|].
      rewrite N.add_0_r in E3. rewrite E3. f_equal. lia.
    + inversion_clear Hb as [|? ? Ha Hb']. inversion_clear Hb' as [|? ? Hb _].
      destruct (split_at 4 a) as (a1 & a0 & Ea & Ha0 & E1 & E2); [lia|].
      destruct (split_at 16 b) as (b1 & b0 & Eb & Hb0 & E3 & E4); [lia|].
      cbn [base64Encode]. rewrite E1, E2, E3, E4.
      rewrite !b64Sextets_char by lia. cbn [b64Sextets N.eqb Pos.eqb b64Bytes].
      destruct (div_mod_split 16 a0 b1) as [E5 E6]; [lia|].
      destruct (div_mod_split 4 b0 0) as [E7 _]; [lia|].
      rewrite N.add_0_r in E7. rewrite E5, E6, E7.
      f_equal; [lia|]. f_equal. lia.
    + inversion_clear Hb as [|? ? Ha Hb']. inversion_clear Hb' as [|? ? Hb Hb''].
      inversion_clear Hb'' as [|? ? Hc Hrest].
      destruct (split_at 4 a) as (a1 & a0 & Ea & Ha0 & E1 & E2); [lia|].
      destruct (split_at 16 b) as (b1 & b0 & Eb & Hb0 & E3 & E4); [lia|].
      destruct (split_at 64 c) as (c1 & c0 & Ec & Hc0 & E5 & E6); [lia|].
      cbn [base64Encode]. rewrite E1, E2, E3, E4, E5, E6.
      rewrite !b64Sextets_char by lia. cbn [b64Bytes].
      destruct (div_mod_split 16 a0 b1) as [E7 E8]; [lia|].
      destruct (div_mod_split 4 b0 c1) as [E9 E10]; [lia|].
      rewrite E7, E8, E9, E10.
      rewrite IH; [|cbn in Hn; lia|exact Hrest].
      f_equal; [lia|]. f_equal; [lia|]. f_equal. lia.
Qed.

(** Reading what was written gives the bytes back. *)
Lemma base64_roundtrip (bs : list N) :
  bytes bs -> base64Decode (base64Encode bs) = bs.
Proof. apply (base64_roundtrip_upto (length bs)). lia. Qed.

(** *** UTF-8 *)

Lemma wellFormed_app a b : wellFormed a -> wellFormed b -> wellFormed (a ++ b).
Proof.
  induction 1; intros Hb; cbn [app]; [assumption|..].
  - apply wf_unit; auto.
  - apply wf_pair; auto.
Qed.

Lemma surrogate_bounds c :
  (isHighSurrogate c = true <-> 55296 <= c <= 56319)
  /\ (isLowSurrogate c = true <-> 56320 <= c <= 57343).
Proof.
  unfold isHighSurrogate, isLowSurrogate.
  rewrite !andb_true_iff, !N.leb_le. tauto.
Qed.

Lemma not_surrogate c :
  isHighSurrogate c = false -> isLowSurrogate c = false ->
  c < 55296 \/ 57343 < c.
Proof.
  unfold isHighSurrogate, isLowSurrogate.
  rewrite !andb_false_iff, !N.leb_gt. lia.
Qed.

(** The encoding of one code unit outside the surrogates, and what the
    decoder makes of it. *)
Lemma utf8_unit c bs :
  c < 65536 -> isHighSurrogate c = false -> isLowSurrogate c = false ->
  exists enc,
    (forall s, utf8Encode (c :: s) = enc ++ utf8Encode s)
    /\ bytes enc
    /\ utf8DecodeFrom None (enc ++ bs) = c :: utf8DecodeFrom None bs.
Proof.
  intros Hc Hh Hl. pose proof (not_surrogate c Hh Hl) as Hns.
  assert (Hr : c < 128 \/ 128 <= c < 2048 \/ 2048 <= c) by lia.
  destruct Hr as [Hr|[Hr|Hr]].
  - exists [c]. split; [|split].
    + intros s. cbn [utf8Encode]. settle. reflexivity.
    + repeat constructor. lia.
    + cbn [app utf8DecodeFrom]. unfold utf8Lead. settle. reflexivity.
  - destruct (split_at 64 c) as (q & r & Ec & Hlt & E1 & E2); [lia|].
    exists [192 + q; 128 + r]. split; [|split].
    + intros s. cbn [utf8Encode]. settle. rewrite E1, E2. reflexivity.
    + repeat constructor; lia.
    + cbn [app utf8DecodeFrom]. unfold utf8Lead. settle.
      cbn [app u8_lo u8_hi u8_cp u8_need]. settle. unfold utf16Units.
      settle. cbn [app]. f_equal. lia.
  - destruct (split_at 64 c) as (m & c0 & Ec & Hc0 & E1 & E2); [lia|].
    destruct (split_at 64 m) as (c2 & c1 & Em & Hc1 & E3 & E4); [lia|].
    assert (E5 : c / 4096 = c2).
    { change 4096 with (64 * 64). rewrite <- N.Div0.div_div, E1. exact E3. }
    exists [224 + c2; 128 + c1; 128 + c0]. split; [|split].
    + intros s. cbn [utf8Encode]. settle. rewrite Hh, Hl, E5, E1, E2, E4.
      reflexivity.
    + repeat constructor; lia.
    + cbn [app utf8DecodeFrom]. unfold utf8Lead. settle.
      cbn [app u8_lo u8_hi u8_cp u8_need].
      destruct (N.eqb_spec (224 + c2) 224); destruct (N.eqb_spec (224 + c2) 237);
        try (exfalso; lia);
        settle; cbn [u8_lo u8_hi u8_cp u8_need]; settle;
        unfold utf16Units; settle; cbn [app]; f_equal; lia.
Qed.

(** The same for a surrogate pair. *)
Lemma utf8_pair c d bs :
  isHighSurrogate c = true -> isLowSurrogate d = true ->
  exists enc,
    (forall s, utf8Encode (c :: d :: s) = enc ++ utf8Encode s)
    /\ bytes enc
    /\ utf8DecodeFrom None (enc ++ bs) = c :: d :: utf8DecodeFrom None bs.
Proof.
  intros Hh Hl.
  pose proof (proj1 (proj1 (surrogate_bounds c)) Hh) as Bc.
  pose proof (proj1 (proj2 (surrogate_bounds d)) Hl) as Bd.
  set (cp := 65536 + (c - 55296) * 1024 + (d - 56320)).
  assert (Hcp : cp = 65536 + (c - 55296) * 1024 + (d - 56320)) by reflexivity.
  destruct (split_at 64 cp) as (m1 & r0 & E0 & H0 & D0 & M0); [lia|].
  destruct (split_at 64 m1) as (m2 & r1 & E1 & H1 & D1 & M1); [lia|].
  destruct (split_at 64 m2) as (m3 & r2 & E2 & H2 & D2 & M2); [lia|].
  assert (D4096 : cp / 4096 = m2).
  { change 4096 with (64 * 64). rewrite <- N.Div0.div_div, D0. exact D1. }
  assert (D262144 : cp / 262144 = m3).
  { change 262144 with (4096 * 64). rewrite <- N.Div0.div_div, D4096.
    exact D2. }
  exists [240 + m3; 128 + r2; 128 + r1; 128 + r0]. split; [|split].
  - intros s. cbn [utf8Encode]. settle. rewrite Hh, Hl. fold cp.
    rewrite D262144, D4096, D0, M0, M1, M2. reflexivity.
  - repeat constructor; lia.
  - cbn [app utf8DecodeFrom]. unfold utf8Lead. settle.
    cbn [app u8_lo u8_hi u8_cp u8_need].
    assert (Hx : (cp - 65536) = (c - 55296) * 1024 + (d - 56320)) by lia.
    destruct (div_mod_split 1024 (c - 55296) (d - 56320)) as [Dx Mx]; [lia|].
    rewrite <- Hx in Dx, Mx.
    assert (Hfinal : ((240 + m3 - 240) * 64 + (128 + r2 - 128)) * 64
                     + (128 + r1 - 128) = m1) by lia.
    destruct (N.eqb_spec (240 + m3) 240); destruct (N.eqb_spec (240 + m3) 244);
      try (exfalso; lia);
      settle; cbn [u8_lo u8_hi u8_cp u8_need]; settle;
      cbn [u8_lo u8_hi u8_cp u8_need]; settle;
      rewrite Hfinal;
      replace (m1 * 64 + (128 + r0 - 128)) with cp by lia;
      unfold utf16Units; settle; rewrite Dx, Mx; cbn [app];
      replace (55296 + (c - 55296)) with c by lia;
      replace (56320 + (d - 56320)) with d by lia; reflexivity.
Qed.

(** The bytes of a well-formed string, and the string read back from
    them. *)
Lemma utf8_roundtrip s :
  wellFormed s -> bytes (utf8Encode s) /\ utf8Decode (utf8Encode s) = s.
Proof.
  unfold utf8Decode. induction 1 as [|c s Hc Hh Hl _ [IHb IHd]
                                    |c d s Hh Hl _ [IHb IHd]].
  - split; [constructor|reflexivity].
  - destruct (utf8_unit c (utf8Encode s) Hc Hh Hl) as (enc & He & Hb & Hd).
    rewrite He. split; [apply Forall_app; auto|].
    rewrite Hd, IHd. reflexivity.
  - destruct (utf8_pair c d (utf8Encode s) Hh Hl) as (enc & He & Hb & Hd).
    rewrite He. split; [apply Forall_app; auto|].
    rewrite Hd, IHd. reflexivity.
Qed.

(** *** JSON: string literals *)

Lemma hexVal_hexDigit d : d < 16 -> hexVal (hexDigit d) = Some d.
Proof.
  intros Hd. unfold hexVal, hexDigit, isDigit.
  assert (Hc : d < 10 \/ 10 <= d) by lia.
  destruct Hc; settle; f_equal; lia.
Qed.

Lemma hexDigit_ascii d : d < 16 -> 48 <= hexDigit d < 128.
Proof.
  intros Hd. unfold hexDigit.
  assert (Hc : d < 10 \/ 10 <= d) by lia. destruct Hc; settle; lia.
Qed.

(** The four digits of an escape, and the code unit they stand for. *)
Lemma escape_digits c :
  c < 65536 ->
  exists d3 d2 d1 d0,
    unicodeEscape c = [92; 117; hexDigit d3; hexDigit d2; hexDigit d1;
                       hexDigit d0]
    /\ d3 < 16 /\ d2 < 16 /\ d1 < 16 /\ d0 < 16
    /\ c = d3 * 4096 + d2 * 256 + d1 * 16 + d0.
Proof.
  intros Hc. unfold unicodeEscape.
  destruct (split_at 16 c) as (m1 & r0 & E0 & H0 & D0 & M0); [lia|].
  destruct (split_at 16 m1) as (m2 & r1 & E1 & H1 & D1 & M1); [lia|].
  destruct (split_at 16 m2) as (m3 & r2 & E2 & H2 & D2 & M2); [lia|].
  assert (D256 : c / 256 = m2).
  { change 256 with (16 * 16). rewrite <- N.Div0.div_div, D0. exact D1. }
  assert (D4096 : c / 4096 = m3).
  { change 4096 with (256 * 16). rewrite <- N.Div0.div_div, D256. exact D2. }
  exists m3, r2, r1, r0.
  rewrite D4096, D256, D0, M0, M1, M2.
  split; [reflexivity|]. repeat split; lia.
Qed.

Lemma hex4_digits d3 d2 d1 d0 :
  d3 < 16 -> d2 < 16 -> d1 < 16 -> d0 < 16 ->
  hex4 (hexDigit d3) (hexDigit d2) (hexDigit d1) (hexDigit d0)
  = Some (d3 * 4096 + d2 * 256 + d1 * 16 + d0).
Proof.
  intros. unfold hex4. rewrite !hexVal_hexDigit by assumption. reflexivity.
Qed.

Lemma parse_verbatim c rest :
  32 <= c -> c <> 34 -> c <> 92 ->
  parseStringBody (c :: rest) = consParsed c (parseStringBody rest).
Proof.
  intros. cbn [parseStringBody]. settle. reflexivity.
Qed.

Lemma parse_unicodeEscape c rest :
  c < 65536 ->
  parseStringBody (unicodeEscape c ++ rest)
  = consParsed c (parseStringBody rest).
Proof.
  intros Hc.
  destruct (escape_digits c Hc) as (d3 & d2 & d1 & d0 & -> & ? & ? & ? & ? & Ec).
  cbn [app parseStringBody]. settle.
  rewrite hex4_digits by assumption. rewrite <- Ec. reflexivity.
Qed.

Lemma parse_simpleEscape e u rest :
  e <> 117 -> simpleEscape e = Some u ->
  parseStringBody (92 :: e :: rest) = consParsed u (parseStringBody rest).
Proof.
  intros He Hs. cbn [parseStringBody]. settle. rewrite Hs. reflexivity.
Qed.

Lemma parse_quoteUnit c rest :
  c < 65536 ->
  parseStringBody (quoteUnit c ++ rest) = consParsed c (parseStringBody rest).
Proof.
  intros Hc. unfold quoteUnit.
  destruct (N.eqb_spec c 34) as [->|]; [apply parse_simpleEscape; [lia|reflexivity]|].
  destruct (N.eqb_spec c 92) as [->|]; [apply parse_simpleEscape; [lia|reflexivity]|].
  destruct (N.eqb_spec c 8) as [->|]; [apply parse_simpleEscape; [lia|reflexivity]|].
  destruct (N.eqb_spec c 9) as [->|]; [apply parse_simpleEscape; [lia|reflexivity]|].
  destruct (N.eqb_spec c 10) as [->|]; [apply parse_simpleEscape; [lia|reflexivity]|].
  destruct (N.eqb_spec c 12) as [->|]; [apply parse_simpleEscape; [lia|reflexivity]|].
  destruct (N.eqb_spec c 13) as [->|]; [apply parse_simpleEscape; [lia|reflexivity]|].
  destruct (N.ltb_spec c 32); [apply parse_unicodeEscape; exact Hc|].
  destruct (isHighSurrogate c || isLowSurrogate c);
    [apply parse_unicodeEscape; exact Hc|].
  apply parse_verbatim; assumption.
Qed.

Lemma parseStringBody_quoteBody_upto (n : nat) (s rest : jsstring) :
  (length s <= n)%nat -> Forall code_unit s ->
  parseStringBody (quoteBody s ++ 34 :: rest) = Some (s, rest).
Proof.
  revert s. induction n as [|n IH]; intros s Hn Hs.
  - destruct s; [|cbn [length] in Hn |- *; lia]. cbn. reflexivity.
  - destruct s as [|c s']; [cbn; reflexivity|].
    inversion_clear Hs as [|? ? Hc Hs']. unfold code_unit in Hc.
    cbn [quoteBody].
    destruct (isHighSurrogate c) eqn:Hh.
    + apply surrogate_bounds in Hh.
      destruct s' as [|d s''].
      * rewrite parse_unicodeEscape by exact Hc. cbn. reflexivity.
      * destruct (isLowSurrogate d) eqn:Hl.
        -- apply surrogate_bounds in Hl.
           inversion_clear Hs' as [|? ? Hd Hs''].
           cbn [app]. rewrite parse_verbatim by lia.
           rewrite parse_verbatim by lia.
           rewrite IH; [reflexivity|cbn [length] in Hn |- *; lia|exact Hs''].
        -- rewrite <- app_assoc, parse_unicodeEscape by exact Hc.
           rewrite IH; [reflexivity|cbn [length] in Hn |- *; lia|exact Hs'].
    + rewrite <- app_assoc, parse_quoteUnit by exact Hc.
      rewrite IH; [reflexivity|cbn [length] in Hn |- *; lia|exact Hs'].
Qed.

(** The reader gives back the string that was written. *)
Lemma parseStringBody_quoteBody (s rest : jsstring) :
  Forall code_unit s ->
  parseStringBody (quoteBody s ++ 34 :: rest) = Some (s, rest).
Proof. apply (parseStringBody_quoteBody_upto (length s)). lia. Qed.

(** *** JSON: well-formed output *)

Lemma wellFormed_ascii s : Forall (fun c => c < 128) s -> wellFormed s.
Proof.
  induction 1 as [|c s Hc _ IH]; [constructor|].
  apply wf_unit; [lia| | |exact IH];
    unfold isHighSurrogate, isLowSurrogate; settle; reflexivity.
Qed.

Lemma wellFormed_unicodeEscape c : c < 65536 -> wellFormed (unicodeEscape c).
Proof.
  intros Hc.
  destruct (escape_digits c Hc) as (d3 & d2 & d1 & d0 & -> & ? & ? & ? & ? & _).
  apply wellFormed_ascii.
  pose proof (hexDigit_ascii d3). pose proof (hexDigit_ascii d2).
  pose proof (hexDigit_ascii d1). pose proof (hexDigit_ascii d0).
  repeat constructor; lia.
Qed.

Lemma wellFormed_quoteUnit c : c < 65536 -> wellFormed (quoteUnit c).
Proof.
  intros Hc. unfold quoteUnit.
  repeat match goal with
         | |- wellFormed (if ?a =? ?b then _ else _) =>
             destruct (a =? b);
             [apply wellFormed_ascii; repeat constructor; lia|]
         end.
  destruct (c <? 32); [apply wellFormed_unicodeEscape; exact Hc|].
  destruct (isHighSurrogate c) eqn:Hh;
    [apply wellFormed_unicodeEscape; exact Hc|].
  destruct (isLowSurrogate c) eqn:Hl;
    [apply wellFormed_unicodeEscape; exact Hc|].
  cbn [orb]. apply wf_unit; auto. constructor.
Qed.

Lemma wellFormed_quoteBody_upto (n : nat) (s : jsstring) :
  (length s <= n)%nat -> Forall code_unit s -> wellFormed (quoteBody s).
Proof.
  revert s. induction n as [|n IH]; intros s Hn Hs.
  - destruct s; [constructor|cbn [length] in Hn |- *; lia].
  - destruct s as [|c s']; [constructor|].
    inversion_clear Hs as [|? ? Hc Hs']. unfold code_unit in Hc.
    cbn [quoteBody].
    destruct (isHighSurrogate c) eqn:Hh.
    + destruct s' as [|d s''];
        [apply wellFormed_unicodeEscape; exact Hc|].
      destruct (isLowSurrogate d) eqn:Hl.
      * inversion_clear Hs' as [|? ? Hd Hs''].
        apply wf_pair; auto. apply IH; [cbn [length] in Hn |- *; lia|exact Hs''].
      * apply wellFormed_app; [apply wellFormed_unicodeEscape; exact Hc|].
        apply IH; [cbn [length] in Hn |- *; lia|exact Hs'].
    + apply wellFormed_app; [apply wellFormed_quoteUnit; exact Hc|].
      apply IH; [cbn [length] in Hn |- *; lia|exact Hs'].
Qed.

Lemma wellFormed_quoteJSON s : Forall code_unit s -> wellFormed (quoteJSON s).
Proof.
  intros Hs. unfold quoteJSON.
  change (34 :: quoteBody s ++ [34]) with ([34] ++ quoteBody s ++ [34]).
  repeat apply wellFormed_app.
  - apply wellFormed_ascii. repeat constructor; lia.
  - apply (wellFormed_quoteBody_upto (length s)); [lia|exact Hs].
  - apply wellFormed_ascii. repeat constructor; lia.
Qed.

(** *** JSON: numbers *)

Lemma digitsOfUint_digits u : Forall (fun c => 48 <= c <= 57) (digitsOfUint u).
Proof. induction u; cbn [digitsOfUint]; constructor; (lia || assumption). Qed.

(** The run of digits that was written is the run that is read. *)
Lemma lexDigits_digitsOfUint u c rest :
  isDigit c = false ->
  lexDigits (digitsOfUint u ++ c :: rest) = (u, c :: rest).
Proof.
  intros Hc. induction u; cbn [digitsOfUint app lexDigits];
    [rewrite Hc; reflexivity|..];
    rewrite IHu; unfold isDigit, digitOfChar; settle; reflexivity.
Qed.

(** The decimal form of an integer has a digit, and no zero in front of
    another digit. *)
Lemma to_int_shape z :
  match Z.to_int z with
  | Decimal.Pos u | Decimal.Neg u => u <> Nil /\ leadingZero u = false
  end.
Proof.
  assert (Hn : Z.to_int z = norm (Z.to_int z)).
  { rewrite <- (DecimalZ.of_to z) at 1. apply DecimalZ.to_of. }
  assert (Hnz : forall u, nzhead u <> Nil ->
                          nzhead u <> Nil /\ leadingZero (nzhead u) = false).
  { intros u Hu. split; [exact Hu|].
    pose proof (nzhead_nonzero u) as H0.
    destruct (nzhead u) as [|d| | | | | | | | | ]; try reflexivity.
    exfalso. apply (H0 d). reflexivity. }
  destruct (Z.to_int z) as [u|u]; cbn [norm] in Hn.
  - injection Hn as Hn. unfold unorm in Hn.
    destruct (nzhead u) eqn:E;
      first [ rewrite Hn; split; [discriminate|reflexivity]
            | rewrite Hn, <- E; apply Hnz; rewrite E; discriminate ].
  - destruct (nzhead u) eqn:E; [discriminate|..];
      injection Hn as Hn; rewrite Hn, <- E; apply Hnz; rewrite E; discriminate.
Qed.

Lemma parseNumber_digits (neg : bool) u rest :
  u <> Nil -> leadingZero u = false ->
  parseNumber ((if neg then [45] else []) ++ digitsOfUint u ++ 44 :: rest)
  = Some (JNum (if neg then - Z.of_uint u else Z.of_uint u)%Z, 44 :: rest).
Proof.
  intros Hu Hz. unfold parseNumber.
  assert (Hd : lexDigits (digitsOfUint u ++ 44 :: rest) = (u, 44 :: rest))
    by (apply lexDigits_digitsOfUint; reflexivity).
  destruct neg; cbn [app].
  - settle. rewrite Hd. destruct u; [congruence|..]; rewrite Hz; settle;
      reflexivity.
  - pose proof (digitsOfUint_digits u) as Hall.
    destruct (digitsOfUint u) as [|c ds] eqn:E.
    + destruct u; discriminate || congruence.
    + inversion_clear Hall as [|? ? Hc _]. cbn [app] in *. settle.
      rewrite Hd. destruct u; [congruence|..]; rewrite Hz; settle;
        reflexivity.
Qed.

Lemma parseNumber_numberToString z rest :
  parseNumber (numberToString z ++ 44 :: rest) = Some (JNum z, 44 :: rest).
Proof.
  pose proof (to_int_shape z) as Hs. pose proof (DecimalZ.of_to z) as Hz.
  unfold numberToString. destruct (Z.to_int z) as [u|u]; destruct Hs as [Hu Hl].
  - pose proof (parseNumber_digits false u rest Hu Hl) as Hp.
    cbn [app] in Hp. rewrite Hp. cbn [Z.of_int] in Hz.
    rewrite Hz. reflexivity.
  - pose proof (parseNumber_digits true u rest Hu Hl) as Hp.
    cbn [app] in Hp |- *. rewrite Hp. cbn [Z.of_int] in Hz.
    rewrite Hz. reflexivity.
Qed.

Lemma numberToString_head z :
  exists c s, numberToString z = c :: s /\ (c = 45 \/ 48 <= c <= 57)
              /\ Forall (fun c => c < 128) (c :: s).
Proof.
  pose proof (to_int_shape z) as Hs. unfold numberToString.
  destruct (Z.to_int z) as [u|u]; destruct Hs as [Hu _];
    pose proof (digitsOfUint_digits u) as Hall.
  - destruct (digitsOfUint u) as [|c ds] eqn:E;
      [destruct u; discriminate || congruence|].
    exists c, ds. split; [reflexivity|].
    inversion Hall; subst. split; [lia|].
    eapply Forall_impl; [exact Hall|]. cbn. intros; lia.
  - exists 45, (digitsOfUint u). split; [reflexivity|]. split; [lia|].
    constructor; [lia|]. eapply Forall_impl; [exact Hall|]. cbn. intros; lia.
Qed.

(** *** JSON: the cursor record *)

Lemma parseValue_string fuel s rest :
  Forall code_unit s ->
  parseValue (S fuel) (quoteJSON s ++ rest) = Some (JStr s, rest).
Proof.
  intros Hs. unfold quoteJSON. cbn [app parseValue skipWs].
  unfold isJsonSpace. settle. rewrite <- app_assoc. cbn [app].
  rewrite parseStringBody_quoteBody by exact Hs. reflexivity.
Qed.

(** The text of a scalar, followed by a comma, reads as the scalar. *)
Lemma parseValue_scalar fuel v rest :
  match v with SStr s => Forall code_unit s | _ => True end ->
  parseValue (S fuel) (stringifyScalar v ++ 44 :: rest)
  = Some (ofScalar v, 44 :: rest).
Proof.
  intros Hv. destruct v as [|[|]|z|s]; cbn [stringifyScalar ofScalar].
  - vm_compute (js "null"). cbn [app parseValue skipWs].
    unfold isJsonSpace. settle. reflexivity.
  - vm_compute (js "true"). cbn [app parseValue skipWs].
    unfold isJsonSpace. settle. reflexivity.
  - vm_compute (js "false"). cbn [app parseValue skipWs].
    unfold isJsonSpace. settle. reflexivity.
  - destruct (numberToString_head z) as (c & s & E & Hc & _).
    pose proof (parseNumber_numberToString z rest) as Hp.
    rewrite E in Hp |- *. cbn [app] in Hp |- *. cbn [parseValue skipWs].
    unfold isJsonSpace. destruct Hc as [-> | Hc]; settle; exact Hp.
  - apply parseValue_string. exact Hv.
Qed.

(** A member that is followed by another one. *)
Lemma parseMembers_more fuel k v vtext rest :
  Forall code_unit k ->
  parseValue fuel (vtext ++ 44 :: rest) = Some (v, 44 :: rest) ->
  parseMembers (S fuel) (quoteJSON k ++ 58 :: vtext ++ 44 :: rest)
  = match parseMembers fuel rest with
    | Some (l, r) => Some ((k, v) :: l, r)
    | None => None
    end.
Proof.
  intros Hk Hv. unfold quoteJSON. cbn [app parseMembers skipWs].
  unfold isJsonSpace. settle. rewrite <- app_assoc. cbn [app].
  rewrite parseStringBody_quoteBody by exact Hk.
  cbn [skipWs]. unfold isJsonSpace. settle. rewrite Hv.
  cbn [skipWs]. unfold isJsonSpace. settle. reflexivity.
Qed.

(** The last member. *)
Lemma parseMembers_last fuel k v vtext rest :
  Forall code_unit k ->
  parseValue fuel (vtext ++ 125 :: rest) = Some (v, 125 :: rest) ->
  parseMembers (S fuel) (quoteJSON k ++ 58 :: vtext ++ 125 :: rest)
  = Some ([(k, v)], rest).
Proof.
  intros Hk Hv. unfold quoteJSON. cbn [app parseMembers skipWs].
  unfold isJsonSpace. settle. rewrite <- app_assoc. cbn [app].
  rewrite parseStringBody_quoteBody by exact Hk.
  cbn [skipWs]. unfold isJsonSpace. settle. rewrite Hv.
  cbn [skipWs]. unfold isJsonSpace. settle. reflexivity.
Qed.

Lemma parseValue_object fuel k rest :
  parseValue (S fuel) (123 :: quoteJSON k ++ rest)
  = match parseMembers fuel (quoteJSON k ++ rest) with
    | Some (l, r) => Some (JObj (normalizeMembers l), r)
    | None => None
    end.
Proof.
  unfold quoteJSON. cbn [app parseValue skipWs].
  unfold isJsonSpace. settle. cbn [skipWs]. unfold isJsonSpace. settle.
  reflexivity.
Qed.

(** The text of a cursor record, member by member. *)
Lemma stringifyCursor_members field v operator :
  stringifyCursor field (Own v) operator
  = 123 :: quoteJSON (js "field") ++ 58 :: quoteJSON field ++ 44 ::
      quoteJSON (js "value") ++ 58 :: stringifyScalar v ++ 44 ::
      quoteJSON (js "operator") ++ 58 :: quoteJSON operator ++ [125].
Proof.
  unfold stringifyCursor. cbn [stringifyMember].
  change (js "{") with [123]. change (js ":") with [58].
  change (js ",") with [44]. change (js "}") with [125].
  rewrite <- !app_assoc. reflexivity.
Qed.

Lemma code_units_ascii s : Forall (fun c => c < 128) s -> Forall code_unit s.
Proof.
  intros H. eapply Forall_impl; [exact H|]. unfold code_unit. cbn. intros; lia.
Qed.

Lemma cursorOperator_ascii op :
  cursorOperator op -> Forall (fun c => c < 128) op.
Proof.
  unfold cursorOperator. cbn.
  intros [<-|[<-|[<-|[<-|[]]]]]; repeat constructor.
Qed.

Lemma parseValue_cursor fuel field v operator :
  Forall code_unit field -> serializable v -> Forall code_unit operator ->
  parseValue (S (S (S (S (S fuel))))) (stringifyCursor field (Own v) operator)
  = Some (cursorRecord field (ofScalar v) operator, []).
Proof.
  intros Hf Hv Ho. rewrite stringifyCursor_members.
  assert (Hkey : forall k, Forall (fun c => c < 128) (js k) ->
                           Forall code_unit (js k))
    by (intros; apply code_units_ascii; assumption).
  rewrite parseValue_object.
  rewrite (parseMembers_more _ (js "field") (JStr field));
    [|apply Hkey; repeat constructor|apply parseValue_string; exact Hf].
  rewrite (parseMembers_more _ (js "value") (ofScalar v));
    [|apply Hkey; repeat constructor|apply parseValue_scalar; exact Hv].
  rewrite (parseMembers_last _ (js "operator") (JStr operator));
    [|apply Hkey; repeat constructor|apply parseValue_string; exact Ho].
  unfold cursorRecord, normalizeMembers.
  cbn [fold_left objSet fst snd].
  replace (jsstring_eqb (js "value") (js "field")) with false
    by (vm_compute; reflexivity).
  replace (jsstring_eqb (js "operator") (js "field")) with false
    by (vm_compute; reflexivity).
  cbn [objSet].
  replace (jsstring_eqb (js "operator") (js "value")) with false
    by (vm_compute; reflexivity).
  reflexivity.
Qed.

(** [JSON.parse] reads the record that [JSON.stringify] wrote. *)
Lemma JSON_parse_stringifyCursor field v operator :
  Forall code_unit field -> serializable v -> Forall code_unit operator ->
  JSON_parse (stringifyCursor field (Own v) operator)
  = Some (cursorRecord field (ofScalar v) operator).
Proof.
  intros Hf Hv Ho. unfold JSON_parse.
  assert (Hlen : exists n, (2 * length (stringifyCursor field (Own v) operator)
                            + 2 = S (S (S (S (S n)))))%nat).
  { assert (Hl : (2 <= length (stringifyCursor field (Own v) operator))%nat).
    { rewrite stringifyCursor_members. unfold quoteJSON.
      cbn [length app]. lia. }
    exists (2 * length (stringifyCursor field (Own v) operator) + 2 - 5)%nat.
    lia. }
  destruct Hlen as [n ->].
  rewrite parseValue_cursor by assumption. reflexivity.
Qed.

Lemma wellFormed_stringifyScalar v :
  serializable v -> wellFormed (stringifyScalar v).
Proof.
  destruct v as [|[|]|z|s]; cbn [stringifyScalar serializable]; intros Hv.
  - apply wellFormed_ascii. repeat constructor.
  - apply wellFormed_ascii. repeat constructor.
  - apply wellFormed_ascii. repeat constructor.
  - destruct (numberToString_head z) as (c & s & -> & _ & Ha).
    apply wellFormed_ascii. exact Ha.
  - apply wellFormed_quoteJSON. exact Hv.
Qed.

Lemma wellFormed_stringifyCursor field v operator :
  Forall code_unit field -> serializable v -> Forall code_unit operator ->
  wellFormed (stringifyCursor field (Own v) operator).
Proof.
  intros Hf Hv Ho. unfold stringifyCursor. cbn [stringifyMember].
  assert (Hlit : forall s, Forall (fun c => c < 128) (js s) ->
                           wellFormed (js s))
    by (intros; apply wellFormed_ascii; assumption).
  assert (Hkey : forall k, Forall (fun c => c < 128) (js k) ->
                           wellFormed (quoteJSON (js k)))
    by (intros; apply wellFormed_quoteJSON, code_units_ascii; assumption).
  repeat apply wellFormed_app;
    first [ apply wellFormed_quoteJSON; assumption
          | apply wellFormed_stringifyScalar; assumption
          | apply Hkey; repeat constructor
          | apply Hlit; repeat constructor ].
Qed.

(** Decoding the token of a record gives the record. *)
Lemma decodeToken_encodeCursor field v operator :
  Forall code_unit field -> serializable v -> Forall code_unit operator ->
  decodeToken (encodeCursor field (Own v) operator)
  = Some (cursorRecord field (ofScalar v) operator).
Proof.
  intros Hf Hv Ho. unfold decodeToken, encodeCursor.
  destruct (utf8_roundtrip _ (wellFormed_stringifyCursor field v operator
                                Hf Hv Ho)) as [Hb Hd].
  rewrite base64_roundtrip by exact Hb. rewrite Hd.
  apply JSON_parse_stringifyCursor; assumption.
Qed.

Lemma decodeCursor_token token v :
  token <> [] -> v <> JNull -> decodeToken token = Some v ->
  decodeCursor (Some token) = Some v.
Proof.
  intros Ht Hv Hd. destruct token; [congruence|].
  unfold decodeCursor. rewrite Hd. destruct v; congruence.
Qed.



(** The token of the row with [id] 2, as the platform writes it. *)
Example token_of_id_2 :
  generateNextCursor (Some {[ js "id" := SNum 2 ]}) (js "id")
  = Some (js "eyJmaWVsZCI6ImlkIiwidmFsdWUiOjIsIm9wZXJhdG9yIjoiPiJ9").
Proof. vm_compute. reflexivity. Qed.

Local Open Scope Z_scope.

(** ** The accumulators of the other aggregations *)

Section Accumulator.

(** One aggregation, listed once: what a row does to its accumulator. *)
Variable field : jsstring.
Variable op : operation.

Let key := aggKey op field.

Lemma feedAggregation_lookup r acc acc' :
  acc !! key = acc' !! key ->
  feedAggregation r acc (Aggregation field op) !! key
  = feedAggregation r acc' (Aggregation field op) !! key.
Proof.
  intros H. unfold feedAggregation. cbn [agg_field agg_operation]. fold key.
  rewrite <- H.
  destruct (rowGet r field) as [[[ | b | z | t] | | ]|]; try exact H;
    destruct op; destruct (acc !! key) as [[a|l]|] eqn:E; try exact H;
    repeat match goal with
           | |- context [if ?c then _ else _] => destruct c
           end; try congruence; rewrite !lookup_insert_eq; reflexivity.
Qed.

Lemma feedRow_single aggs r acc :
  listed field op aggs = 1%nat ->
  feedRow aggs acc r !! key
  = feedAggregation r acc (Aggregation field op) !! key.
Proof.
  unfold feedRow. revert acc.
  induction aggs as [|a aggs IH]; intros acc Hl; [discriminate|].
  rewrite listed_cons in Hl. cbn [fold_left].
  destruct (decide (a = Aggregation field op)) as [->|Hne].
  - injection Hl as Hl.
    apply (fold_other field op (feedAggregation r)
             (fun a => a <> Aggregation field op)).
    + intros. apply feedAggregation_other. assumption.
    + apply listed_zero. exact Hl.
  - rewrite IH by exact Hl. apply feedAggregation_lookup.
    apply feedAggregation_other. exact Hne.
Qed.

(** The accumulator after the rows, for an invariant [P] of the
    accumulator and the rows fed so far. *)
Lemma feedBatch_single (P : list row -> option accumulator -> Prop) aggs :
  listed field op aggs = 1%nat ->
  (forall rows r acc,
     P rows (acc !! key) ->
     P (rows ++ [r])
       (feedAggregation r acc (Aggregation field op) !! key)) ->
  forall rows acc,
    P [] (acc !! key) -> P rows (feedBatch aggs acc rows !! key).
Proof.
  intros Hl Hstep rows.
  induction rows as [|r rows IH] using rev_ind; intros acc H0; [exact H0|].
  unfold feedBatch. rewrite fold_left_app. cbn [fold_left].
  rewrite feedRow_single by exact Hl.
  apply Hstep. apply IH. exact H0.
Qed.

(** A listed aggregation starts with the accumulator of its operation. *)
Lemma initAggregation_single aggs acc :
  (0 < listed field op aggs)%nat ->
  fold_left initAggregation aggs acc !! key
  = initAggregation ∅ (Aggregation field op) !! key.
Proof.
  revert acc. induction aggs as [|a aggs IH]; intros acc Hl.
  - cbn in Hl. lia.
  - rewrite listed_cons in Hl. cbn [fold_left].
    destruct (decide (a = Aggregation field op)) as [->|Hne].
    + destruct (Nat.eq_dec (listed field op aggs) 0%nat) as [H0|H0].
      * rewrite (fold_other field op initAggregation
                   (fun a => a <> Aggregation field op)).
        -- unfold initAggregation, key. cbn [agg_field agg_operation].
           destruct op; rewrite !lookup_insert_eq; reflexivity.
        -- intros. apply initAggregation_other. assumption.
        -- apply listed_zero. exact H0.
      * apply IH. lia.
    + apply IH. exact Hl.
Qed.

End Accumulator.

Lemma valuesOf_app field rows rows' :
  valuesOf field (rows ++ rows') = valuesOf field rows ++ valuesOf field rows'.
Proof. apply omap_app. Qed.

Lemma numbersOf_app field rows rows' :
  numbersOf field (rows ++ rows') = numbersOf field rows ++ numbersOf field rows'.
Proof. apply omap_app. Qed.

Lemma numbersOf_snoc field rows r :
  numbersOf field (rows ++ [r])
  = numbersOf field rows
    ++ match rowGet r field with
       | Some (Own (SNum z)) => [z]
       | _ => []
       end.
Proof.
  rewrite numbersOf_app. f_equal. unfold numbersOf. cbn.
  destruct (rowGet r field) as [[[ | b | z | t] | | ]|]; reflexivity.
Qed.

Lemma valuesOf_snoc field rows r :
  valuesOf field (rows ++ [r])
  = valuesOf field rows
    ++ match rowGet r field with
       | None | Some (Own SNull) => []
       | Some value => [value]
       end.
Proof.
  rewrite valuesOf_app. f_equal. unfold valuesOf. cbn.
  destruct (rowGet r field) as [[[ | b | z | t] | | ]|]; reflexivity.
Qed.

Lemma countField_snoc field rows r :
  countField field (rows ++ [r])
  = countField field rows + (if hasValue field r then 1 else 0).
Proof.
  unfold countField. rewrite filter_app, length_app, filter_cons, filter_nil.
  destruct (decide (hasValue field r = true)) as [E|E].
  - rewrite E. cbn [length]. lia.
  - destruct (hasValue field r); [congruence|]. cbn [length]. lia.
Qed.

Lemma Qltb_lt x y : Qltb x y = true <-> (x < y)%Q.
Proof.
  unfold Qltb. rewrite negb_true_iff.
  destruct (Qle_bool y x) eqn:E.
  - apply Qle_bool_iff in E. split; [discriminate|].
    intros H. exfalso. apply (Qlt_not_le _ _ H). exact E.
  - split; [|reflexivity]. intros _. apply Qnot_le_lt. intros H.
    apply Qle_bool_iff in H. congruence.
Qed.

Lemma Qltb_ge x y : Qltb x y = false <-> (y <= x)%Q.
Proof.
  unfold Qltb. rewrite negb_false_iff. apply Qle_bool_iff.
Qed.

Section Run.

Variable db : Type.
Variable executeQuery : jsstring -> jsobject -> db -> (exn + queryResult) * db.

(** The accumulator of an aggregation that is listed once, at the end of
    the loop: an invariant of the accumulator and the rows fed so far
    that holds at the start and that every row keeps, holds for the rows
    that the run processed. *)
Lemma streamer_accumulator (args : streamerArgs) (w : world db) (fuel : nat)
    (summary : streamSummary) (w' : world db) (aggs : list aggregation)
    (field : jsstring) (op : operation)
    (P : list row -> option accumulator -> Prop) :
  sa_aggregations args = Some aggs ->
  listed field op aggs = 1%nat ->
  queryStreamerTool db executeQuery fuel args w = Some (Success summary, w') ->
  P [] (initAggregation ∅ (Aggregation field op) !! aggKey op field) ->
  (forall rows r acc,
     P rows (acc !! aggKey op field) ->
     P (rows ++ [r])
       (feedAggregation r acc (Aggregation field op) !! aggKey op field)) ->
  exists acc,
    P (processedRows w w') (acc !! aggKey op field)
    /\ ss_aggregations summary
       = fold_left (finalizeAggregation (ss_totalRows summary)) aggs acc.
Proof.
  intros Ha Hl Hq H0 Hstep.
  apply queryStreamerTool_summary in Hq as (st & Hr & Ht & Hs).
  rewrite Ha in Hs. exists (st_aggregationResults st).
  split; [|rewrite Ht; exact Hs].
  eapply streamerReach_rows in Hr as [Hacc _]; [|exact Ha].
  rewrite Hacc. apply feedBatch_single; [exact Hl|exact Hstep|].
  rewrite initAggregation_single by lia. exact H0.
Qed.

(** X1: in a run of [query_streamer] with the count of a field listed
    once among its aggregations, the count of the summary is the number of
    processed rows whose value in that field is neither [null] nor
    [undefined], whatever the type of the value; it is at most the total
    of processed rows. *)
Theorem query_streamer_count
    (args : streamerArgs) (w : world db) (fuel : nat)
    (summary : streamSummary) (w' : world db)
    (aggs : list aggregation) (field : jsstring) :
  sa_aggregations args = Some aggs ->
  listed field OpCount aggs = 1%nat ->
  queryStreamerTool db executeQuery fuel args w = Some (Success summary, w') ->
  ss_aggregations summary !! aggKey OpCount field
  = Some (ANum (inject_Z (countField field (processedRows w w'))))
  /\ countField field (processedRows w w') <= ss_totalRows summary.
Proof.
  intros Ha Hl Hq. split.
  - destruct (streamer_accumulator args w fuel summary w' aggs field OpCount
                (fun rows v =>
                   v = Some (ANum (inject_Z (countField field rows))))
                Ha Hl Hq) as (acc & Hacc & ->).
    + unfold initAggregation. cbn [agg_field agg_operation].
      rewrite lookup_insert_eq. reflexivity.
    + intros rows r acc Hacc. rewrite countField_snoc.
      unfold feedAggregation, hasValue. cbn [agg_field agg_operation].
      destruct (rowGet r field) as [[[ | b | z | t] | | ]|];
        rewrite ?Z.add_0_r; try exact Hacc;
        rewrite Hacc, lookup_insert_eq;
        change 1%Q with (inject_Z 1); rewrite Qplus_inject_Z; reflexivity.
    + rewrite finalize_fold_keeps by discriminate. exact Hacc.
  - apply queryStreamerTool_summary in Hq as (st & Hr & Ht & _).
    eapply streamerReach_rows in Hr as [_ Hn]; [|exact Ha].
    rewrite Ht, Hn. unfold countField.
    pose proof (length_filter (fun r => hasValue field r = true)
                  (processedRows w w')). lia.
Qed.

(** X2: in a run of [query_streamer] with the minimum of a field listed
    once among its aggregations, the minimum of the summary is the least
    of [Number.MAX_VALUE] and the numbers in that field of the processed
    rows; when no processed row has a number there, it is
    [Number.MAX_VALUE]. *)
Theorem query_streamer_min
    (args : streamerArgs) (w : world db) (fuel : nat)
    (summary : streamSummary) (w' : world db)
    (aggs : list aggregation) (field : jsstring) :
  sa_aggregations args = Some aggs ->
  listed field OpMin aggs = 1%nat ->
  queryStreamerTool db executeQuery fuel args w = Some (Success summary, w') ->
  exists m,
    ss_aggregations summary !! aggKey OpMin field = Some (ANum m)
    /\ (m = MAX_VALUE
        \/ exists z, z ∈ numbersOf field (processedRows w w')
                     /\ m = inject_Z z)
    /\ (m <= MAX_VALUE)%Q
    /\ (forall z, z ∈ numbersOf field (processedRows w w') ->
                  (m <= inject_Z z)%Q)
    /\ (numbersOf field (processedRows w w') = [] -> m = MAX_VALUE).
Proof.
  intros Ha Hl Hq.
  destruct (streamer_accumulator args w fuel summary w' aggs field OpMin
              (fun rows v =>
                 exists m,
                   v = Some (ANum m)
                   /\ (m = MAX_VALUE
                       \/ exists z, z ∈ numbersOf field rows
                                    /\ m = inject_Z z)
                   /\ (m <= MAX_VALUE)%Q
                   /\ (forall z, z ∈ numbersOf field rows ->
                                 (m <= inject_Z z)%Q))
              Ha Hl Hq) as (acc & (m & Hm & Hcase & Hle & Hall) & ->).
  - exists MAX_VALUE. unfold initAggregation. cbn [agg_field agg_operation].
    rewrite lookup_insert_eq. split; [reflexivity|]. split; [auto|].
    split; [apply Qle_refl|]. intros z Hz. inversion Hz.
  - intros rows r acc (m & Hm & Hcase & Hle & Hall).
    rewrite numbersOf_snoc. unfold feedAggregation.
    cbn [agg_field agg_operation].
    assert (Hkeep : exists m0,
              acc !! aggKey OpMin field = Some (ANum m0)
              /\ (m0 = MAX_VALUE
                  \/ exists z, z ∈ numbersOf field rows ++ [] /\ m0 = inject_Z z)
              /\ (m0 <= MAX_VALUE)%Q
              /\ (forall z, z ∈ numbersOf field rows ++ [] ->
                            (m0 <= inject_Z z)%Q)).
    { exists m. rewrite app_nil_r. auto. }
    destruct (rowGet r field) as [[[ | b | z | t] | | ]|];
      try exact Hkeep;
      rewrite Hm; try (exists m; rewrite app_nil_r; auto; fail). destruct (Qltb (inject_Z z) m) eqn:E.
    + apply Qltb_lt in E. exists (inject_Z z). rewrite lookup_insert_eq.
      split; [reflexivity|]. split.
      * right. exists z. split; [|reflexivity].
        apply elem_of_app. right. apply list_elem_of_singleton. reflexivity.
      * split; [eapply Qle_trans; [apply Qlt_le_weak; exact E|exact Hle]|].
        intros z' Hz'. apply elem_of_app in Hz' as [Hz'|Hz'].
        -- eapply Qle_trans; [apply Qlt_le_weak; exact E|]. apply Hall, Hz'.
        -- apply list_elem_of_singleton in Hz'. subst z'. apply Qle_refl.
    + apply Qltb_ge in E. exists m. split; [exact Hm|]. split.
      * destruct Hcase as [->|(z' & Hz' & ->)]; [auto|].
        right. exists z'. split; [|reflexivity].
        apply elem_of_app. left. exact Hz'.
      * split; [exact Hle|].
        intros z' Hz'. apply elem_of_app in Hz' as [Hz'|Hz'].
        -- apply Hall, Hz'.
        -- apply list_elem_of_singleton in Hz'. subst z'. exact E.
  - exists m. rewrite finalize_fold_keeps by discriminate.
    split; [exact Hm|]. split; [exact Hcase|]. split; [exact Hle|].
    split; [exact Hall|]. intros Hnil.
    destruct Hcase as [->|(z & Hz & _)]; [reflexivity|].
    rewrite Hnil in Hz. inversion Hz.
Qed.

(** X3: in a run of [query_streamer] with the maximum of a field listed
    once among its aggregations, the maximum of the summary is the
    greatest of [Number.MIN_VALUE], the smallest number above zero, and
    the numbers in that field of the processed rows; so when none of
    these numbers is above zero, it is [Number.MIN_VALUE] and none of
    them. *)
Theorem query_streamer_max
    (args : streamerArgs) (w : world db) (fuel : nat)
    (summary : streamSummary) (w' : world db)
    (aggs : list aggregation) (field : jsstring) :
  sa_aggregations args = Some aggs ->
  listed field OpMax aggs = 1%nat ->
  queryStreamerTool db executeQuery fuel args w = Some (Success summary, w') ->
  exists m,
    ss_aggregations summary !! aggKey OpMax field = Some (ANum m)
    /\ (m = MIN_VALUE
        \/ exists z, z ∈ numbersOf field (processedRows w w')
                     /\ m = inject_Z z)
    /\ (MIN_VALUE <= m)%Q
    /\ (forall z, z ∈ numbersOf field (processedRows w w') ->
                  (inject_Z z <= m)%Q)
    /\ ((forall z, z ∈ numbersOf field (processedRows w w') -> z <= 0) ->
        m = MIN_VALUE).
Proof.
  intros Ha Hl Hq.
  destruct (streamer_accumulator args w fuel summary w' aggs field OpMax
              (fun rows v =>
                 exists m,
                   v = Some (ANum m)
                   /\ (m = MIN_VALUE
                       \/ exists z, z ∈ numbersOf field rows
                                    /\ m = inject_Z z)
                   /\ (MIN_VALUE <= m)%Q
                   /\ (forall z, z ∈ numbersOf field rows ->
                                 (inject_Z z <= m)%Q))
              Ha Hl Hq) as (acc & (m & Hm & Hcase & Hle & Hall) & ->).
  - exists MIN_VALUE. unfold initAggregation. cbn [agg_field agg_operation].
    rewrite lookup_insert_eq. split; [reflexivity|]. split; [auto|].
    split; [apply Qle_refl|]. intros z Hz. inversion Hz.
  - intros rows r acc (m & Hm & Hcase & Hle & Hall).
    rewrite numbersOf_snoc. unfold feedAggregation.
    cbn [agg_field agg_operation].
    assert (Hkeep : exists m0,
              acc !! aggKey OpMax field = Some (ANum m0)
              /\ (m0 = MIN_VALUE
                  \/ exists z, z ∈ numbersOf field rows ++ [] /\ m0 = inject_Z z)
              /\ (MIN_VALUE <= m0)%Q
              /\ (forall z, z ∈ numbersOf field rows ++ [] ->
                            (inject_Z z <= m0)%Q)).
    { exists m. rewrite app_nil_r. auto. }
    destruct (rowGet r field) as [[[ | b | z | t] | | ]|];
      try exact Hkeep;
      rewrite Hm; try (exists m; rewrite app_nil_r; auto; fail).
    destruct (Qltb m (inject_Z z)) eqn:E.
    + apply Qltb_lt in E. exists (inject_Z z). rewrite lookup_insert_eq.
      split; [reflexivity|]. split.
      * right. exists z. split; [|reflexivity].
        apply elem_of_app. right. apply list_elem_of_singleton. reflexivity.
      * split; [eapply Qle_trans; [exact Hle|apply Qlt_le_weak; exact E]|].
        intros z' Hz'. apply elem_of_app in Hz' as [Hz'|Hz'].
        -- eapply Qle_trans; [apply Hall, Hz'|apply Qlt_le_weak; exact E].
        -- apply list_elem_of_singleton in Hz'. subst z'. apply Qle_refl.
    + apply Qltb_ge in E. exists m. split; [exact Hm|]. split.
      * destruct Hcase as [->|(z' & Hz' & ->)]; [auto|].
        right. exists z'. split; [|reflexivity].
        apply elem_of_app. left. exact Hz'.
      * split; [exact Hle|].
        intros z' Hz'. apply elem_of_app in Hz' as [Hz'|Hz'].
        -- apply Hall, Hz'.
        -- apply list_elem_of_singleton in Hz'. subst z'. exact E.
  - exists m. rewrite finalize_fold_keeps by discriminate.
    split; [exact Hm|]. split; [exact Hcase|]. split; [exact Hle|].
    split; [exact Hall|]. intros Hneg.
    destruct Hcase as [->|(z & Hz & ->)]; [reflexivity|].
    exfalso. apply Hneg in Hz.
    assert (H0 : (0 < MIN_VALUE)%Q) by reflexivity.
    assert (Hz0 : (inject_Z z <= 0)%Q).
    { change 0%Q with (inject_Z 0). rewrite <- Zle_Qle. exact Hz. }
    apply (Qlt_not_le _ _ H0). eapply Qle_trans; [exact Hle|exact Hz0].
Qed.

Lemma finalize_fold_distinct field total aggs acc values :
  listed field OpCountDistinct aggs = 1%nat ->
  acc !! aggKey OpCountDistinct field = Some (ASet values) ->
  fold_left (finalizeAggregation total) aggs acc
    !! aggKey OpCountDistinct field
  = Some (ANum (inject_Z (Z.of_nat (length values)))).
Proof.
  revert acc. induction aggs as [|x aggs IH]; intros acc Hl Hacc.
  - discriminate.
  - rewrite listed_cons in Hl. cbn [fold_left].
    destruct (decide (x = Aggregation field OpCountDistinct)) as [->|Hne].
    + injection Hl as Hl.
      rewrite (fold_other field OpCountDistinct (finalizeAggregation total)
                 (fun a => a <> Aggregation field OpCountDistinct)).
      * unfold finalizeAggregation. cbn [agg_field agg_operation].
        rewrite Hacc. apply lookup_insert_eq.
      * intros. apply finalizeAggregation_other. assumption.
      * apply listed_zero. exact Hl.
    + apply IH; [exact Hl|].
      rewrite finalizeAggregation_other; assumption.
Qed.

(** X4: in a run of [query_streamer] with the distinct count of a field
    listed once among its aggregations, the count of the summary is the
    number of different values, [null] and [undefined] apart, in that
    field of the processed rows. *)
Theorem query_streamer_countDistinct
    (args : streamerArgs) (w : world db) (fuel : nat)
    (summary : streamSummary) (w' : world db)
    (aggs : list aggregation) (field : jsstring) :
  sa_aggregations args = Some aggs ->
  listed field OpCountDistinct aggs = 1%nat ->
  queryStreamerTool db executeQuery fuel args w = Some (Success summary, w') ->
  ss_aggregations summary !! aggKey OpCountDistinct field
  = Some (ANum (inject_Z (Z.of_nat
       (length (remove_dups (valuesOf field (processedRows w w'))))))).
Proof.
  intros Ha Hl Hq.
  destruct (streamer_accumulator args w fuel summary w' aggs field
              OpCountDistinct
              (fun rows v =>
                 exists values,
                   v = Some (ASet values)
                   /\ NoDup values
                   /\ (forall x, x ∈ values <-> x ∈ valuesOf field rows))
              Ha Hl Hq) as (acc & (values & Hv & Hnd & Hel) & ->).
  - exists []. unfold initAggregation. cbn [agg_field agg_operation].
    rewrite lookup_insert_eq. split; [reflexivity|].
    split; [constructor|]. intros x. reflexivity.
  - intros rows r acc (values & Hv & Hnd & Hel).
    rewrite valuesOf_snoc. unfold feedAggregation.
    cbn [agg_field agg_operation].
    assert (Hadd : forall value,
              exists values',
                <[aggKey OpCountDistinct field := ASet (setAdd value values)]>
                  acc !! aggKey OpCountDistinct field = Some (ASet values')
                /\ NoDup values'
                /\ (forall x, x ∈ values'
                              <-> x ∈ valuesOf field rows ++ [value])).
    { intros value. exists (setAdd value values). rewrite lookup_insert_eq.
      split; [reflexivity|]. unfold setAdd.
      destruct (bool_decide (value ∈ values)) eqn:E.
      - apply bool_decide_eq_true in E. split; [exact Hnd|].
        intros x. rewrite elem_of_app, list_elem_of_singleton, Hel.
        split; [auto|]. intros [H| ->]; [exact H|]. apply Hel, E.
      - apply bool_decide_eq_false in E. split.
        + apply NoDup_app. split; [exact Hnd|]. split.
          * intros x Hx Hx'. apply list_elem_of_singleton in Hx'. subst x.
            exact (E Hx).
          * apply NoDup_singleton.
        + intros x. rewrite !elem_of_app, Hel. reflexivity. }
    assert (Hkeep : exists values',
              acc !! aggKey OpCountDistinct field = Some (ASet values')
              /\ NoDup values'
              /\ (forall x, x ∈ values' <-> x ∈ valuesOf field rows ++ [])).
    { exists values. rewrite app_nil_r. auto. }
    destruct (rowGet r field) as [[[ | b | z | t] | | ]|];
      try exact Hkeep; rewrite Hv; apply Hadd.
  - rewrite (finalize_fold_distinct _ _ _ _ values Hl Hv).
    do 4 f_equal. apply Permutation_length.
    apply NoDup_Permutation; [exact Hnd|apply NoDup_remove_dups|].
    intros x. rewrite Hel, elem_of_remove_dups. reflexivity.
Qed.

End Run.

(** ** The bookkeeping of the streaming loop *)

(** The statement that [paginateQuery] returns does not depend on the
    store. *)
Lemma paginateQuery_sql_empty sql o h :
  paginatedSql (fst (paginateQuery sql o h))
  = paginatedSql (fst (paginateQuery sql o ∅)).
Proof.
  unfold paginateQuery.
  destruct (opt_parameters o); cbn [alloc];
    repeat match goal with
           | |- context [match ?x with _ => _ end] =>
               lazymatch x with
               | context [match _ with _ => _ end] => fail
               | _ => destruct x
               end
           end; reflexivity.
Qed.

Lemma paginateQuery_sql sql o h h' :
  paginatedSql (fst (paginateQuery sql o h))
  = paginatedSql (fst (paginateQuery sql o h')).
Proof.
  rewrite (paginateQuery_sql_empty sql o h), (paginateQuery_sql_empty sql o h').
  reflexivity.
Qed.

Section Bookkeeping.

Variable db : Type.
Variable executeQuery : jsstring -> jsobject -> db -> (exn + queryResult) * db.
Variable sql : jsstring.
Variable batchSize maxRows : Z.
Variable parameters : positive.
Variable outputType : outputKind.
Variable aggregations : option (list aggregation).
Variable effectiveCursorField defaultCursorField : jsstring.

Let step := streamStep db executeQuery sql batchSize maxRows parameters
              outputType aggregations effectiveCursorField
              defaultCursorField.
Let loop := streamLoop db executeQuery sql batchSize maxRows parameters
              outputType aggregations effectiveCursorField
              defaultCursorField.
Let reach := loopReach db executeQuery sql batchSize maxRows parameters
               outputType aggregations effectiveCursorField
               defaultCursorField.
Let after := afterBatch batchSize maxRows outputType aggregations
               effectiveCursorField.


(** A turn of the loop in full: the call it makes, with the statement of
    the batch for the cursor of the state. *)
Lemma streamStep_call st w st' w' :
  step st w = (inr st', w') ->
  exists c result,
    w_calls w' = c :: w_calls w
    /\ call_outcome c = inr result
    /\ (exists q p d d', executeQuery q p d = (inr result, d'))
    /\ call_sql c
       = paginatedSql (fst (paginateQuery sql
           (Options (Some effectiveCursorField) (Some batchSize)
              (st_cursor st) (Some parameters) (Some defaultCursorField))
           (w_heap w)))
    /\ st' = after st (callRows c).
Proof.
  unfold step, streamStep, paginate, execute.
  destruct (paginateQuery _ _ _) as [q h]. cbn [w_heap w_db w_calls fst].
  destruct (executeQuery _ _ _) as [[err|result] d] eqn:He; [discriminate|].
  intros [= <- <-]. eexists _, result.
  split; [reflexivity|]. split; [reflexivity|]. split; [eauto|].
  split; reflexivity.
Qed.

Lemma loopReach_bookkeeping st0 w0 st w :
  reach st0 w0 st w ->
  (length (w_calls w0) <= length (w_calls w))%nat
  /\ st_batchCount st
     = st_batchCount st0
       + Z.of_nat (length (w_calls w) - length (w_calls w0))
  /\ st_allResults st
     = st_allResults st0
       ++ match outputType with
          | OutJson => processedRows w0 w
          | _ => []
          end
  /\ Forall (fun c => exists result, call_outcome c = inr result)
       (firstn (length (w_calls w) - length (w_calls w0)) (w_calls w)).
Proof.
  unfold reach. induction 1 as [|st1 w1 st2 w2 Hr IH Hg Hs].
  - rewrite Nat.sub_diag. unfold processedRows.
    rewrite Nat.sub_diag, take_0. cbn.
    split; [lia|]. split; [lia|]. split; [|constructor].
    destruct outputType; rewrite app_nil_r; reflexivity.
  - destruct IH as (Hlen & Hcount & Hres & Hok).
    apply streamStep_call in Hs as (c & result & Hc & Hout & _ & _ & ->).
    assert (Hrows : processedRows w0 w2
                    = processedRows w0 w1 ++ callRows c).
    { unfold processedRows. rewrite Hc. cbn [length].
      replace (S (length (w_calls w1)) - length (w_calls w0))%nat
        with (S (length (w_calls w1) - length (w_calls w0))) by lia.
      cbn [firstn rev]. rewrite map_app, concat_app. cbn.
      rewrite app_nil_r. reflexivity. }
    rewrite Hc. cbn [length].
    replace (S (length (w_calls w1)) - length (w_calls w0))%nat
      with (S (length (w_calls w1) - length (w_calls w0))) by lia.
    split; [lia|]. split; [|split].
    + unfold after, afterBatch. cbn [st_batchCount]. rewrite Hcount. lia.
    + unfold after, afterBatch. cbn [st_allResults]. rewrite Hrows, Hres.
      destruct outputType; rewrite ?app_nil_r, ?app_assoc; reflexivity.
    + cbn [firstn]. constructor; [eauto|exact Hok].
Qed.

(** The loop that ends with an error has just made the call that
    failed with it. *)
Lemma streamLoop_error fuel st w err w' :
  loop fuel st w = Some (inl err, w') ->
  exists c, head (w_calls w') = Some c /\ call_outcome c = inl err.
Proof.
  unfold loop. revert st w.
  induction fuel as [|fuel IH]; intros st w; cbn;
    destruct (loopGuard maxRows st); try discriminate.
  destruct (streamStep _ _ _ _ _ _ _ _ _ _ _ _) as [[e|st1] w1] eqn:Hs.
  - intros [= <- <-]. unfold streamStep, paginate, execute in Hs.
    destruct (paginateQuery _ _ _) as [q h].
    cbn [w_heap w_db w_calls] in Hs.
    destruct (executeQuery _ _ _) as [[e'|result] d]; [|discriminate].
    injection Hs as <- <-. eexists. split; reflexivity.
  - apply IH.
Qed.

(** When no row that comes back has the cursor field, no cursor is ever
    made: every batch is fetched with the statement of the first one. *)
Lemma loopReach_without_cursor st0 w0 st w :
  (forall q p d out d',
     executeQuery q p d = (inr out, d') ->
     Forall (fun r => rowGet r effectiveCursorField = None)
       (default [] (recordset out))) ->
  st_cursor st0 = None ->
  reach st0 w0 st w ->
  st_cursor st = None
  /\ Forall (fun c =>
       call_sql c
       = paginatedSql (fst (paginateQuery sql
           (Options (Some effectiveCursorField) (Some batchSize) None
              (Some parameters) (Some defaultCursorField)) ∅)))
       (firstn (length (w_calls w) - length (w_calls w0)) (w_calls w)).
Proof.
  intros Hport H0. unfold reach.
  induction 1 as [|st1 w1 st2 w2 Hr IH Hg Hs].
  - rewrite Nat.sub_diag, take_0. split; [exact H0|constructor].
  - destruct IH as (Hcur & Hall).
    pose proof (loopReach_bookkeeping _ _ _ _ Hr) as (Hlen & _).
    apply streamStep_call in Hs
      as (c & result & Hc & Hout & (q & p & d & d' & He) & Hsql & ->).
    assert (Hcrows : Forall (fun r => rowGet r effectiveCursorField = None)
                       (callRows c)).
    { unfold callRows. rewrite Hout. eapply Hport. exact He. }
    split.
    + unfold after, afterBatch. cbn [st_cursor].
      destruct (_ && _); [|exact Hcur].
      unfold generateNextCursor.
      destruct (callRows c !! _) as [r|] eqn:Hr'; [|reflexivity].
      destruct effectiveCursorField as [|x f] eqn:Hf; [reflexivity|].
      rewrite Forall_forall in Hcrows.
      rewrite (Hcrows r); [reflexivity|].
      eapply list_elem_of_lookup_2. exact Hr'.
    + rewrite Hc. cbn [length].
      replace (S (length (w_calls w1)) - length (w_calls w0))%nat
        with (S (length (w_calls w1) - length (w_calls w0))) by lia.
      cbn [firstn]. constructor; [|exact Hall].
      rewrite Hsql, Hcur. apply paginateQuery_sql.
Qed.

End Bookkeeping.

Lemma paginateQuery_sql_parameters sql f n c p p' d h h' :
  paginatedSql (fst (paginateQuery sql (Options f n c p d) h))
  = paginatedSql (fst (paginateQuery sql (Options f n c p' d) h')).
Proof.
  unfold paginateQuery.
  cbn [opt_parameters opt_cursorField opt_pageSize opt_cursor
       opt_defaultCursorField].
  destruct p, p'; cbn [alloc];
    repeat match goal with
           | |- context [match ?x with _ => _ end] =>
               lazymatch x with
               | context [match _ with _ => _ end] => fail
               | _ => destruct x
               end
           end; reflexivity.
Qed.

Section Runs.

Variable db : Type.
Variable executeQuery : jsstring -> jsobject -> db -> (exn + queryResult) * db.

(** The summary of a run and the state of the loop it comes from. *)
Lemma queryStreamerTool_state args (w : world db) fuel summary w' :
  queryStreamerTool db executeQuery fuel args w
  = Some (Success summary, w') ->
  exists st,
    streamerReach executeQuery args w st w'
    /\ ss_totalRows summary = st_totalProcessedRows st
    /\ ss_batchCount summary = st_batchCount st
    /\ ss_results summary = st_allResults st.
Proof.
  unfold queryStreamerTool, streamerReach.
  destruct (argParameters db (sa_parameters args) w) as [p w0].
  cbn [fst snd].
  destruct (isProhibited (sa_sql args)); [discriminate|].
  destruct (streamLoop _ _ _ _ _ _ _ _ _ _ _ _ _)
    as [[[err|st] w1]|] eqn:Hl; try discriminate.
  intros [= <- <-].
  eapply streamLoop_reach in Hl as [Hr Hg]; [|apply reach_start].
  exists st. cbn. auto.
Qed.

(** X5: the summary of a run of [query_streamer] accounts for the calls
    that the run made: the total is the number of rows that they
    returned, the batch count is their number, all of them succeeded,
    and the results are the rows in the order they came in for the output
    type [json], and none for the other output types. *)
Theorem query_streamer_bookkeeping
    (args : streamerArgs) (w : world db) (fuel : nat)
    (summary : streamSummary) (w' : world db) :
  queryStreamerTool db executeQuery fuel args w = Some (Success summary, w') ->
  ss_totalRows summary = Z.of_nat (length (processedRows w w'))
  /\ ss_batchCount summary = Z.of_nat (length (callsBetween w w'))
  /\ Forall (fun c => exists result, call_outcome c = inr result)
       (callsBetween w w')
  /\ ss_results summary
     = match default OutSummary (sa_outputType args) with
       | OutJson => processedRows w w'
       | _ => []
       end.
Proof.
  intros Hq. apply queryStreamerTool_state in Hq as (st & Hr & Ht & Hb & Hres).
  unfold streamerReach in Hr.
  pose proof (loopReach_rows _ _ _ _ _ _ _ _ _ _ _ _ _ _ Hr)
    as (_ & _ & Htot & _).
  apply loopReach_bookkeeping in Hr as (Hlen & Hcount & Hall & Hok).
  fold (streamerStart args w) in Htot, Hlen, Hcount, Hall, Hok.
  rewrite (processedRows_calls _ w) in Htot, Hall
    by apply streamerStart_calls.
  rewrite streamerStart_calls in Hlen, Hcount, Hok.
  unfold initialState in Htot, Hcount, Hall.
  cbn [st_totalProcessedRows st_batchCount st_allResults] in Htot, Hcount, Hall.
  unfold callsBetween. rewrite length_rev, length_firstn.
  split; [lia|]. split; [lia|]. split.
  - apply Forall_rev. exact Hok.
  - rewrite Hres, Hall. reflexivity.
Qed.

(** X6: a run of [query_streamer] that ends with an error ends with the
    error of the call it made last: the batch that fails ends the run,
    and no summary of the rows before it is returned. *)
Theorem query_streamer_error
    (args : streamerArgs) (w : world db) (fuel : nat)
    (err : exn) (w' : world db) :
  queryStreamerTool db executeQuery fuel args w = Some (QueryError err, w') ->
  exists c, head (w_calls w') = Some c /\ call_outcome c = inl err.
Proof.
  unfold queryStreamerTool.
  destruct (argParameters db (sa_parameters args) w) as [p w0].
  destruct (isProhibited (sa_sql args)); [discriminate|].
  destruct (streamLoop _ _ _ _ _ _ _ _ _ _ _ _ _)
    as [[[e|st] w1]|] eqn:Hl; try discriminate.
  intros [= <- <-]. eapply streamLoop_error. exact Hl.
Qed.

(** X7: when no row that the data source returns has the cursor field,
    [query_streamer] never makes a cursor: every batch of the run is
    fetched with the statement of the first batch. *)
Theorem query_streamer_without_cursor_field
    (args : streamerArgs) (w : world db) (fuel : nat)
    (summary : streamSummary) (w' : world db) :
  (forall q p d out d',
     executeQuery q p d = (inr out, d') ->
     Forall (fun r => rowGet r (effectiveField (sa_cursorField args)
                                  (sa_sql args)) = None)
       (default [] (recordset out))) ->
  queryStreamerTool db executeQuery fuel args w = Some (Success summary, w') ->
  Forall (fun c => call_sql c = batchStatement args None) (callsBetween w w').
Proof.
  intros Hport Hq.
  apply queryStreamerTool_state in Hq as (st & Hr & _).
  unfold streamerReach in Hr.
  apply loopReach_without_cursor in Hr as [_ Hall];
    [|exact Hport|reflexivity].
  fold (streamerStart args w) in Hall.
  rewrite streamerStart_calls in Hall.
  unfold callsBetween. apply Forall_rev.
  eapply Forall_impl; [exact Hall|].
  intros c ->. unfold batchStatement, effectiveField.
  apply paginateQuery_sql_parameters.
Qed.

End Runs.

(** ** The validation of the statement, continued *)

Lemma startsWith_app p s : startsWith p (p ++ s) = true.
Proof.
  induction p as [|c p IH]; [destruct s; reflexivity|].
  cbn. rewrite N.eqb_refl. exact IH.
Qed.

Lemma includes_app p a b : includes p (a ++ p ++ b) = true.
Proof.
  induction a as [|c a IH].
  - cbn [app]. destruct (p ++ b) eqn:E; cbn [includes];
      rewrite <- E, startsWith_app; reflexivity.
  - cbn [app includes]. rewrite IH. apply orb_true_r.
Qed.

Lemma toLowerCase_app a b :
  toLowerCase (a ++ b) = toLowerCase a ++ toLowerCase b.
Proof. apply map_app. Qed.

(** X8: a statement in which one of the words [drop], [delete],
    [truncate], [update] and [alter], in any letter case, is followed by
    a space is rejected wherever the word stands, be it inside a name, a
    string literal or a comment: each of the three query tools answers
    with the validation error, and makes no call and leaves the data
    source as it is. *)
Theorem keyword_anywhere_is_rejected
    (db : Type)
    (executeQuery : jsstring -> jsobject -> db -> (exn + queryResult) * db)
    (keyword spelling before after : jsstring) (w : world db) :
  In keyword prohibitedOperations ->
  toLowerCase spelling = keyword ->
  let sql := before ++ spelling ++ after in
  (forall p,
     let out := executeQueryTool db executeQuery (ExecuteArgs sql p) w in
     fst out = ValidationError validationMessage
     /\ w_db (snd out) = w_db w
     /\ w_calls (snd out) = w_calls w)
  /\ (forall f n c p i,
     let out := paginatedQueryTool db executeQuery
                  (PaginatedArgs sql f n c p i) w in
     fst out = ValidationError validationMessage
     /\ w_db (snd out) = w_db w
     /\ w_calls (snd out) = w_calls w)
  /\ (forall fuel b m p f o a,
     exists w',
       queryStreamerTool db executeQuery fuel
         (StreamerArgs sql b m p f o a) w
       = Some (ValidationError validationMessage, w')
       /\ w_db w' = w_db w
       /\ w_calls w' = w_calls w).
Proof.
  intros Hk Hs sql. apply prohibited_never_executed.
  unfold isProhibited. apply existsb_exists. exists keyword.
  split; [exact Hk|]. subst sql.
  rewrite !toLowerCase_app, Hs. apply includes_app.
Qed.

(** ** The rewriting of the statement, continued *)

Lemma dropSpaces_split s :
  exists ws, s = ws ++ dropSpaces s /\ Forall (fun c => isSpace c = true) ws.
Proof.
  induction s as [|c s (ws & Hs & Hws)]; [exists []; split; [reflexivity|constructor]|].
  cbn [dropSpaces]. destruct (isSpace c) eqn:E.
  - exists (c :: ws). split; [cbn; congruence|constructor; assumption].
  - exists []. split; [reflexivity|constructor].
Qed.

Lemma dropSpaces_head s :
  match dropSpaces s with
  | c :: _ => isSpace c = false
  | [] => True
  end.
Proof.
  induction s as [|c s IH]; [exact I|].
  cbn [dropSpaces]. destruct (isSpace c) eqn:E; [exact IH|exact E].
Qed.

Lemma dropSpaces_fixed s :
  match s with c :: _ => isSpace c = false | [] => True end ->
  dropSpaces s = s.
Proof. destruct s as [|c s]; [reflexivity|]. cbn. intros ->. reflexivity. Qed.

Lemma dropSpaces_idempotent s : dropSpaces (dropSpaces s) = dropSpaces s.
Proof. apply dropSpaces_fixed, dropSpaces_head. Qed.

(** Trimming what is trimmed changes nothing. *)
Lemma trim_idempotent s : trim (trim s) = trim s.
Proof.
  unfold trim.
  set (t := dropSpaces s). set (u := dropSpaces (rev t)).
  assert (Hrev : dropSpaces (rev u) = rev u).
  { apply dropSpaces_fixed.
    destruct (dropSpaces_split (rev t)) as (ws & Hs & Hws). fold u in Hs.
    assert (Ht : t = rev u ++ rev ws).
    { rewrite <- (rev_involutive t), Hs, rev_app_distr. reflexivity. }
    pose proof (dropSpaces_head s) as Hh. fold t in Hh.
    destruct (rev u) as [|c r]; [exact I|].
    rewrite Ht in Hh. exact Hh. }
  rewrite Hrev, rev_involutive. f_equal. apply dropSpaces_idempotent.
Qed.

(** White space around the statement makes no difference to
    [paginateQuery]: the statement is trimmed before anything else looks
    at it. *)
Lemma paginateQuery_trims (sql : jsstring) (o : options) (h : heap) :
  paginateQuery (trim sql) o h = paginateQuery sql o h.
Proof. unfold paginateQuery. rewrite trim_idempotent. reflexivity. Qed.

(** X9: [paginateQuery] only ever appends to the trimmed statement: an
    ordering clause when the statement has none, then the cursor
    predicate when a cursor is given and decodes, then the row bound
    unless the text so far has [offset] or [fetch] in it.  A statement
    that already has an ordering clause keeps it and gets no second
    one. *)
Theorem paginateQuery_appends (sql : jsstring) (o : options) (h : heap) :
  let q := fst (paginateQuery sql o h) in
  exists order predicate bound,
    paginatedSql q = trim sql ++ order ++ predicate ++ bound
    /\ (if rtest reHasOrderBy (trim sql) then order = []
        else exists field,
               order = js " ORDER BY " ++ field ++ js " ASC"
               /\ pq_cursorField q = Some field)
    /\ (truthyString (opt_cursor o) = false -> predicate = [])
    /\ bound = (if mentionsLimit (trim sql ++ order ++ predicate) then []
                else rowBound (default 100 (opt_pageSize o))).
Proof.
  unfold paginateQuery.
  destruct (match opt_parameters o with
            | Some l => (l, h) | None => alloc ∅ h end) as [p h0].
  destruct (alloc (deref h0 p) h0) as [up h1].
  set (s0 := trim sql).
  match goal with
  | |- context [let '(_, _) := ?x in let '(_, _) := _ in _] =>
      assert (Hfirst : exists order s1 f,
            x
            = (s1, f)
            /\ s1 = s0 ++ order
            /\ (if rtest reHasOrderBy s0 then order = []
                else exists field,
                       order = js " ORDER BY " ++ field ++ js " ASC"
                       /\ f = Some field))
  end.
  { destruct (rtest reHasOrderBy s0).
    - exists []. rewrite app_nil_r.
      destruct (rcapture reOrderByClause s0);
        [destruct (truthyString (opt_cursorField o))|]; eauto.
    - destruct (truthyString (opt_cursorField o)) eqn:Ht.
      + destruct (opt_cursorField o) as [[|c f]|]; try discriminate.
        eexists _, _, _. split; [reflexivity|]. split; [reflexivity|].
        eexists. split; reflexivity.
      + eexists _, _, _. split; [reflexivity|]. split; [reflexivity|].
        eexists. split; reflexivity. }
  destruct Hfirst as (order & s1 & f & E1 & -> & Horder).
  rewrite E1. cbv beta iota.
  match goal with
  | |- context [let '(_, _) := ?x in _] =>
      assert (Hsecond : exists predicate s2 h2,
            x = (s2, h2)
            /\ s2 = s0 ++ order ++ predicate
            /\ (truthyString (opt_cursor o) = false -> predicate = []))
  end.
  { destruct (truthyString (opt_cursor o)).
    - destruct (cursorPredicate _ _) as [[[sql' name] value]|] eqn:Hc.
      + apply cursorPredicate_appends in Hc as [predicate ->].
        eexists predicate, _, _. split; [reflexivity|].
        rewrite <- app_assoc. split; [reflexivity|discriminate].
      + exists [], (s0 ++ order), h1. rewrite app_nil_r. auto.
    - exists [], (s0 ++ order), h1. rewrite app_nil_r. auto. }
  destruct Hsecond as (predicate & s2 & h2 & E2 & -> & Hpred).
  rewrite E2. cbv beta iota.
  cbn [fst paginatedSql pq_cursorField].
  exists order, predicate. eexists. split; [|split; [exact Horder|split; [exact Hpred|reflexivity]]].
  unfold mentionsLimit, rowBound.
  destruct (includes (js "offset") _); [rewrite !app_nil_r; reflexivity|].
  destruct (includes (js "fetch") _); [rewrite !app_nil_r; reflexivity|].
  cbn [negb andb orb]. rewrite <- !app_assoc. reflexivity.
Qed.

(** ** From the cursor of a row to the statement of the next page *)

(** The cursor predicate for a token that decodes to a record with the
    operator [>]. *)
Lemma cursorPredicate_next sql token field value :
  field <> [] ->
  decodeToken token = Some (cursorRecord field value (js ">")) ->
  cursorPredicate sql token
  = Some (sql ++ js " "
            ++ (if includes (js "where") (toLowerCase sql)
                then js "AND" else js "WHERE")
            ++ js " [" ++ field ++ js "] " ++ js ">" ++ js " @"
            ++ (js "cursor_" ++ sanitizeName field),
          js "cursor_" ++ sanitizeName field, value).
Proof.
  intros Hf Hd. unfold cursorPredicate. rewrite Hd.
  unfold cursorRecord, getProp.
  change (objGet (js "field") ?l) with (Some (JStr field)).
  change (objGet (js "value") [(js "field", JStr field);
                               (js "value", value);
                               (js "operator", JStr (js ">"))])
    with (Some value).
  change (objGet (js "operator") [(js "field", JStr field);
                                  (js "value", value);
                                  (js "operator", JStr (js ">"))])
    with (Some (JStr (js ">"))).
  destruct field as [|c f]; [congruence|]. reflexivity.
Qed.


(** ** The calls of [paginated_query] *)

Lemma callsBetween_app {db} (w w' : world db) (l : list call) :
  w_calls w' = l ++ w_calls w -> callsBetween w w' = rev l.
Proof.
  intros H. unfold callsBetween. rewrite H, length_app.
  replace (length l + length (w_calls w) - length (w_calls w))%nat
    with (length l) by lia.
  rewrite take_app_length. reflexivity.
Qed.

Lemma pageMeta_totalCount rows pageSize cursor field totalCount :
  pm_totalCount (pageMeta rows pageSize cursor field totalCount) = totalCount.
Proof.
  unfold pageMeta. destruct (0 <? _); [destruct (_ <=? _)|]; reflexivity.
Qed.

Section PageCalls.

Variable db : Type.
Variable executeQuery : jsstring -> jsobject -> db -> (exn + queryResult) * db.

Lemma argParameters_calls p (w : world db) :
  w_calls (snd (argParameters db p w)) = w_calls w.
Proof. unfold argParameters. destruct p; reflexivity. Qed.

Lemma execute_call sql p (w : world db) :
  exists c,
    w_calls (snd (execute db executeQuery sql p w)) = c :: w_calls w
    /\ call_sql c = sql
    /\ call_parameters c = deref (w_heap w) p
    /\ call_outcome c = fst (execute db executeQuery sql p w).
Proof.
  unfold execute. destruct (executeQuery _ _ _) as [o d].
  eexists. repeat split; reflexivity.
Qed.

(** X11: [paginated_query] on a statement that passes the validation
    makes the count call first, when the count is asked for, with the
    counting statement and the parameters of the caller, and then the
    call for the page.  Its answer is the one of the page call: the
    error when that call fails, and else its rows; a count call that
    fails does not fail the page, which then has no total count. *)
Theorem paginated_query_calls (args : paginatedArgs) (w : world db) :
  isProhibited (pa_sql args) = false ->
  let out := paginatedQueryTool db executeQuery args w in
  exists counts page,
    callsBetween w (snd out) = counts ++ [page]
    /\ (if default true (pa_includeCount args)
        then exists c,
               counts = [c]
               /\ call_sql c = countQuery (pa_sql args)
               /\ call_parameters c
                  = match pa_parameters args with
                    | Some p => deref (w_heap w) p
                    | None => ∅
                    end
        else counts = [])
    /\ match call_outcome page with
       | inl err => fst out = QueryError err
       | inr result =>
           exists res,
             fst out = Success res
             /\ pr_results res = default [] (recordset result)
             /\ (forall c err,
                   c ∈ counts -> call_outcome c = inl err ->
                   pm_totalCount (pr_pagination res) = None)
       end.
Proof.
  intros Hp out. subst out. unfold paginatedQueryTool.
  pose proof (argParameters_calls (pa_parameters args) w) as Hc0.
  assert (Hd0 : deref (w_heap (snd (argParameters db (pa_parameters args) w)))
                  (fst (argParameters db (pa_parameters args) w))
                = match pa_parameters args with
                  | Some p => deref (w_heap w) p
                  | None => ∅
                  end).
  { unfold argParameters. destruct (pa_parameters args); [reflexivity|].
    pose proof (alloc_lookup ∅ (w_heap w)) as Hl.
    destruct (alloc ∅ (w_heap w)) as [l h]. cbn [fst snd w_heap] in *.
    unfold deref. rewrite Hl. reflexivity. }
  destruct (argParameters db (pa_parameters args) w) as [p w0].
  cbn [fst snd] in Hc0, Hd0. rewrite Hp.
  destruct (default true (pa_includeCount args)) eqn:Hi.
  - destruct (execute_call (countQuery (pa_sql args)) p w0)
      as (c & Hc & Hsql & Hpar & Hout).
    destruct (execute db executeQuery (countQuery (pa_sql args)) p w0)
      as [o1 w1]. cbn [fst snd] in Hc, Hout.
    set (tc := match o1 with
               | inr countResult =>
                   match recordset countResult with
                   | Some (first :: _) => rowGet first (js "TotalCount")
                   | _ => None
                   end
               | inl _ => None
               end).
    assert (Htc : (match o1 with
                   | inr countResult =>
                       match recordset countResult with
                       | Some (first :: _) =>
                           (rowGet first (js "TotalCount"), w1)
                       | _ => (None, w1)
                       end
                   | inl _ => (None, w1)
                   end) = (tc, w1)).
    { subst tc. destruct o1 as [e|[[[|first rest]|]]]; reflexivity. }
    rewrite Htc.
    destruct (paginate db (pa_sql args) _ w1) as [q w2] eqn:Hpg.
    assert (Hc2 : w_calls w2 = w_calls w1).
    { unfold paginate in Hpg. destruct (paginateQuery _ _ _) as [q' h'].
      injection Hpg as _ <-. reflexivity. }
    destruct (execute_call (paginatedSql q) (pq_parameters q) w2)
      as (c2 & Hc' & _ & _ & Hout').
    destruct (execute db executeQuery (paginatedSql q) (pq_parameters q) w2)
      as [o3 w3]. cbn [fst snd] in Hc', Hout'.
    exists [c], c2. split.
    + apply (callsBetween_app w _ [c2; c]).
      destruct o3; cbn [snd]; rewrite Hc', Hc2, Hc, Hc0; reflexivity.
    + split; [exists c; rewrite Hpar, Hd0; auto|].
      rewrite Hout'. destruct o3 as [err|result]; [reflexivity|].
      eexists. split; [reflexivity|]. split; [reflexivity|].
      intros c' err Hin He. apply list_elem_of_singleton in Hin. subst c'.
      cbn [pr_pagination]. rewrite pageMeta_totalCount.
      subst tc. rewrite <- Hout, He. reflexivity.
  - destruct (paginate db (pa_sql args) _ w0) as [q w2] eqn:Hpg.
    assert (Hc2 : w_calls w2 = w_calls w0).
    { unfold paginate in Hpg. destruct (paginateQuery _ _ _) as [q' h'].
      injection Hpg as _ <-. reflexivity. }
    destruct (execute_call (paginatedSql q) (pq_parameters q) w2)
      as (c2 & Hc' & _ & _ & Hout').
    destruct (execute db executeQuery (paginatedSql q) (pq_parameters q) w2)
      as [o3 w3]. cbn [fst snd] in Hc', Hout'.
    exists [], c2. split.
    + apply (callsBetween_app w _ [c2]).
      destruct o3; cbn [snd]; rewrite Hc', Hc2, Hc0; reflexivity.
    + split; [reflexivity|].
      rewrite Hout'. destruct o3 as [err|result]; [reflexivity|].
      eexists. split; [reflexivity|]. split; [reflexivity|].
      intros c' err Hin. inversion Hin.
Qed.

(** The metadata of a page in full. *)
Lemma paginatedQueryTool_pageMeta args (w : world db) res w' :
  paginatedQueryTool db executeQuery args w = (Success res, w') ->
  exists totalCount,
    pr_pagination res
    = pageMeta (pr_results res) (default 50 (pa_pageSize args))
        (pa_cursor args)
        (effectiveField (pa_cursorField args) (pa_sql args)) totalCount.
Proof.
  unfold paginatedQueryTool.
  destruct (argParameters db _ w) as [p w0].
  destruct (isProhibited _); [discriminate|].
  match goal with
  | |- context [let (_, _) := ?x in _] => destruct x as [tc w1]
  end.
  destruct (paginate db _ _ w1) as [q w2].
  destruct (execute db executeQuery _ _ w2) as [[err|result] w3];
    [discriminate|].
  intros [= <- _]. cbn [pr_pagination pr_results].
  exists tc. reflexivity.
Qed.

(** X12: a page of [paginated_query] has a previous-page cursor if and
    only if the call came with a cursor that is not empty, be it one that
    decodes or not, the cursor field is not empty and the first row of
    the page has a value for it; so a first page never has one.  The
    cursor field of the metadata is the one of the arguments, or else the
    default one of the statement. *)
Theorem paginated_query_prevCursor
    (args : paginatedArgs) (w : world db) (res : pageResult) (w' : world db) :
  paginatedQueryTool db executeQuery args w = (Success res, w') ->
  let m := pr_pagination res in
  pm_cursorField m = effectiveField (pa_cursorField args) (pa_sql args)
  /\ (is_Some (pm_prevCursor m)
      <-> truthyString (pa_cursor args) = true
          /\ pm_cursorField m <> []
          /\ exists r, head (pr_results res) = Some r
                       /\ is_Some (rowGet r (pm_cursorField m))).
Proof.
  intros H. apply paginatedQueryTool_pageMeta in H as (tc & Hm).
  cbv zeta. rewrite Hm, pageMeta_cursorField. split; [reflexivity|].
  set (field := effectiveField _ _). unfold pageMeta.
  destruct (pr_results res) as [|r0 rows] eqn:Hrows.
  - cbn. split; [intros [? ?]; discriminate|].
    intros (_ & _ & r & Hr & _). discriminate.
  - replace (0 <? Z.of_nat (length (r0 :: rows))) with true
      by (symmetry; apply Z.ltb_lt; cbn [length]; lia).
    cbn [pm_prevCursor lookup list_lookup head].
    destruct (truthyString (pa_cursor args)).
    + unfold generatePrevCursor.
      destruct field as [|c f] eqn:Hf.
      * split; [intros [? ?]; discriminate|]. intros (_ & Hne & _).
        congruence.
      * destruct (rowGet r0 (c :: f)) as [v|] eqn:Hv.
        -- split; [intros _|eauto]. split; [reflexivity|].
           split; [discriminate|]. exists r0. rewrite Hv. eauto.
        -- split; [intros [? ?]; discriminate|].
           intros (_ & _ & r & [= <-] & [v Hv']). congruence.
    + split; [intros [? ?]; discriminate|]. intros (? & _). discriminate.
Qed.

End PageCalls.

(** ** Runs that the properties above apply to *)

Lemma query_streamer_count_witness :
  exists summary w',
    queryStreamerTool _ scriptedPort 4 statisticsRun
      (scriptedWorld batchesOfTwo) = Some (Success summary, w')
    /\ ss_aggregations summary !! aggKey OpCount (js "amount")
       = Some (ANum (inject_Z
            (countField (js "amount")
               (processedRows (scriptedWorld batchesOfTwo) w'))))
    /\ countField (js "amount")
         (processedRows (scriptedWorld batchesOfTwo) w')
       <= ss_totalRows summary.
Proof.
  assert (E : exists summary w',
            queryStreamerTool _ scriptedPort 4 statisticsRun
              (scriptedWorld batchesOfTwo)
            = Some (Success summary, w'))
    by (eexists _, _; vm_compute; reflexivity).
  destruct E as (summary & w' & E). exists summary, w'. split; [exact E|].
  apply (query_streamer_count _ scriptedPort statisticsRun
           (scriptedWorld batchesOfTwo) 4 summary w'
           (default [] (sa_aggregations statisticsRun)) (js "amount")).
  - reflexivity.
  - vm_compute. reflexivity.
  - exact E.
Defined.

Lemma query_streamer_min_witness :
  exists summary w',
    queryStreamerTool _ scriptedPort 4 statisticsRun
      (scriptedWorld batchesOfTwo) = Some (Success summary, w')
    /\ exists m,
         ss_aggregations summary !! aggKey OpMin (js "amount")
         = Some (ANum m)
         /\ (m = MAX_VALUE
             \/ exists z,
                  z ∈ numbersOf (js "amount")
                        (processedRows (scriptedWorld batchesOfTwo) w')
                  /\ m = inject_Z z)
         /\ (m <= MAX_VALUE)%Q
         /\ (forall z,
               z ∈ numbersOf (js "amount")
                     (processedRows (scriptedWorld batchesOfTwo) w') ->
               (m <= inject_Z z)%Q)
         /\ (numbersOf (js "amount")
               (processedRows (scriptedWorld batchesOfTwo) w') = [] ->
             m = MAX_VALUE).
Proof.
  assert (E : exists summary w',
            queryStreamerTool _ scriptedPort 4 statisticsRun
              (scriptedWorld batchesOfTwo)
            = Some (Success summary, w'))
    by (eexists _, _; vm_compute; reflexivity).
  destruct E as (summary & w' & E). exists summary, w'. split; [exact E|].
  apply (query_streamer_min _ scriptedPort statisticsRun
           (scriptedWorld batchesOfTwo) 4 summary w'
           (default [] (sa_aggregations statisticsRun)) (js "amount")).
  - reflexivity.
  - vm_compute. reflexivity.
  - exact E.
Defined.

(** The least of the amounts 10, 20, 30, 40 and 5 is 5; the greatest of
    the amounts -5, -3 and -5 is reported as [Number.MIN_VALUE]. *)
Example least_and_greatest :
  (exists summary w',
     queryStreamerTool _ scriptedPort 4 statisticsRun
       (scriptedWorld batchesOfTwo) = Some (Success summary, w')
     /\ ss_aggregations summary !! aggKey OpMin (js "amount")
        = Some (ANum (inject_Z 5))
     /\ ss_aggregations summary !! aggKey OpMax (js "amount")
        = Some (ANum (inject_Z 40)))
  /\ (exists summary w',
        queryStreamerTool _ scriptedPort 4 statisticsRun
          (scriptedWorld losses) = Some (Success summary, w')
        /\ ss_aggregations summary !! aggKey OpMax (js "amount")
           = Some (ANum MIN_VALUE)
        /\ ss_aggregations summary !! aggKey OpCountDistinct (js "amount")
           = Some (ANum (inject_Z 2))).
Proof.
  split; eexists _, _; (split; [vm_compute; reflexivity|]);
    split; vm_compute; reflexivity.
Qed.

Lemma query_streamer_max_witness :
  exists summary w',
    queryStreamerTool _ scriptedPort 4 statisticsRun
      (scriptedWorld losses) = Some (Success summary, w')
    /\ exists m,
         ss_aggregations summary !! aggKey OpMax (js "amount")
         = Some (ANum m)
         /\ (m = MIN_VALUE
             \/ exists z,
                  z ∈ numbersOf (js "amount")
                        (processedRows (scriptedWorld losses) w')
                  /\ m = inject_Z z)
         /\ (MIN_VALUE <= m)%Q
         /\ (forall z,
               z ∈ numbersOf (js "amount")
                     (processedRows (scriptedWorld losses) w') ->
               (inject_Z z <= m)%Q)
         /\ ((forall z,
                z ∈ numbersOf (js "amount")
                      (processedRows (scriptedWorld losses) w') ->
                z <= 0) ->
             m = MIN_VALUE).
Proof.
  assert (E : exists summary w',
            queryStreamerTool _ scriptedPort 4 statisticsRun
              (scriptedWorld losses)
            = Some (Success summary, w'))
    by (eexists _, _; vm_compute; reflexivity).
  destruct E as (summary & w' & E). exists summary, w'. split; [exact E|].
  apply (query_streamer_max _ scriptedPort statisticsRun
           (scriptedWorld losses) 4 summary w'
           (default [] (sa_aggregations statisticsRun)) (js "amount")).
  - reflexivity.
  - vm_compute. reflexivity.
  - exact E.
Defined.

Lemma query_streamer_countDistinct_witness :
  exists summary w',
    queryStreamerTool _ scriptedPort 4 statisticsRun
      (scriptedWorld losses) = Some (Success summary, w')
    /\ ss_aggregations summary !! aggKey OpCountDistinct (js "amount")
       = Some (ANum (inject_Z (Z.of_nat
            (length (remove_dups
               (valuesOf (js "amount")
                  (processedRows (scriptedWorld losses) w'))))))).
Proof.
  assert (E : exists summary w',
            queryStreamerTool _ scriptedPort 4 statisticsRun
              (scriptedWorld losses)
            = Some (Success summary, w'))
    by (eexists _, _; vm_compute; reflexivity).
  destruct E as (summary & w' & E). exists summary, w'. split; [exact E|].
  apply (query_streamer_countDistinct _ scriptedPort statisticsRun
           (scriptedWorld losses) 4 summary w'
           (default [] (sa_aggregations statisticsRun)) (js "amount")).
  - reflexivity.
  - vm_compute. reflexivity.
  - exact E.
Defined.

Lemma query_streamer_bookkeeping_witness :
  exists summary w',
    queryStreamerTool _ scriptedPort 4 collectingRun
      (scriptedWorld batchesOfTwo) = Some (Success summary, w')
    /\ ss_totalRows summary
       = Z.of_nat (length (processedRows (scriptedWorld batchesOfTwo) w'))
    /\ ss_batchCount summary
       = Z.of_nat (length (callsBetween (scriptedWorld batchesOfTwo) w'))
    /\ Forall (fun c => exists result, call_outcome c = inr result)
         (callsBetween (scriptedWorld batchesOfTwo) w')
    /\ ss_results summary
       = match default OutSummary (sa_outputType collectingRun) with
         | OutJson => processedRows (scriptedWorld batchesOfTwo) w'
         | _ => []
         end.
Proof.
  assert (E : exists summary w',
            queryStreamerTool _ scriptedPort 4 collectingRun
              (scriptedWorld batchesOfTwo)
            = Some (Success summary, w'))
    by (eexists _, _; vm_compute; reflexivity).
  destruct E as (summary & w' & E). exists summary, w'. split; [exact E|].
  apply (query_streamer_bookkeeping _ scriptedPort collectingRun
           (scriptedWorld batchesOfTwo) 4 summary w' E).
Defined.

(** The five rows come back in three batches and in their order. *)
Example collected_rows :
  exists summary w',
    queryStreamerTool _ scriptedPort 4 collectingRun
      (scriptedWorld batchesOfTwo) = Some (Success summary, w')
    /\ ss_results summary = concat batchesOfTwo
    /\ ss_batchCount summary = 3.
Proof.
  eexists _, _. split; [vm_compute; reflexivity|].
  split; vm_compute; reflexivity.
Qed.

Lemma query_streamer_error_witness :
  exists w',
    queryStreamerTool _ failingPort 4 collectingRun emptyWorld
    = Some (QueryError (js "ETIMEOUT"), w')
    /\ exists c, head (w_calls w') = Some c
                 /\ call_outcome c = inl (js "ETIMEOUT").
Proof.
  assert (E : exists w',
            queryStreamerTool _ failingPort 4 collectingRun emptyWorld
            = Some (QueryError (js "ETIMEOUT"), w'))
    by (eexists; vm_compute; reflexivity).
  destruct E as (w' & E). exists w'. split; [exact E|].
  apply (query_streamer_error _ failingPort collectingRun emptyWorld 4
           (js "ETIMEOUT") w' E).
Defined.

Lemma query_streamer_without_cursor_field_witness :
  exists summary w',
    queryStreamerTool _ namesPort 4 namesRun emptyWorld
    = Some (Success summary, w')
    /\ Forall (fun c => call_sql c = batchStatement namesRun None)
         (callsBetween emptyWorld w').
Proof.
  assert (E : exists summary w',
            queryStreamerTool _ namesPort 4 namesRun emptyWorld
            = Some (Success summary, w'))
    by (eexists _, _; vm_compute; reflexivity).
  destruct E as (summary & w' & E). exists summary, w'. split; [exact E|].
  apply (query_streamer_without_cursor_field _ namesPort namesRun emptyWorld
           4 summary w'); [|exact E].
  intros q p d out d' [= <- _]. repeat constructor.
Defined.

(** The run over the names reads the first page three times. *)
Example names_three_times :
  exists summary w',
    queryStreamerTool _ namesPort 4 namesRun emptyWorld
    = Some (Success summary, w')
    /\ ss_totalRows summary = 3
    /\ map call_sql (callsBetween emptyWorld w')
       = repeat (js "SELECT name FROM users ORDER BY id ASC OFFSET 0 ROWS FETCH NEXT 1 ROWS ONLY") 3.
Proof.
  eexists _, _. split; [vm_compute; reflexivity|].
  split; vm_compute; reflexivity.
Qed.

Lemma keyword_anywhere_is_rejected_witness :
  let sql := js "SELECT 'no " ++ js "UpDaTe " ++ js "yet' AS note" in
  (forall p,
     let out := executeQueryTool unit silentPort (ExecuteArgs sql p)
                  emptyWorld in
     fst out = ValidationError validationMessage
     /\ w_db (snd out) = w_db emptyWorld
     /\ w_calls (snd out) = w_calls emptyWorld)
  /\ (forall f n c p i,
     let out := paginatedQueryTool unit silentPort
                  (PaginatedArgs sql f n c p i) emptyWorld in
     fst out = ValidationError validationMessage
     /\ w_db (snd out) = w_db emptyWorld
     /\ w_calls (snd out) = w_calls emptyWorld)
  /\ (forall fuel b m p f o a,
     exists w',
       queryStreamerTool unit silentPort fuel
         (StreamerArgs sql b m p f o a) emptyWorld
       = Some (ValidationError validationMessage, w')
       /\ w_db w' = w_db emptyWorld
       /\ w_calls w' = w_calls emptyWorld).
Proof.
  apply (keyword_anywhere_is_rejected unit silentPort (js "update ")
           (js "UpDaTe ") (js "SELECT 'no ") (js "yet' AS note") emptyWorld).
  - unfold prohibitedOperations. cbn. auto.
  - reflexivity.
Defined.


(** The statement of the page after the row with the [id] 20. *)
Example page_after_20 :
  paginatedSql (fst (paginateQuery
    (js "SELECT id, amount FROM payments ORDER BY id")
    (Options None (Some 10) (generateNextCursor (Some (amount 20)) (js "id"))
       None None) ∅))
  = js "SELECT id, amount FROM payments ORDER BY id WHERE [id] > @cursor_id OFFSET 0 ROWS FETCH NEXT 10 ROWS ONLY".
Proof. vm_compute. reflexivity. Qed.

Lemma paginated_query_calls_witness :
  let out := paginatedQueryTool unit namesPort namesAfter emptyWorld in
  exists counts page,
    callsBetween emptyWorld (snd out) = counts ++ [page]
    /\ (if default true (pa_includeCount namesAfter)
        then exists c,
               counts = [c]
               /\ call_sql c = countQuery (pa_sql namesAfter)
               /\ call_parameters c
                  = match pa_parameters namesAfter with
                    | Some p => deref (w_heap emptyWorld) p
                    | None => ∅
                    end
        else counts = [])
    /\ match call_outcome page with
       | inl err => fst out = QueryError err
       | inr result =>
           exists res,
             fst out = Success res
             /\ pr_results res = default [] (recordset result)
             /\ (forall c err,
                   c ∈ counts -> call_outcome c = inl err ->
                   pm_totalCount (pr_pagination res) = None)
       end.
Proof.
  apply (paginated_query_calls unit namesPort namesAfter emptyWorld).
  reflexivity.
Defined.

Lemma paginated_query_prevCursor_witness :
  exists res w',
    paginatedQueryTool unit namesPort namesAfter emptyWorld
    = (Success res, w')
    /\ pm_cursorField (pr_pagination res)
       = effectiveField (pa_cursorField namesAfter) (pa_sql namesAfter)
    /\ (is_Some (pm_prevCursor (pr_pagination res))
        <-> truthyString (pa_cursor namesAfter) = true
            /\ pm_cursorField (pr_pagination res) <> []
            /\ exists r, head (pr_results res) = Some r
                         /\ is_Some (rowGet r
                                       (pm_cursorField (pr_pagination res)))).
Proof.
  assert (E : exists res w',
            paginatedQueryTool unit namesPort namesAfter emptyWorld
            = (Success res, w'))
    by (eexists _, _; vm_compute; reflexivity).
  destruct E as (res & w' & E). exists res, w'. split; [exact E|].
  apply (paginated_query_prevCursor unit namesPort namesAfter emptyWorld
           res w' E).
Defined.

Local Open Scope N_scope.

(** ** Identifiers *)

Lemma filter_rev_bool (P : N -> bool) (l : list N) :
  filter (fun c => P c) (rev l) = rev (filter (fun c => P c) l).
Proof.
  induction l as [|c l IH]; [reflexivity|].
  cbn [rev]. rewrite filter_app, IH.
  rewrite (filter_cons _ c l), (filter_cons _ c []), filter_nil.
  destruct (decide (P c)); cbn [rev]; [reflexivity|].
  rewrite app_nil_r. reflexivity.
Qed.

Lemma stripOuterBrackets_cases (s : list N) :
  exists s1 : list N,
    (s1 = s \/ s = 91 :: s1)
    /\ (stripOuterBrackets s = s1
        \/ exists r : list N, s1 = r ++ [93] /\ stripOuterBrackets s = r).
Proof.
  unfold stripOuterBrackets. cbv zeta.
  destruct s as [|c s'].
  - exists []. split; [auto|]. left. reflexivity.
  - assert (Hlast : forall s1 : list N,
              match rev s1 with
              | c :: r => if c =? 93 then rev r else s1
              | [] => s1
              end = s1
              \/ exists r : list N,
                   s1 = r ++ [93]
                   /\ match rev s1 with
                      | c :: r => if c =? 93 then rev r else s1
                      | [] => s1
                      end = r).
    { intros s1. destruct (rev s1) as [|x r] eqn:Hr; [auto|].
      destruct (N.eqb_spec x 93) as [->|]; [|auto].
      right. exists (rev r). split; [|reflexivity].
      rewrite <- (rev_involutive s1), Hr. reflexivity. }
    destruct (N.eqb_spec c 91) as [->|].
    + exists s'. split; [auto|]. apply Hlast.
    + exists (c :: s'). split; [auto|]. apply Hlast.
Qed.

Lemma filter_stripOuterBrackets (s : list N) :
  filter (fun c => isWordChar c) (stripOuterBrackets s)
  = filter (fun c => isWordChar c) s.
Proof.
  destruct (stripOuterBrackets_cases s) as (s1 & H1 & H2).
  assert (E1 : filter (fun c => isWordChar c) s1
               = filter (fun c => isWordChar c) s).
  { destruct H1 as [->| ->]; reflexivity. }
  rewrite <- E1. destruct H2 as [->|(r & -> & ->)]; [reflexivity|].
  rewrite filter_app.
  change (filter (fun c => isWordChar c) [93]) with (@nil N).
  rewrite app_nil_r. reflexivity.
Qed.

Lemma filter_fixed (P : N -> bool) (l : list N) :
  filter (fun c => P c) l = l <-> Forall (fun c => P c = true) l.
Proof.
  induction l as [|c l IH]; [split; [constructor|reflexivity]|].
  rewrite filter_cons. destruct (decide (P c)) as [H|H].
  - apply Is_true_true in H. split.
    + intros [= E]. constructor; [exact H|]. apply IH, E.
    + intros Hall. inversion Hall; subst. f_equal. apply IH. assumption.
  - split.
    + intros E. exfalso.
      pose proof (length_filter (fun c => P c) l) as Hlen.
      rewrite E in Hlen. cbn in Hlen. lia.
    + intros Hall. inversion Hall; subst. exfalso. apply H.
      apply Is_true_true. assumption.
Qed.

Lemma sanitizeSqlIdentifier_filter (s : jsstring) :
  sanitizeSqlIdentifier (Some s) = filter (fun c => isWordChar c) s.
Proof.
  destruct s as [|c t]; [reflexivity|].
  unfold sanitizeSqlIdentifier. apply filter_stripOuterBrackets.
Qed.

Lemma sanitizeSqlIdentifier_fixed (s : jsstring) :
  sanitizeSqlIdentifier (Some s) = s <-> identifier s.
Proof. rewrite sanitizeSqlIdentifier_filter. apply filter_fixed. Qed.

(** X13: [sanitizeSqlIdentifier] returns the identifier with every
    character removed that is no letter of [a-z] or [A-Z], no digit and
    no underscore, and the empty string for no identifier; so its result
    has such characters only, the removal of the outer brackets before it
    makes no difference, and an identifier comes back unchanged if and
    only if all its characters are of this kind. *)
Theorem sanitizeSqlIdentifier_filters (s : jsstring) :
  sanitizeSqlIdentifier (Some s) = filter (fun c => isWordChar c) s
  /\ sanitizeSqlIdentifier None = []
  /\ identifier (sanitizeSqlIdentifier (Some s))
  /\ sanitizeSqlIdentifier (Some (sanitizeSqlIdentifier (Some s)))
     = sanitizeSqlIdentifier (Some s)
  /\ (sanitizeSqlIdentifier (Some s) = s <-> identifier s).
Proof.
  assert (Hall : identifier (sanitizeSqlIdentifier (Some s))).
  { rewrite sanitizeSqlIdentifier_filter. apply Forall_forall. intros c Hc.
    apply list_elem_of_filter in Hc as [Hc _].
    apply Is_true_true. exact Hc. }
  split; [apply sanitizeSqlIdentifier_filter|]. split; [reflexivity|].
  split; [exact Hall|]. split; [|apply sanitizeSqlIdentifier_fixed].
  apply sanitizeSqlIdentifier_fixed. exact Hall.
Qed.

(** ** The detail tools *)

Lemma jsstring_eqb_eq a b : jsstring_eqb a b = true <-> a = b.
Proof. unfold jsstring_eqb. apply bool_decide_eq_true. Qed.

Lemma sanitized_differs (name : jsstring) :
  negb (jsstring_eqb (sanitizeSqlIdentifier (Some name)) name) = true
  <-> ~ identifier name.
Proof.
  rewrite negb_true_iff, <- sanitizeSqlIdentifier_fixed.
  destruct (jsstring_eqb _ _) eqn:E.
  - apply jsstring_eqb_eq in E. split; [discriminate|tauto].
  - split; [|reflexivity]. intros _ H. apply jsstring_eqb_eq in H. congruence.
Qed.

Lemma sanitized_same (name : jsstring) :
  identifier name ->
  sanitizeSqlIdentifier (Some name) = name
  /\ negb (jsstring_eqb (sanitizeSqlIdentifier (Some name)) name) = false.
Proof.
  intros H. apply sanitizeSqlIdentifier_fixed in H. split; [exact H|].
  apply negb_false_iff, jsstring_eqb_eq, H.
Qed.

Section DetailCalls.

Variable db : Type.
Variable executeQuery : jsstring -> jsobject -> db -> (exn + queryResult) * db.

(** A query of a handler makes one call, with its statement and the
    members it is given. *)
Lemma query_call {R : Type} (sql : jsstring) (parameters : jsobject)
    (w : world db) :
  exists c w',
    query db executeQuery (R := R) sql parameters w
    = (match call_outcome c with
       | inr result => Value result
       | inl err => Throw (Rejected err)
       end, w')
    /\ w_calls w' = c :: w_calls w
    /\ call_sql c = sql
    /\ call_parameters c = parameters.
Proof.
  unfold query, execute.
  pose proof (alloc_lookup parameters (w_heap w)) as Hl.
  destruct (alloc parameters (w_heap w)) as [l h]. cbn [fst snd] in Hl.
  cbn [w_heap w_db w_calls]. unfold deref. rewrite Hl.
  cbn [default from_option]. unfold id.
  destruct (executeQuery sql parameters (w_db w)) as [o d].
  exists (Call sql parameters o). eexists.
  split; [destruct o; reflexivity|]. cbn. auto.
Qed.

(** A handler that asks for the rows of one statement and then, when
    there are some, for the rows of another one, both with the same
    parameters. *)
Lemma two_queries_calls {R : Type} (sql1 sql2 : jsstring)
    (parameters : jsobject)
    (notFound : answer R) (found : row -> list row -> answer R)
    (w : world db) :
  let out :=
    run db (bind db (query db executeQuery sql1 parameters) (fun result =>
            bind db (rowsOf db result) (fun rows =>
              match rows with
              | [] => returnAnswer db notFound
              | first :: _ =>
                  bind db (query db executeQuery sql2 parameters)
                    (fun result2 =>
                       bind db (rowsOf db result2) (fun rows2 =>
                         fun w => (Value (found first rows2), w)))
              end))) w in
  Forall (carries [sql1; sql2] parameters) (callsBetween w (snd out))
  /\ (length (callsBetween w (snd out)) <= 2)%nat.
Proof.
  intros out.
  assert (H : exists calls,
            w_calls (snd out) = calls ++ w_calls w
            /\ Forall (carries [sql1; sql2] parameters) calls
            /\ (length calls <= 2)%nat).
  { destruct out as [a w'] eqn:E. subst out. cbn [snd].
    unfold run, bind in E.
    destruct (query_call (R := R) sql1 parameters w)
      as (c1 & w1 & Hq1 & Hc1 & Hs1 & Hp1).
    rewrite Hq1 in E.
    assert (H1 : carries [sql1; sql2] parameters c1).
    { split; [rewrite Hs1; apply list_elem_of_here|exact Hp1]. }
    assert (Hone : w' = w1 ->
              exists calls,
                w_calls w' = calls ++ w_calls w
                /\ Forall (carries [sql1; sql2] parameters) calls
                /\ (length calls <= 2)%nat).
    { intros ->. exists [c1]. split; [exact Hc1|].
      split; [constructor; [exact H1|constructor]|cbn; lia]. }
    destruct (call_outcome c1) as [err|result];
      [injection E as _ <-; auto|].
    unfold rowsOf at 1 in E.
    destruct (recordset result) as [[|first rest]|];
      try (injection E as _ <-; auto; fail).
    destruct (query_call (R := R) sql2 parameters w1)
      as (c2 & w2 & Hq2 & Hc2 & Hs2 & Hp2).
    rewrite Hq2 in E.
    assert (H2 : carries [sql1; sql2] parameters c2).
    { split; [rewrite Hs2; apply list_elem_of_further, list_elem_of_here
             |exact Hp2]. }
    assert (Htwo : w' = w2 ->
              exists calls,
                w_calls w' = calls ++ w_calls w
                /\ Forall (carries [sql1; sql2] parameters) calls
                /\ (length calls <= 2)%nat).
    { intros ->. exists [c2; c1].
      split; [rewrite Hc2, Hc1; reflexivity|].
      split; [|cbn; lia].
      constructor; [exact H2|constructor; [exact H1|constructor]]. }
    destruct (call_outcome c2) as [err|result2];
      [injection E as _ <-; auto|].
    unfold rowsOf in E.
    destruct (recordset result2) as [rows2|]; injection E as _ <-; auto. }
  destruct H as (calls & Hc & Hall & Hlen).
  rewrite (callsBetween_app w _ calls Hc).
  split; [apply Forall_rev; exact Hall|rewrite length_rev; exact Hlen].
Qed.

(** X14: the detail tools of procedures, functions, views and indexes
    take a name only when all its characters are letters of [a-z] and
    [A-Z], digits and underscores.  For any other name they answer with
    an error and make no call.  For a name they take, they make two calls
    at most, one for an index, each with a statement of the tool that
    does not depend on the name, and with the name as the value of a
    parameter. *)
Theorem detail_tools_validate_names (name : jsstring) (w : world db) :
  (~ identifier name ->
   procedureDetailsTool db executeQuery name w
   = (ErrorText (js "Invalid procedure name: " ++ name
        ++ js ". Procedure names should only contain alphanumeric characters and underscores."),
      w)
   /\ functionDetailsTool db executeQuery name w
      = (ErrorText (js "Invalid function name: " ++ name
           ++ js ". Function names should only contain alphanumeric characters and underscores."),
         w)
   /\ viewDetailsTool db executeQuery name w
      = (ErrorText (js "Invalid view name: " ++ name
           ++ js ". View names should only contain alphanumeric characters and underscores."),
         w)
   /\ forall other,
        indexDetailsTool db executeQuery name other w
        = (ErrorText (js "Invalid table or index name. Names should only contain alphanumeric characters and underscores."),
           w)
        /\ indexDetailsTool db executeQuery other name w
           = (ErrorText (js "Invalid table or index name. Names should only contain alphanumeric characters and underscores."),
              w))
  /\ (identifier name ->
      (let out := procedureDetailsTool db executeQuery name w in
       Forall (carries [procedureQuery; procedureParametersQuery]
                 {[ js "procedureName" := JStr name ]})
         (callsBetween w (snd out))
       /\ (length (callsBetween w (snd out)) <= 2)%nat)
      /\ (let out := functionDetailsTool db executeQuery name w in
          Forall (carries [functionQuery; functionParametersQuery]
                    {[ js "functionName" := JStr name ]})
            (callsBetween w (snd out))
          /\ (length (callsBetween w (snd out)) <= 2)%nat)
      /\ (let out := viewDetailsTool db executeQuery name w in
          Forall (carries [viewQuery; viewColumnsQuery]
                    {[ js "viewName" := JStr name ]})
            (callsBetween w (snd out))
          /\ (length (callsBetween w (snd out)) <= 2)%nat)
      /\ forall indexName,
           identifier indexName ->
           let out := indexDetailsTool db executeQuery name indexName w in
           Forall (carries [indexQuery]
                     {[ js "tableName" := JStr name;
                        js "indexName" := JStr indexName ]})
             (callsBetween w (snd out))
           /\ (length (callsBetween w (snd out)) <= 1)%nat).
Proof.
  split.
  - intros Hbad. apply sanitized_differs in Hbad.
    unfold procedureDetailsTool, functionDetailsTool, viewDetailsTool,
      indexDetailsTool.
    rewrite Hbad. repeat split; try reflexivity.
    rewrite orb_true_r. reflexivity.
  - intros Hok. destruct (sanitized_same name Hok) as [Hs Hn].
    unfold procedureDetailsTool, functionDetailsTool, viewDetailsTool,
      indexDetailsTool.
    rewrite Hn, Hs. cbv zeta.
    split; [apply two_queries_calls|].
    split; [apply two_queries_calls|].
    split; [apply two_queries_calls|].
    intros indexName Hi. destruct (sanitized_same indexName Hi) as [Hs' Hn'].
    rewrite Hn', Hs'. cbn [orb].
    match goal with
    | |- context [callsBetween w (snd ?t)] => set (out := t)
    end.
    assert (H : exists calls,
              w_calls (snd out) = calls ++ w_calls w
              /\ Forall (carries [indexQuery]
                           {[ js "tableName" := JStr name;
                              js "indexName" := JStr indexName ]}) calls
              /\ (length calls <= 1)%nat).
    { destruct out as [a w'] eqn:E. subst out. cbn [snd].
      unfold run, bind in E.
      match type of E with
      | context [query db executeQuery (R := ?R) ?sql ?p w] =>
          destruct (query_call (R := R) sql p w)
            as (c1 & w1 & Hq1 & Hc1 & Hs1 & Hp1)
      end.
      rewrite Hq1 in E.
      assert (Hone : w' = w1 ->
                exists calls,
                  w_calls w' = calls ++ w_calls w
                  /\ Forall (carries [indexQuery]
                               {[ js "tableName" := JStr name;
                                  js "indexName" := JStr indexName ]}) calls
                  /\ (length calls <= 1)%nat).
      { intros ->. exists [c1]. split; [exact Hc1|]. split; [|cbn; lia].
        constructor; [|constructor].
        split; [|exact Hp1]. rewrite Hs1. apply list_elem_of_here. }
      destruct (call_outcome c1) as [err|result];
        [injection E as _ <-; auto|].
      unfold rowsOf in E.
      destruct (recordset result) as [[|first rest]|];
        injection E as _ <-; auto. }
    destruct H as (calls & Hc & Hall & Hlen).
    rewrite (callsBetween_app w _ calls Hc).
    split; [apply Forall_rev; exact Hall|rewrite length_rev; exact Hlen].
Qed.

End DetailCalls.

(** ** [table_details] *)

Lemma splitChar_nonempty c (s : list N) : splitChar c s <> [].
Proof.
  destruct s as [|x s]; [discriminate|]. cbn.
  destruct (x =? c); [discriminate|].
  destruct (splitChar c s); discriminate.
Qed.

Lemma splitChar_app c (a b : list N) :
  c ∉ a -> splitChar c (a ++ c :: b) = a :: splitChar c b.
Proof.
  induction a as [|x a IH]; intros Ha.
  - cbn. rewrite N.eqb_refl. reflexivity.
  - cbn [app splitChar].
    destruct (N.eqb_spec x c) as [->|Hne].
    + exfalso. apply Ha. apply list_elem_of_here.
    + rewrite IH; [reflexivity|].
      intros Hin. apply Ha. apply list_elem_of_further. exact Hin.
Qed.

Lemma splitChar_without c (a : list N) : c ∉ a -> splitChar c a = [a].
Proof.
  induction a as [|x a IH]; intros Ha; [reflexivity|].
  cbn [splitChar].
  destruct (N.eqb_spec x c) as [->|Hne].
  - exfalso. apply Ha. apply list_elem_of_here.
  - rewrite IH; [reflexivity|].
    intros Hin. apply Ha. apply list_elem_of_further. exact Hin.
Qed.

(** A string with the character in it splits into two parts at least. *)
Lemma splitChar_includes c (s : list N) :
  includes [c] s = true ->
  exists part0 part1 rest, splitChar c s = part0 :: part1 :: rest.
Proof.
  induction s as [|x s IH]; [discriminate|].
  cbn [includes startsWith splitChar].
  destruct (N.eqb_spec c x) as [->|Hne].
  - intros _. rewrite N.eqb_refl.
    destruct (splitChar x s) as [|p ps] eqn:E;
      [exfalso; exact (splitChar_nonempty _ _ E)|]. eauto.
  - cbn [andb orb]. intros H. destruct (IH H) as (p0 & p1 & rest & ->).
    destruct (N.eqb_spec x c) as [->|_]; [congruence|]. eauto.
Qed.

Lemma includes_elem c (s : list N) : includes [c] s = true <-> c ∈ s.
Proof.
  induction s as [|x s IH].
  - split; [discriminate|]. intros H. inversion H.
  - cbn [includes startsWith]. destruct (N.eqb_spec c x) as [->|Hne].
    + split; [intros _; apply list_elem_of_here|reflexivity].
    + cbn [andb orb]. rewrite IH. split.
      * intros H. apply list_elem_of_further. exact H.
      * intros H. inversion H; subst; [congruence|assumption].
Qed.

Lemma identifier_dropBrackets_no_dot (s : list N) :
  identifier (dropBrackets s) -> 46 ∉ s.
Proof.
  intros Hid Hin. unfold identifier in Hid.
  rewrite Forall_forall in Hid.
  assert (H : 46 ∈ dropBrackets s).
  { unfold dropBrackets. apply list_elem_of_filter. split; [exact I|exact Hin]. }
  apply Hid in H. discriminate.
Qed.

Section TableDetails.

Variable db : Type.
Variable executeQuery : jsstring -> jsobject -> db -> (exn + queryResult) * db.

(** [table_details] once the names have been taken. *)
Lemma tableDetails_accepted (tableName schema table : jsstring) (w : world db) :
  (if includes (js ".") tableName then
     exists rest, splitChar 46 tableName = schema :: table :: rest
   else schema = js "dbo" /\ table = tableName) ->
  let schemaName := if includes (js ".") tableName
                    then dropBrackets schema else schema in
  let tableNameOnly := if includes (js ".") tableName
                       then dropBrackets table else table in
  tableDetailsTool db executeQuery tableName w
  = if negb (jsstring_eqb (sanitizeSqlIdentifier (Some schemaName))
               schemaName)
       || negb (jsstring_eqb (sanitizeSqlIdentifier (Some tableNameOnly))
                  tableNameOnly)
    then (ErrorText
            (js "Invalid table name components: " ++ tableName
             ++ js ". Table and schema names should only contain alphanumeric characters and underscores."),
          w)
    else
      run db
        (bind db (query db executeQuery tableColumnsQuery
                    {[ js "schemaName"
                         := JStr (sanitizeSqlIdentifier (Some schemaName));
                       js "tableName"
                         := JStr (sanitizeSqlIdentifier (Some tableNameOnly)) ]})
           (fun result =>
              bind db (rowsOf db result) (fun rows =>
                match rows with
                | [] =>
                    returnAnswer db (ErrorText
                      (js "Table '" ++ sanitizeSqlIdentifier (Some schemaName)
                       ++ js "."
                       ++ sanitizeSqlIdentifier (Some tableNameOnly)
                       ++ js "' not found."))
                | _ :: _ =>
                    fun w =>
                      (Value (Result
                         (TableDetails rows (Z.of_nat (length rows))
                            (sanitizeSqlIdentifier (Some schemaName)
                             ++ js "."
                             ++ sanitizeSqlIdentifier (Some tableNameOnly)))),
                       w)
                end))) w.
Proof.
  intros Hparts. cbv zeta. unfold tableDetailsTool.
  destruct (includes (js ".") tableName).
  - destruct Hparts as [rest ->]. unfold run at 1, bind at 1.
    cbn [fst snd].
    destruct (_ || _); reflexivity.
  - destruct Hparts as [-> ->]. unfold run at 1, bind at 1.
    cbn [fst snd].
    destruct (_ || _); reflexivity.
Qed.

(** X15: [table_details] takes the name [schema.table], with the
    brackets in the two parts removed, or a name without a dot as a table
    of the schema [dbo], only when all characters of the schema and of
    the table are letters of [a-z] and [A-Z], digits and underscores: so
    a bracket is removed from a name with a schema, and refused in a name
    without one.  For any other name it answers with an error and makes
    no call.  For a name it takes it makes one call, with the statement
    of the tool and the two names as the values of its parameters. *)
Theorem table_details_validates_names
    (tableName schema table : jsstring) (w : world db) :
  (if includes (js ".") tableName then
     exists part0 part1 rest,
       splitChar 46 tableName = part0 :: part1 :: rest
       /\ schema = dropBrackets part0 /\ table = dropBrackets part1
   else schema = js "dbo" /\ table = tableName) ->
  let out := tableDetailsTool db executeQuery tableName w in
  (identifier schema /\ identifier table ->
   exists c,
     callsBetween w (snd out) = [c]
     /\ carries [tableColumnsQuery]
          {[ js "schemaName" := JStr schema; js "tableName" := JStr table ]}
          c)
  /\ (~ (identifier schema /\ identifier table) ->
      out = (ErrorText
               (js "Invalid table name components: " ++ tableName
                ++ js ". Table and schema names should only contain alphanumeric characters and underscores."),
             w)).
Proof.
  intros Hparts out.
  assert (Hout : exists s0 t0,
            (if includes (js ".") tableName then
               exists rest, splitChar 46 tableName = s0 :: t0 :: rest
             else s0 = js "dbo" /\ t0 = tableName)
            /\ schema = (if includes (js ".") tableName
                         then dropBrackets s0 else s0)
            /\ table = (if includes (js ".") tableName
                        then dropBrackets t0 else t0)).
  { destruct (includes (js ".") tableName).
    - destruct Hparts as (p0 & p1 & rest & Hs & -> & ->).
      exists p0, p1. eauto.
    - destruct Hparts as [-> ->]. exists (js "dbo"), tableName. auto. }
  destruct Hout as (s0 & t0 & Hsplit & Hschema & Htable).
  pose proof (tableDetails_accepted tableName s0 t0 w Hsplit) as E.
  cbv zeta in E. rewrite <- Hschema, <- Htable in E. subst out.
  split.
  - intros [Hs Ht].
    destruct (sanitized_same schema Hs) as [Es Ns].
    destruct (sanitized_same table Ht) as [Et Nt].
    rewrite Ns, Nt, Es, Et in E. cbn [orb] in E. rewrite E.
    unfold run, bind.
    match goal with
    | |- context [query db executeQuery (R := ?R) ?sql ?p w] =>
        destruct (query_call db executeQuery (R := R) sql p w)
          as (c1 & w1 & -> & Hc1 & Hs1 & Hp1)
    end.
    exists c1.
    assert (Hone : forall a : answer tableDetails,
              callsBetween w (snd (a, w1)) = [c1]
              /\ carries [tableColumnsQuery]
                   {[ js "schemaName" := JStr schema;
                      js "tableName" := JStr table ]} c1).
    { intros a. cbn [snd].
      rewrite (callsBetween_app w w1 [c1]) by exact Hc1.
      split; [reflexivity|]. split; [|exact Hp1].
      rewrite Hs1. apply list_elem_of_here. }
    destruct (call_outcome c1) as [err|result]; [apply Hone|].
    unfold rowsOf.
    destruct (recordset result) as [[|first rest]|]; apply Hone.
  - intros Hbad. rewrite E.
    destruct (negb (jsstring_eqb (sanitizeSqlIdentifier (Some schema)) schema))
      eqn:Ns; [reflexivity|].
    destruct (negb (jsstring_eqb (sanitizeSqlIdentifier (Some table)) table))
      eqn:Nt; [reflexivity|].
    exfalso. apply Hbad. split.
    + apply sanitizeSqlIdentifier_fixed.
      apply negb_false_iff, jsstring_eqb_eq in Ns. exact Ns.
    + apply sanitizeSqlIdentifier_fixed.
      apply negb_false_iff, jsstring_eqb_eq in Nt. exact Nt.
Qed.

(** X16: [table_details] looks at the first two parts of a name with
    dots only: what follows a second dot is not checked and not used, so
    a name with more parts is answered as the name of its first two
    parts, when that is a name that the tool takes. *)
Theorem table_details_ignores_more_parts
    (schema table more : jsstring) (w : world db) :
  identifier (dropBrackets schema) -> identifier (dropBrackets table) ->
  tableDetailsTool db executeQuery
    (schema ++ js "." ++ table ++ js "." ++ more) w
  = tableDetailsTool db executeQuery (schema ++ js "." ++ table) w.
Proof.
  intros Hs Ht.
  pose proof (identifier_dropBrackets_no_dot _ Hs) as Ds.
  pose proof (identifier_dropBrackets_no_dot _ Ht) as Dt.
  change (js ".") with [46].
  assert (Hin : forall tail, includes [46] (schema ++ [46] ++ tail) = true).
  { intros tail. apply includes_elem. apply elem_of_app. right.
    apply list_elem_of_here. }
  rewrite (tableDetails_accepted
             (schema ++ [46] ++ table ++ [46] ++ more) schema table w);
    [|change (js ".") with [46]; rewrite Hin; exists (splitChar 46 more);
      cbn [app]; rewrite splitChar_app by exact Ds;
      rewrite splitChar_app by exact Dt; reflexivity].
  rewrite (tableDetails_accepted (schema ++ [46] ++ table) schema table w);
    [|change (js ".") with [46]; rewrite Hin; exists [];
      cbn [app]; rewrite splitChar_app by exact Ds;
      rewrite splitChar_without by exact Dt; reflexivity].
  cbv zeta. change (js ".") with [46]. rewrite !Hin.
  destruct (sanitized_same _ Hs) as [Es Ns].
  destruct (sanitized_same _ Ht) as [Et Nt].
  rewrite Ns, Nt. reflexivity.
Qed.

End TableDetails.

(** ** [discover_database] *)

Section Discovery.

Variable db : Type.
Variable executeQuery : jsstring -> jsobject -> db -> (exn + queryResult) * db.

(** What a chain of parts that ends with the missing name does: it runs
    the statements [stmts] one after the other, without parameters, as
    long as they come back with a record set, and throws in the end. *)
Let chain (stmts : list jsstring) (m : handler db (answer unit) unit)
  : Prop :=
  forall w,
    exists calls,
      w_calls (snd (m w)) = rev calls ++ w_calls w
      /\ Forall (fun c => call_parameters c = ∅) calls
      /\ (exists n, map call_sql calls = firstn n stmts)
      /\ (exists f, fst (m w) = Throw f)
      /\ (Forall answeredWithRows calls ->
          fst (m w) = Throw (ReferenceError (js "tablesResult"))
          /\ map call_sql calls = stmts).

Lemma chain_end :
  chain [] (fun w => (Throw (ReferenceError (js "tablesResult")), w)).
Proof.
  intros w. exists []. cbn. split; [reflexivity|]. split; [constructor|].
  split; [exists 0%nat; reflexivity|]. split; [eauto|auto].
Qed.

Lemma chain_skip stmts sql m :
  chain stmts m ->
  chain stmts (bind db (discoverPart db executeQuery false sql) (fun _ => m)).
Proof. intros H w. apply (H w). Qed.

Lemma chain_part stmts sql m :
  chain stmts m ->
  chain (sql :: stmts)
    (bind db (discoverPart db executeQuery true sql) (fun _ => m)).
Proof.
  intros H w. unfold discoverPart, bind, queryWithoutParameters, rowsOf.
  cbv beta.
  destruct (executeQuery sql ∅ (w_db w)) as [o d].
  set (c := Call sql ∅ o).
  set (w1 := World db (w_heap w) d (c :: w_calls w)).
  assert (Hstop : forall f,
            (forall rows, o <> inr (QueryResult (Some rows))) ->
            exists calls,
              w_calls w1 = rev calls ++ w_calls w
              /\ Forall (fun c => call_parameters c = ∅) calls
              /\ (exists n, map call_sql calls = firstn n (sql :: stmts))
              /\ (exists f', @Throw (answer unit) unit f = Throw f')
              /\ (Forall answeredWithRows calls ->
                  @Throw (answer unit) unit f
                  = Throw (ReferenceError (js "tablesResult"))
                  /\ map call_sql calls = sql :: stmts)).
  { intros f Ho. exists [c]. split; [reflexivity|].
    split; [repeat constructor|]. split; [exists 1%nat; reflexivity|].
    split; [eauto|]. intros Hall. inversion Hall as [|? ? [rows Hr] _]; subst.
    cbn in Hr. exfalso. exact (Ho rows Hr). }
  destruct o as [err|[[rows|]]]; cbn [recordset]; cbv beta iota;
    fold c; fold w1.
  - apply Hstop. discriminate.
  - destruct (H w1) as (calls & Hc & Hp & (n & Hn) & Hf & Hall).
    exists (c :: calls). cbn [rev]. rewrite <- app_assoc. cbn [app].
    split; [exact Hc|]. split; [constructor; [reflexivity|exact Hp]|].
    split; [exists (S n);
            change (map call_sql (c :: calls))
              with (sql :: map call_sql calls);
            rewrite Hn; reflexivity|].
    split; [exact Hf|]. intros Hok. inversion Hok; subst.
    destruct (Hall ltac:(assumption)) as [-> Hs].
    split; [reflexivity|].
    change (map call_sql (c :: calls)) with (sql :: map call_sql calls).
    rewrite Hs. reflexivity.
  - apply Hstop. discriminate.
Qed.

(** X17: [discover_database] never returns a result.  It runs the
    statements of the kinds that the type asks for, in their order and
    without parameters, as long as they come back with a record set; and
    when all of them have, it ends in the [catch] branch with the
    [ReferenceError] of [tablesResult], a constant of the block of the
    tables that the returned object names outside that block. *)
Theorem discover_database_never_succeeds
    (type : option discoveryType) (limit : option Z) (w : world db) :
  let out := discoverDatabaseTool db executeQuery type limit w in
  let calls := callsBetween w (snd out) in
  let stmts := wantedStatements (default All type) (default 100%Z limit) in
  (exists f, fst out = Caught f)
  /\ Forall (fun c => call_parameters c = ∅) calls
  /\ (exists n, map call_sql calls = firstn n stmts)
  /\ (Forall answeredWithRows calls ->
      fst out = Caught (ReferenceError (js "tablesResult"))
      /\ map call_sql calls = stmts).
Proof.
  intros out calls stmts.
  assert (H : exists m,
            chain stmts m
            /\ out = run db m w).
  { subst out stmts. unfold discoverDatabaseTool.
    destruct (default All type); cbn [wantedStatements]; eexists;
      (split; [|reflexivity]);
      repeat first [ apply chain_end
                   | apply chain_part
                   | apply chain_skip ]. }
  destruct H as (m & Hm & Hout).
  destruct (Hm w) as (cs & Hc & Hp & Hn & (f & Hf) & Hall).
  assert (Hcalls : calls = cs).
  { subst calls. rewrite Hout. unfold run.
    destruct (m w) as [o w1]. cbn [fst snd] in *.
    rewrite (callsBetween_app w _ (rev cs));
      [apply rev_involutive|].
    destruct o; exact Hc. }
  rewrite Hcalls. rewrite Hout. unfold run.
  destruct (m w) as [o w1]. cbn [fst snd] in *. subst o.
  split; [eauto|]. split; [exact Hp|]. split; [exact Hn|].
  intros Hok. destruct (Hall Hok) as [[= ->] ->]. auto.
Qed.

End Discovery.

(** ** [lib/database.js]: retries and transactions *)

Lemma stepsBetween_app {driver pool} (s0 s : server driver pool)
    (l : list step) :
  srv_steps s = l ++ srv_steps s0 -> stepsBetween s0 s = rev l.
Proof.
  intros H. unfold stepsBetween. rewrite H, length_app.
  replace (length l + length (srv_steps s0) - length (srv_steps s0))%nat
    with (length l) by lia.
  rewrite take_app_length. reflexivity.
Qed.

Section DatabaseProperties.

Variable driver : Type.
Variable pool : Type.
Variable connect : driver -> (sqlError + pool) * driver.
Variable connected : pool -> driver -> bool.
Variable reconnect : pool -> driver -> (sqlError + unit) * driver.
Variable request :
  pool -> jsstring -> jsobject -> driver -> (sqlError + queryResult) * driver.
Variable beginTransaction :
  option pool -> driver -> (sqlError + unit) * driver.
Variable transactionRequest :
  jsstring -> jsobject -> driver -> (sqlError + queryResult) * driver.
Variable commit : driver -> (sqlError + unit) * driver.
Variable rollback : driver -> (sqlError + unit) * driver.

Let ensure := ensurePoolConnected driver pool connect connected reconnect.
Let retrying :=
  executeQueryRetrying driver pool connect connected reconnect request.

(** Making sure of the pool takes no step of the log. *)
Lemma ensurePoolConnected_steps (s : server driver pool) :
  srv_steps (snd (ensure s)) = srv_steps s.
Proof.
  unfold ensure, ensurePoolConnected, initializeDbPool.
  destruct (sqlPool s) as [p|].
  - destruct (connected p (srv_driver s)); [reflexivity|].
    destruct (reconnect p (srv_driver s)) as [[err|u] d]; cbn [srv_driver];
      [|reflexivity].
    destruct (connect d) as [[err'|p'] d']; reflexivity.
  - destruct (connect (srv_driver s)) as [[err'|p'] d']; reflexivity.
Qed.

(** What a call of [executeQuery] with [n] retries left adds to the
    log. *)
Lemma executeQueryRetrying_steps (n : nat) (sqlQuery : jsstring)
    (parameters : jsobject) (s : server driver pool) :
  let out := retrying n sqlQuery parameters s in
  exists failed last,
    srv_steps (snd out)
    = rev (map (fun err => Request sqlQuery parameters (inl err)) failed
           ++ last)
      ++ srv_steps s
    /\ Forall (fun err => codeIn transientErrors err = true) failed
    /\ (length failed <= n)%nat
    /\ ((last = [] /\ exists err, fst out = inl err)
        \/ (last = [Request sqlQuery parameters (fst out)]
            /\ forall err,
                 fst out = inl err ->
                 codeIn transientErrors err = false
                 \/ length failed = n)).
Proof.
  revert s. induction n as [|n IH]; intros s out; subst out; cbn [retrying];
    unfold retrying; cbn [executeQueryRetrying];
    fold (ensure s);
    pose proof (ensurePoolConnected_steps s) as He;
    destruct (ensure s) as [[err|u] s1]; cbn [fst snd] in *.
  - exists [], []. cbn. rewrite He. split; [reflexivity|].
    split; [constructor|]. split; [lia|]. left. eauto.
  - destruct (sqlPool s1) as [p|].
    + destruct (request p sqlQuery parameters (srv_driver s1))
        as [[err|result] d]; cbn [fst snd srv_steps]; exists [];
        eexists [_]; cbn; rewrite He;
        (split; [reflexivity|]); (split; [constructor|]);
        (split; [lia|]); right; (split; [reflexivity|]);
        intros e [= <-] || intros e [=]; auto.
    + exists [], []. cbn. rewrite He. split; [reflexivity|].
      split; [constructor|]. split; [lia|]. left. eauto.
  - exists [], []. cbn. rewrite He. split; [reflexivity|].
    split; [constructor|]. split; [lia|]. left. eauto.
  - destruct (sqlPool s1) as [p|].
    + destruct (request p sqlQuery parameters (srv_driver s1))
        as [[err|result] d]; cbn [fst snd srv_steps].
      * destruct (codeIn transientErrors err) eqn:Ht.
        -- match goal with
           | |- context [executeQueryRetrying _ _ _ _ _ _ n _ _ ?s'] =>
               set (s2 := s');
               destruct (IH s2) as (failed & last & Hs & Hf & Hlen & Hlast)
           end.
           unfold retrying in Hs, Hlast. subst s2. cbn [srv_steps] in Hs.
           exists (err :: failed), last. rewrite Hs.
           split; [rewrite He; cbn [map app rev]; rewrite <- !app_assoc;
                   reflexivity|].
           split; [constructor; assumption|]. split; [cbn; lia|].
           destruct Hlast as [Hl|[Hl Hno]]; [left; exact Hl|right].
           split; [exact Hl|]. intros e He'. destruct (Hno e He') as [H|H];
             [left; exact H|right; cbn; lia].
        -- exists []. eexists [_]. cbn. rewrite He.
           split; [reflexivity|]. split; [constructor|]. split; [lia|].
           right. split; [reflexivity|]. intros e [= <-]. auto.
      * exists []. eexists [_]. cbn. rewrite He.
        split; [reflexivity|]. split; [constructor|]. split; [lia|].
        right. split; [reflexivity|]. intros e [=].
    + exists [], []. cbn. rewrite He. split; [reflexivity|].
      split; [constructor|]. split; [lia|]. left. eauto.
Qed.

(** X18: [executeQuery] of the database module sends the statement
    with its parameters once, and again after every failure with one of
    the codes [ETIMEOUT], [ECONNCLOSED], [ECONNRESET] and [ESOCKET],
    [retryCount] times at most, which is three times when the count is
    left out.  Its result is the one of the request it sent last; a
    failure with another code is not retried; and it sends nothing and
    fails when the pool cannot be connected. *)
Theorem executeQuery_retries (sqlQuery : jsstring)
    (parameters : option jsobject) (retryCount : option Z)
    (s : server driver pool) :
  let out := databaseExecuteQuery driver pool connect connected reconnect
               request sqlQuery parameters retryCount s in
  let retries := Z.to_nat (default 3%Z retryCount) in
  let sent outcome := Request sqlQuery (default ∅ parameters) outcome in
  exists failed last,
    stepsBetween s (snd out) = map (fun err => sent (inl err)) failed ++ last
    /\ Forall (fun err => codeIn transientErrors err = true) failed
    /\ (length failed <= retries)%nat
    /\ ((last = [] /\ exists err, fst out = inl err)
        \/ (last = [sent (fst out)]
            /\ forall err,
                 fst out = inl err ->
                 codeIn transientErrors err = false
                 \/ length failed = retries)).
Proof.
  cbv zeta. unfold databaseExecuteQuery.
  pose proof (executeQueryRetrying_steps
                (Z.to_nat (default 3%Z retryCount)) sqlQuery
                (default ∅ parameters) s) as H.
  cbv zeta in H. unfold retrying in H.
  destruct H as (failed & last & Hs & Hf & Hlen & Hlast).
  exists failed, last.
  rewrite (stepsBetween_app s _ _ Hs), rev_involutive.
  auto.
Qed.

Let requests := transactionRequests driver pool transactionRequest.

(** The loop over the queries: either all requests succeed, in their
    order, or the first one that fails ends the loop. *)
Lemma transactionRequests_steps (queries : list transactionQuery)
    (results : list queryResult) (s : server driver pool) :
  let out := requests queries results s in
  match fst out with
  | inr all =>
      exists more,
        all = results ++ more
        /\ length more = length queries
        /\ srv_steps (snd out)
           = rev (requestSteps queries more) ++ srv_steps s
  | inl err =>
      exists done q rest more,
        queries = done ++ q :: rest
        /\ length more = length done
        /\ srv_steps (snd out)
           = TransactionRequest (tq_sql q) (default ∅ (tq_parameters q))
               (inl err)
             :: rev (requestSteps done more) ++ srv_steps s
  end.
Proof.
  revert results s.
  induction queries as [|q queries IH]; intros results s; cbn zeta.
  - cbn. exists []. rewrite app_nil_r. auto.
  - unfold requests. cbn [transactionRequests]. fold requests.
    destruct (transactionRequest (tq_sql q) (default ∅ (tq_parameters q))
                (srv_driver s)) as [[err|result] d].
    + cbn [fst snd srv_steps]. exists [], q, queries, []. auto.
    + match goal with
      | |- context [requests queries ?r ?s'] =>
          specialize (IH r s'); cbn zeta in IH;
          destruct (requests queries r s') as [[err|all] s2]
      end; cbn [fst snd srv_steps] in *.
      * destruct IH as (done & q' & rest & more & -> & Hlen & Hs).
        exists (q :: done), q', rest, (result :: more).
        split; [reflexivity|]. split; [cbn; lia|].
        rewrite Hs. unfold requestSteps. cbn [zip_with rev].
        rewrite <- !app_assoc. reflexivity.
      * destruct IH as (more & -> & Hlen & Hs).
        exists (result :: more). rewrite <- app_assoc.
        split; [reflexivity|]. split; [cbn; lia|].
        rewrite Hs. unfold requestSteps. cbn [zip_with rev].
        rewrite <- !app_assoc. reflexivity.
Qed.

(** X19: [executeTransaction] refuses an empty list of queries before
    it touches the pool.  Otherwise, once the pool is connected, it
    begins the transaction, sends the queries in their order until one
    fails, and commits when none has failed; its result are then the
    results of the queries, one for each.  When the beginning, a query or
    the commit fails, it rolls back once, whatever the rollback does, and
    fails with that first error; so nothing is sent after a failure but
    the rollback, and a transaction with a failure in it is not
    committed. *)
Theorem executeTransaction_protocol (queries : list transactionQuery)
    (s : server driver pool) :
  let out := executeTransaction driver pool connect connected reconnect
               beginTransaction transactionRequest commit rollback
               queries s in
  let steps := stepsBetween s (snd out) in
  match fst out with
  | inr results =>
      queries <> []
      /\ length results = length queries
      /\ steps = Begin (inr tt) :: requestSteps queries results
                 ++ [Commit (inr tt)]
  | inl err =>
      (queries = [] /\ snd out = s
       /\ err = plainError "No queries provided for transaction")
      \/ (queries <> [] /\ steps = [])
      \/ (exists outcome, steps = [Begin (inl err); Rollback outcome])
      \/ (exists done q rest results outcome,
            queries = done ++ q :: rest
            /\ length results = length done
            /\ steps
               = Begin (inr tt) :: requestSteps done results
                 ++ [TransactionRequest (tq_sql q)
                       (default ∅ (tq_parameters q)) (inl err);
                     Rollback outcome])
      \/ (exists results outcome,
            length results = length queries
            /\ steps
               = Begin (inr tt) :: requestSteps queries results
                 ++ [Commit (inl err); Rollback outcome])
  end.
Proof.
  cbv zeta. unfold executeTransaction.
  destruct queries as [|q0 queries0] eqn:Hq; [left; auto|].
  rewrite <- Hq. assert (Hne : queries <> []) by (rewrite Hq; discriminate).
  clear Hq. fold (ensure s).
  pose proof (ensurePoolConnected_steps s) as He.
  destruct (ensure s) as [[err|u] s1]; cbn [fst snd] in *.
  - right. left. split; [exact Hne|].
    apply (stepsBetween_app s s1 []). exact He.
  - unfold transactionBody.
    destruct (beginTransaction (sqlPool s1) (srv_driver s1)) as [[err|u'] d].
    + destruct (rollback d) as [outcome d'] eqn:Hr. cbn [srv_driver].
      rewrite Hr. cbn [fst snd].
      right. right. left. exists outcome.
      apply (stepsBetween_app s _ [Rollback outcome; Begin (inl err)]).
      cbn [srv_steps]. rewrite He. reflexivity.
    + match goal with
      | |- context [transactionRequests _ _ _ queries [] ?s'] =>
          pose proof (transactionRequests_steps queries [] s') as Hreq;
          cbv zeta in Hreq; unfold requests in Hreq;
          destruct (transactionRequests driver pool transactionRequest
                      queries [] s') as [[err|results] s2]
      end; cbn [fst snd srv_steps] in Hreq.
      * destruct Hreq as (done & q & rest & more & Hqs & Hlen & Hs).
        destruct (rollback (srv_driver s2)) as [outcome d'].
        cbn [fst snd].
        right. right. right. left.
        exists done, q, rest, more, outcome.
        split; [exact Hqs|]. split; [exact Hlen|].
        rewrite (stepsBetween_app s _
                   (Rollback outcome
                    :: TransactionRequest (tq_sql q)
                         (default ∅ (tq_parameters q)) (inl err)
                    :: rev (requestSteps done more) ++ [Begin (inr tt)]));
          [|cbn [srv_steps app]; rewrite Hs, He, <- ?app_assoc; reflexivity].
        cbn [rev]. rewrite rev_app_distr, rev_involutive.
        cbn [rev app]. rewrite <- !app_assoc. reflexivity.
      * destruct Hreq as (more & Hres & Hlen & Hs). cbn [app] in Hres.
        subst more.
        destruct (commit (srv_driver s2)) as [[err|u''] d1].
        -- destruct (rollback d1) as [outcome d'] eqn:Hr.
           cbn [srv_driver]. rewrite Hr. cbn [fst snd].
           right. right. right. right. exists results, outcome.
           split; [exact Hlen|].
           rewrite (stepsBetween_app s _
                      (Rollback outcome :: Commit (inl err)
                       :: rev (requestSteps queries results)
                          ++ [Begin (inr tt)]));
             [|cbn [srv_steps app]; rewrite Hs, He, <- ?app_assoc; reflexivity].
           cbn [rev]. rewrite rev_app_distr, rev_involutive.
           cbn [rev app]. rewrite <- !app_assoc. reflexivity.
        -- cbn [fst snd]. split; [exact Hne|]. split; [exact Hlen|].
           rewrite (stepsBetween_app s _
                      (Commit (inr tt)
                       :: rev (requestSteps queries results)
                          ++ [Begin (inr tt)]));
             [|cbn [srv_steps app]; rewrite Hs, He, <- ?app_assoc; reflexivity].
           cbn [rev]. rewrite rev_app_distr, rev_involutive.
           reflexivity.
Qed.

End DatabaseProperties.

(** ** Runs of [table_details] and of the database module *)

Lemma table_details_validates_names_witness :
  (identifier (js "sales") /\ identifier (js "orders") ->
   exists c,
     callsBetween (scriptedWorld ordersColumns)
       (snd (tableDetailsTool _ scriptedPort (js "[sales].[orders]")
               (scriptedWorld ordersColumns))) = [c]
     /\ carries [tableColumnsQuery]
          {[ js "schemaName" := JStr (js "sales");
             js "tableName" := JStr (js "orders") ]} c)
  /\ (~ (identifier (js "sales") /\ identifier (js "orders")) ->
      tableDetailsTool _ scriptedPort (js "[sales].[orders]")
        (scriptedWorld ordersColumns)
      = (ErrorText
           (js "Invalid table name components: " ++ js "[sales].[orders]"
            ++ js ". Table and schema names should only contain alphanumeric characters and underscores."),
         scriptedWorld ordersColumns)).
Proof.
  apply (table_details_validates_names _ scriptedPort
           (js "[sales].[orders]") (js "sales") (js "orders")
           (scriptedWorld ordersColumns)).
  assert (E : includes (js ".") (js "[sales].[orders]") = true)
    by (vm_compute; reflexivity).
  rewrite E. exists (js "[sales]"), (js "[orders]"), [].
  repeat split; vm_compute; reflexivity.
Defined.

Lemma table_details_ignores_more_parts_witness :
  tableDetailsTool _ scriptedPort
    (js "sales" ++ js "." ++ js "[orders]" ++ js "." ++ js "archive; --")
    (scriptedWorld ordersColumns)
  = tableDetailsTool _ scriptedPort (js "sales" ++ js "." ++ js "[orders]")
      (scriptedWorld ordersColumns).
Proof.
  apply (table_details_ignores_more_parts _ scriptedPort (js "sales")
           (js "[orders]") (js "archive; --") (scriptedWorld ordersColumns)).
  - vm_compute. repeat constructor.
  - vm_compute. repeat constructor.
Defined.

(** The table is found under its two names. *)
Example table_details_found :
  fst (tableDetailsTool _ scriptedPort (js "[sales].[orders]")
         (scriptedWorld ordersColumns))
  = Result (TableDetails (hd [] ordersColumns) 1%Z (js "sales.orders")).
Proof. vm_compute. reflexivity. Qed.

(** A bracket in a name without a schema is refused. *)
Example table_details_bracket_refused :
  exists text,
    tableDetailsTool _ scriptedPort (js "[orders]")
      (scriptedWorld ordersColumns)
    = (ErrorText text, scriptedWorld ordersColumns).
Proof. eexists. vm_compute. reflexivity. Qed.

(** [discover_database] ends in its [catch] branch after the statements
    of all four kinds. *)
Example discover_database_all :
  let out := discoverDatabaseTool _ scriptedPort (Some All) (Some 100%Z)
               (scriptedWorld ordersColumns) in
  fst out = Caught (ReferenceError (js "tablesResult"))
  /\ map call_sql (callsBetween (scriptedWorld ordersColumns) (snd out))
     = wantedStatements All 100%Z.
Proof. vm_compute. split; reflexivity. Qed.

(** Two timeouts and then a result: three requests, and the result. *)
Example executeQuery_after_two_timeouts :
  let result := QueryResult (Some []) in
  let out := scriptedExecuteQuery (js "SELECT 1") None
               [inl timeout; inl timeout; inr result] in
  fst out = inr result
  /\ stepsBetween (scriptedServer []) (snd out)
     = [Request (js "SELECT 1") ∅ (inl timeout);
        Request (js "SELECT 1") ∅ (inl timeout);
        Request (js "SELECT 1") ∅ (inr result)].
Proof. vm_compute. split; reflexivity. Qed.

(** Timeouts only: the first request and three more, and the timeout. *)
Example executeQuery_gives_up :
  let out := scriptedExecuteQuery (js "SELECT 1") None
               (repeat (inl timeout) 10) in
  fst out = inl timeout
  /\ length (stepsBetween (scriptedServer []) (snd out)) = 4%nat.
Proof. vm_compute. split; reflexivity. Qed.

(** An error that is not transient is not retried. *)
Example executeQuery_no_retry :
  let out := scriptedExecuteQuery (js "INSERT") None [inl duplicateKey] in
  fst out = inl duplicateKey
  /\ stepsBetween (scriptedServer []) (snd out)
     = [Request (js "INSERT") ∅ (inl duplicateKey)].
Proof. vm_compute. split; reflexivity. Qed.

(** The second of three queries fails: the third is not sent, and the
    transaction is rolled back. *)
Example transaction_rolled_back :
  let q (sql : jsstring) := TransactionQuery sql None in
  let result := QueryResult (Some []) in
  let out := scriptedTransaction [q (js "A"); q (js "B"); q (js "C")]
               [inr result; inl duplicateKey] in
  fst out = inl duplicateKey
  /\ stepsBetween (scriptedServer []) (snd out)
     = [Begin (inr tt);
        TransactionRequest (js "A") ∅ (inr result);
        TransactionRequest (js "B") ∅ (inl duplicateKey);
        Rollback (inr tt)].
Proof. vm_compute. split; reflexivity. Qed.

Example transaction_committed :
  let q (sql : jsstring) := TransactionQuery sql None in
  let result := QueryResult (Some []) in
  let out := scriptedTransaction [q (js "A"); q (js "B")] [] in
  fst out = inr [result; result]
  /\ stepsBetween (scriptedServer []) (snd out)
     = [Begin (inr tt);
        TransactionRequest (js "A") ∅ (inr result);
        TransactionRequest (js "B") ∅ (inr result);
        Commit (inr tt)].
Proof. vm_compute. split; reflexivity. Qed.

